(** * fast_vector.h: a shallow embedding and its verification

    [fast_vector<T>] is a growable contiguous buffer over raw storage obtained
    from [std::malloc]/[std::realloc].  The embedding keeps the three private
    fields of the class ([m_data], [m_size], [m_capacity]), an explicit heap of
    raw blocks, and the compile-time switch [std::is_trivial_v<T>] that selects
    the bulk (memcpy/realloc) path or the per-element (construct/destroy) path.

    Conventions.
    - [size_type] is [std::size_t], taken as 64 bits wide: values are [Z] and
      every arithmetic result stored in a [size_type] goes through [wrap].
    - [assert] is active (a debug build): a failed assertion aborts.
    - A slot of a raw block is [None] while it holds no object (fresh storage
      or an object whose destructor has run) and [Some x] when it holds an
      object of value [x].  Copy construction duplicates the value.
    - [std::malloc]/[std::realloc] satisfy a request of [n] bytes exactly when
      [n <= heap_limit]; otherwise they return [nullptr].  Blocks are never
      recycled, so a stale pointer is always detected. *)

From Stdlib Require Import ZArith Lia List Bool.
From stdpp Require Import base decidable option list.

Local Open Scope Z_scope.

Module FastVector.

(** ** Machine integers *)

Definition SIZE_MOD : Z := Eval cbv in 2 ^ 64.
Definition PTRDIFF_MAX : Z := Eval cbv in 2 ^ 63 - 1.

(** Reduction of an arithmetic result to [std::size_t]. *)
Definition wrap (x : Z) : Z := x mod SIZE_MOD.

(** ** Outcomes of a run *)

(** The five [assert]s of the source, by the condition they check. *)
Inductive assertion :=
  | PositionInRange      (* pos < m_size, operator[] *)
  | ContainerNotEmpty    (* m_size > 0, front/back/pop_back *)
  | CapacityGrows        (* new_cap > m_capacity, reserve *)
  | ReallocationDone     (* m_data != nullptr after realloc *)
  | AllocationDone.      (* new_data_location != nullptr after malloc *)

(** Behaviour the language leaves undefined. *)
Inductive undefined :=
  | NullAccess           (* access through nullptr (plus an offset) *)
  | DanglingAccess       (* access to a released block *)
  | OutOfBounds          (* access outside the block *)
  | NoObject             (* read or destruction of a slot holding no object *)
  | BadFree              (* free of something malloc did not return *)
  | BadRange             (* [begin, end) with end not reachable from begin *)
  | Overlap.             (* std::memcpy between overlapping ranges *)

Inductive fault :=
  | AssertionFailed (a : assertion)
  | Undefined (u : undefined)
  | IllFormed.           (* a call that does not type-check / static_assert *)

(** The only exception thrown is [std::range_error], by [at]. *)
Inductive exception := range_error.

Inductive outcome (S A : Type) :=
  | Done (x : A) (s : S)          (* normal return *)
  | Thrown (e : exception) (s : S) (* exception propagating to the caller *)
  | Abort (f : fault).            (* the process does not continue *)
Arguments Done {S A} x s.
Arguments Thrown {S A} e s.
Arguments Abort {S A} f.

(** State passing with early exit. *)
Definition M (S A : Type) : Type := S -> outcome S A.

Definition ret {S A} (x : A) : M S A := fun s => Done x s.

Definition bind {S A B} (m : M S A) (k : A -> M S B) : M S B :=
  fun s => match m s with
           | Done x s' => k x s'
           | Thrown e s' => Thrown e s'
           | Abort f => Abort f
           end.

Definition abort {S A} (f : fault) : M S A := fun _ => Abort f.
Definition throw {S A} (e : exception) : M S A := fun s => Thrown e s.

Definition assert {S} (c : bool) (a : assertion) : M S unit :=
  if c then ret tt else abort (AssertionFailed a).

Declare Scope fv_scope.
Delimit Scope fv_scope with fv.
Notation "x <- m ;; k" := (bind m (fun x => k))
  (at level 100, m at next level, right associativity) : fv_scope.
Notation "m ;;; k" := (bind m (fun _ => k))
  (at level 100, right associativity) : fv_scope.
Local Open Scope fv_scope.

(** ** Pointers *)

Definition addr := nat.

(** [T*]: a block (or none, for pointers derived from [nullptr]) and an
    offset counted in elements. *)
Record ptr := Ptr { base : option addr; off : Z }.

Definition nullptr : ptr := Ptr None 0.

Definition ptr_add (p : ptr) (n : Z) : ptr := Ptr (base p) (off p + n).

Definition is_null (p : ptr) : bool :=
  match base p with None => true | Some _ => false end.

(** [p < q] on pointers into the same array. *)
Definition ptr_lt (p q : ptr) : bool := off p <? off q.

(** Number of [++] steps that take [first] to [last]. *)
Definition distance {S} (first last : ptr) : M S nat := fun s =>
  if bool_decide (base first = base last) && (off first <=? off last)
  then Done (Z.to_nat (off last - off first)) s
  else Abort (Undefined BadRange).

Section Element.

(** The element type: its values, [operator==], [std::is_trivial_v<T>],
    [sizeof(T)] and the value its default constructor produces. *)
Context {T : Type} `{EqDecision T}.
Variable is_trivial : bool.
Variable sizeof_T : Z.
Variable default_T : T.

(** Largest request the allocator satisfies. *)
Variable heap_limit : Z.

(** ** The heap *)

(** A raw block: one slot per element. *)
Local Abbreviation block := (list (option T)).

Record heap := Heap {
  blocks : list (option block);   (* [None]: released *)
  destroyed : list T              (* values whose destructor ran, in order *)
}.

Definition empty_heap : heap := Heap [] [].

Definition set_block (a : addr) (b : option block) (h : heap) : heap :=
  Heap (<[a := b]> (blocks h)) (destroyed h).

(** The block a pointer points into. *)
Definition block_of (p : ptr) : M heap (addr * block) := fun h =>
  match base p with
  | None => Abort (Undefined NullAccess)
  | Some a =>
      match blocks h !! a with
      | Some (Some b) => Done (a, b) h
      | _ => Abort (Undefined DanglingAccess)
      end
  end.

Definition in_bounds (p : ptr) (b : block) : bool :=
  (0 <=? off p) && (off p <? Z.of_nat (length b)).

(** Raw content of the slot [p] points to. *)
Definition peek (p : ptr) : M heap (option T) :=
  ab <- block_of p ;;
  match (if in_bounds p ab.2 then ab.2 !! Z.to_nat (off p) else None) with
  | Some s => ret s
  | None => abort (Undefined OutOfBounds)
  end.

(** Overwrite the slot [p] points to. *)
Definition poke (p : ptr) (s : option T) : M heap unit :=
  ab <- block_of p ;;
  if in_bounds p ab.2
  then fun h => Done tt (set_block ab.1 (Some (<[Z.to_nat (off p) := s]> ab.2)) h)
  else abort (Undefined OutOfBounds).

(** [*p] as an rvalue. *)
Definition load (p : ptr) : M heap T :=
  s <- peek p ;;
  match s with Some x => ret x | None => abort (Undefined NoObject) end.

(** [new (p) T(x)] and [new (p) T]. *)
Definition construct (p : ptr) (x : T) : M heap unit := poke p (Some x).

(** [*p = x] for a trivial [T]. *)
Definition assign (p : ptr) (x : T) : M heap unit := poke p (Some x).

(** [p->~T()]. *)
Definition destroy (p : ptr) : M heap unit :=
  x <- load p ;;
  poke p None ;;;
  fun h => Done tt (Heap (blocks h) (destroyed h ++ [x])).

(** Elements that fit in [bytes] bytes. *)
Definition slots (bytes : Z) : nat := Z.to_nat (bytes / sizeof_T).

(** [std::malloc(bytes)].  A request of zero bytes is granted with a block
    of no slots (the standard also allows [nullptr] there). *)
Definition malloc (bytes : Z) : M heap ptr := fun h =>
  if bytes <=? heap_limit
  then Done (Ptr (Some (length (blocks h))) 0)
            (Heap (blocks h ++ [Some (replicate (slots bytes) None)]) (destroyed h))
  else Done nullptr h.

(** [std::free(p)]. *)
Definition free (p : ptr) : M heap unit :=
  match base p with
  | None => ret tt
  | Some a => fun h =>
      match blocks h !! a with
      | Some (Some _) =>
          if off p =? 0 then Done tt (set_block a None h)
          else Abort (Undefined BadFree)
      | _ => Abort (Undefined BadFree)
      end
  end.

(** A block cut or extended to [n] slots. *)
Definition resized (n : nat) (b : block) : block :=
  take n b ++ replicate (n - length b)%nat None.

(** [std::realloc(p, bytes)]: the new block keeps the old content up to the
    smaller of the two sizes and the old block is released; on failure the
    old block is left alone. *)
Definition realloc (p : ptr) (bytes : Z) : M heap ptr :=
  if is_null p then malloc bytes
  else
    ab <- block_of p ;;
    if negb (off p =? 0) then abort (Undefined BadFree)
    else if bytes <=? heap_limit
    then fun h =>
      Done (Ptr (Some (length (blocks h))) 0)
           (Heap (<[ab.1 := None]> (blocks h) ++ [Some (resized (slots bytes) ab.2)])
                 (destroyed h))
    else ret nullptr.

(** [std::memcpy(dest, src, bytes)].  The ranges of [n] elements at [dest]
    and at [src] must not overlap: copying between two different ranges
    that share an element is undefined behaviour.  [erase] calls it with
    the destination one slot below the source, so its ranges overlap as
    soon as two elements are copied.  With [dest == src], as in the
    self-assignment [v = v] of a trivial [T], every element is copied onto
    itself; implementations define that case, and the run continues. *)
Definition overlaps (dest src : ptr) (n : nat) : bool :=
  bool_decide (base dest = base src) &&
  negb (off dest =? off src) &&
  (Z.abs (off dest - off src) <? Z.of_nat n).

(** The copy itself, whole elements from [src] to [dest]. *)
Fixpoint memcpy_loop (n : nat) (dest src : ptr) : M heap unit :=
  match n with
  | O => ret tt
  | S k =>
      s <- peek src ;;
      poke dest s ;;;
      memcpy_loop k (ptr_add dest 1) (ptr_add src 1)
  end.

Definition memcpy (dest src : ptr) (bytes : Z) : M heap unit :=
  if overlaps dest src (slots bytes) then abort (Undefined Overlap)
  else memcpy_loop (slots bytes) dest src.

(** ** Helper functions *)

(** Each helper walks [begin] up to [end] with [while (begin != end)]; the
    walk takes [distance begin end] steps. *)

Fixpoint construct_range_loop (n : nat) (begin : ptr) : M heap unit :=
  match n with
  | O => ret tt
  | S k => construct begin default_T ;;; construct_range_loop k (ptr_add begin 1)
  end.

Definition construct_range (begin end_ : ptr) : M heap unit :=
  n <- distance begin end_ ;; construct_range_loop n begin.

Fixpoint copy_range_loop (n : nat) (begin dest : ptr) : M heap unit :=
  match n with
  | O => ret tt
  | S k =>
      x <- load begin ;;
      construct dest x ;;;
      copy_range_loop k (ptr_add begin 1) (ptr_add dest 1)
  end.

Definition copy_range (begin end_ dest : ptr) : M heap unit :=
  n <- distance begin end_ ;; copy_range_loop n begin dest.

Fixpoint find_item_loop (n : nat) (begin end_ : ptr) (value : T) : M heap ptr :=
  match n with
  | O => ret end_
  | S k =>
      x <- load begin ;;
      if bool_decide (x = value) then ret begin
      else find_item_loop k (ptr_add begin 1) end_ value
  end.

Definition find_item (begin end_ : ptr) (value : T) : M heap ptr :=
  n <- distance begin end_ ;; find_item_loop n begin end_ value.

Fixpoint destruct_range_loop (n : nat) (begin : ptr) : M heap unit :=
  match n with
  | O => ret tt
  | S k => destroy begin ;;; destruct_range_loop k (ptr_add begin 1)
  end.

Definition destruct_range (begin end_ : ptr) : M heap unit :=
  n <- distance begin end_ ;; destruct_range_loop n begin.

(** ** The class *)

Record fast_vector := FV { m_data : ptr; m_size : Z; m_capacity : Z }.

Definition grow_factor : Z := 2.

(** [fast_vector() = default], from the default member initialisers. *)
Definition default_ctor : fast_vector := FV nullptr 0 0.

Definition with_data (p : ptr) (v : fast_vector) : fast_vector :=
  FV p (m_size v) (m_capacity v).
Definition with_size (n : Z) (v : fast_vector) : fast_vector :=
  FV (m_data v) n (m_capacity v).
Definition with_capacity (n : Z) (v : fast_vector) : fast_vector :=
  FV (m_data v) (m_size v) n.

(** *** Iterators and capacity queries *)

Definition data (v : fast_vector) : ptr := m_data v.
Definition begin (v : fast_vector) : ptr := m_data v.
Definition end_ (v : fast_vector) : ptr := ptr_add (m_data v) (m_size v).
Definition empty (v : fast_vector) : bool := m_size v =? 0.
Definition size (v : fast_vector) : Z := m_size v.
Definition capacity (v : fast_vector) : Z := m_capacity v.

(** *** Element access: the result is the reference [m_data[pos]] *)

(** [operator[]]. *)
Definition subscript (pos : Z) (v : fast_vector) : M heap ptr :=
  assert (pos <? m_size v) PositionInRange ;;;
  ret (ptr_add (m_data v) pos).

Definition at_ (pos : Z) (v : fast_vector) : M heap ptr :=
  if pos >=? m_size v then throw range_error
  else subscript pos v.

Definition front (v : fast_vector) : M heap ptr :=
  assert (m_size v >? 0) ContainerNotEmpty ;;;
  ret (ptr_add (m_data v) 0).

Definition back (v : fast_vector) : M heap ptr :=
  assert (m_size v >? 0) ContainerNotEmpty ;;;
  ret (ptr_add (m_data v) (wrap (m_size v - 1))).

(** *** Construction from [a, b) and destruction *)

(** [fast_vector(const T a[], const T b[])]. *)
Definition range_ctor (a b : ptr) : M heap fast_vector :=
  let n := wrap (off b - off a) in
  p <- malloc (wrap (sizeof_T * n)) ;;
  (if is_trivial then memcpy p a (wrap (sizeof_T * n))
   else copy_range a b p) ;;;
  ret (FV p n n).

(** [fast_vector(std::initializer_list<T>&&)] delegates to the range
    constructor with the bounds of the list's array. *)
Definition initializer_list_ctor (first last : ptr) : M heap fast_vector :=
  range_ctor first last.

(** [~fast_vector()]. *)
Definition dtor (v : fast_vector) : M heap unit :=
  if is_null (m_data v) then ret tt
  else
    (if negb is_trivial then destruct_range (begin v) (end_ v) else ret tt) ;;;
    free (m_data v).

(** *** Capacity *)

Definition reserve (new_cap : Z) (v : fast_vector) : M heap fast_vector :=
  assert (new_cap >? m_capacity v) CapacityGrows ;;;
  if is_trivial then
    p <- realloc (m_data v) (wrap (sizeof_T * new_cap)) ;;
    assert (negb (is_null p)) ReallocationDone ;;;
    ret (with_capacity new_cap (with_data p v))
  else
    new_data_location <- malloc (wrap (sizeof_T * new_cap)) ;;
    assert (negb (is_null new_data_location)) AllocationDone ;;;
    copy_range (begin v) (end_ v) new_data_location ;;;
    destruct_range (begin v) (end_ v) ;;;
    free (m_data v) ;;;
    ret (with_capacity new_cap (with_data new_data_location v)).

Definition shrink_to_fit (v : fast_vector) : M heap fast_vector :=
  if negb (m_size v =? 0) && (m_size v <? m_capacity v) then
    if is_trivial then
      p <- realloc (m_data v) (wrap (sizeof_T * m_size v)) ;;
      assert (negb (is_null p)) ReallocationDone ;;;
      ret (with_data p v)
    else
      new_data_location <- malloc (wrap (sizeof_T * m_size v)) ;;
      assert (negb (is_null new_data_location)) AllocationDone ;;;
      copy_range (begin v) (end_ v) new_data_location ;;;
      destruct_range (begin v) (end_ v) ;;;
      free (m_data v) ;;;
      ret (with_data new_data_location v)
  else ret v.

(** *** Modifiers *)

Definition clear (v : fast_vector) : M heap fast_vector :=
  (if negb is_trivial then destruct_range (begin v) (end_ v) else ret tt) ;;;
  ret (with_size 0 v).

(** [push_back(const T&)] and [push_back(T&&)]: the two bodies differ only
    in [std::move], which leaves the value placed in the slot the same.
    [value] is the object the reference denotes, an object outside the
    buffer's own region. *)
Definition push_back (value : T) (v : fast_vector) : M heap fast_vector :=
  v <- (if m_size v =? m_capacity v
        then reserve (wrap (m_capacity v * grow_factor + 1)) v
        else ret v) ;;
  (if is_trivial then assign (ptr_add (m_data v) (m_size v)) value
   else construct (ptr_add (m_data v) (m_size v)) value) ;;;
  ret (with_size (wrap (m_size v + 1)) v).

(** [emplace_back(args...)]: [value] is the object [T(args...)] builds. *)
Definition emplace_back (value : T) (v : fast_vector) : M heap fast_vector :=
  if is_trivial then abort IllFormed   (* static_assert *)
  else
    v <- (if m_size v =? m_capacity v
          then reserve (wrap (m_capacity v * grow_factor + 1)) v
          else ret v) ;;
    construct (ptr_add (m_data v) (m_size v)) value ;;;
    ret (with_size (wrap (m_size v + 1)) v).

(** [append(values, count)]: [values] points to the caller's array.  The
    loop of the first branch runs [count] times, with [i] from 0. *)
Fixpoint append_loop (n : nat) (values : ptr) (i : Z) (v : fast_vector)
  : M heap fast_vector :=
  match n with
  | O => ret v
  | S k =>
      x <- load (ptr_add values i) ;;
      v <- push_back x v ;;
      append_loop k values (wrap (i + 1)) v
  end.

Definition append (values : ptr) (count : Z) (v : fast_vector)
  : M heap fast_vector :=
  if wrap (m_size v + count) >=? m_capacity v then
    append_loop (Z.to_nat count) values 0 v
  else
    (if is_trivial
     then memcpy (ptr_add (m_data v) (m_size v)) values (wrap (count * sizeof_T))
     else copy_range values (ptr_add values count)
                     (ptr_add (m_data v) (m_size v))) ;;;
    ret (with_size (wrap (m_size v + count)) v).

(** [erase(value)].  For a non-trivial [T] the body keeps, under
    [if constexpr], the call [copy_range(position, position + 1, count)]
    with the element count in the place of the destination pointer: the
    call does not type-check, so [erase] cannot be instantiated for such a
    [T] at all.  For a trivial [T] the branches for a non-trivial [T] are
    discarded: no destructor call, and the shift is the [std::memcpy]. *)
Definition erase (value : T) (v : fast_vector) : M heap fast_vector :=
  if negb is_trivial then abort IllFormed
  else
    position <- find_item (begin v) (end_ v) value ;;
    if ptr_lt position (end_ v) then
      (if ptr_lt position (ptr_add (end_ v) (-1)) then
         let count := wrap (off (end_ v) - off position - 1) in
         memcpy position (ptr_add position 1) (wrap (count * sizeof_T))
       else ret tt) ;;;
      ret (with_size (wrap (m_size v - 1)) v)
    else ret v.

Definition pop_back (v : fast_vector) : M heap fast_vector :=
  assert (m_size v >? 0) ContainerNotEmpty ;;;
  (if negb is_trivial
   then destroy (ptr_add (m_data v) (wrap (m_size v - 1)))
   else ret tt) ;;;
  ret (with_size (wrap (m_size v - 1)) v).

Definition resize (count : Z) (v : fast_vector) : M heap fast_vector :=
  if count =? m_size v then ret v
  else
    v <- (if count >? m_capacity v then reserve count v else ret v) ;;
    (if negb is_trivial then
       if count >? m_size v
       then construct_range (ptr_add (m_data v) (m_size v))
                            (ptr_add (m_data v) count)
       else if count <? m_size v
       then destruct_range (ptr_add (m_data v) count)
                           (ptr_add (m_data v) (m_size v))
       else ret tt
     else ret tt) ;;;
    ret (with_size count v).

(** Reading [begin()..end()] in order. *)
Fixpoint iterate_loop (n : nat) (p : ptr) : M heap (list T) :=
  match n with
  | O => ret []
  | S k =>
      x <- load p ;;
      xs <- iterate_loop k (ptr_add p 1) ;;
      ret (x :: xs)
  end.

Definition iterate (v : fast_vector) : M heap (list T) :=
  n <- distance (begin v) (end_ v) ;; iterate_loop n (begin v).

(** ** Operations on two objects

    The special member functions read one [fast_vector] through a reference
    while they write another; the two references may name the same object.
    Objects therefore live in a store and are named by their index. *)

Record world := World { objs : list fast_vector; mem : heap }.

Definition lift {A} (m : M heap A) : M world A := fun w =>
  match m (mem w) with
  | Done x h => Done x (World (objs w) h)
  | Thrown e h => Thrown e (World (objs w) h)
  | Abort f => Abort f
  end.

(** [o.f] as an rvalue. *)
Definition rd {A} (o : nat) (f : fast_vector -> A) : M world A := fun w =>
  match objs w !! o with
  | Some v => Done (f v) w
  | None => Abort (Undefined DanglingAccess)
  end.

(** [o.f = x], for the field updated by [upd]. *)
Definition wr {A} (o : nat) (upd : A -> fast_vector -> fast_vector) (x : A)
  : M world unit := fun w =>
  match objs w !! o with
  | Some v => Done tt (World (<[o := upd x v]> (objs w)) (mem w))
  | None => Abort (Undefined DanglingAccess)
  end.

(** Storage for a new object, with the default member initialisers. *)
Definition new_object : M world nat := fun w =>
  Done (length (objs w)) (World (objs w ++ [default_ctor]) (mem w)).

(** A member function of one object, run on the object [this] names. *)
Definition call {A} (this : nat) (f : fast_vector -> M heap (A * fast_vector))
  : M world A :=
  v <- rd this id ;;
  r <- lift (f v) ;;
  wr this (fun v' _ => v') r.2 ;;;
  ret r.1.

Definition update (this : nat) (f : fast_vector -> M heap fast_vector)
  : M world unit :=
  call this (fun v => v' <- f v ;; ret (tt, v')).

Definition query {A} (this : nat) (f : fast_vector -> M heap A) : M world A :=
  call this (fun v => x <- f v ;; ret (x, v)).

(** [fast_vector(const fast_vector& other)]. *)
Definition copy_ctor (other : nat) : M world nat :=
  this <- new_object ;;
  (s <- rd other m_size ;; wr this with_size s) ;;;
  (s <- rd other m_size ;; wr this with_capacity s) ;;;
  (s <- rd this m_size ;;
   p <- lift (malloc (wrap (sizeof_T * s))) ;;
   wr this with_data p) ;;;
  (if is_trivial then
     d <- rd this m_data ;;
     src <- rd other m_data ;;
     s <- rd this m_size ;;
     lift (memcpy d src (wrap (sizeof_T * s)))
   else
     b <- rd other begin ;;
     e <- rd other end_ ;;
     d <- rd this m_data ;;
     lift (copy_range b e d)) ;;;
  ret this.

(** [fast_vector(fast_vector&& other)]. *)
Definition move_ctor (other : nat) : M world nat :=
  this <- new_object ;;
  (p <- rd other m_data ;; wr this with_data p) ;;;
  (s <- rd other m_size ;; wr this with_size s) ;;;
  (c <- rd other m_capacity ;; wr this with_capacity c) ;;;
  wr other with_data nullptr ;;;
  ret this.

(** [operator=(const fast_vector& other)]. *)
Definition copy_assign (this other : nat) : M world unit :=
  (s <- rd other m_size ;; wr this with_size s) ;;;
  (s <- rd other m_size ;; wr this with_capacity s) ;;;
  (s <- rd this m_size ;;
   p <- lift (malloc (wrap (sizeof_T * s))) ;;
   wr this with_data p) ;;;
  (if is_trivial then
     d <- rd this m_data ;;
     src <- rd other m_data ;;
     s <- rd this m_size ;;
     lift (memcpy d src (wrap (sizeof_T * s)))
   else
     b <- rd other begin ;;
     e <- rd other end_ ;;
     d <- rd this m_data ;;
     lift (copy_range b e d)).

(** [operator=(fast_vector&& other)]. *)
Definition move_assign (this other : nat) : M world unit :=
  (p <- rd other m_data ;; wr this with_data p) ;;;
  (s <- rd other m_size ;; wr this with_size s) ;;;
  (s <- rd other m_size ;; wr this with_capacity s) ;;;
  wr other with_data nullptr.

(** [swap(a, b)]: three [std::swap]s of fields. *)
Definition swap_field {A} (a b : nat) (f : fast_vector -> A)
    (upd : A -> fast_vector -> fast_vector) : M world unit :=
  x <- rd a f ;;
  (y <- rd b f ;; wr a upd y) ;;;
  wr b upd x.

Definition swap (a b : nat) : M world unit :=
  swap_field a b m_data with_data ;;;
  swap_field a b m_size with_size ;;;
  swap_field a b m_capacity with_capacity.

(** [~fast_vector()] on the object [this] names. *)
Definition run_dtor (this : nat) : M world unit := query this dtor.

(** ** Representation invariant *)

(** Block [a] is allocated and holds [b]. *)
Definition live (h : heap) (a : addr) (b : block) : Prop :=
  blocks h !! a = Some (Some b).

(** The pointer to element [i] of block [a]. *)
Definition elem (a : addr) (i : nat) : ptr := Ptr (Some a) (Z.of_nat i).

(** The region [m_data] points to, and its slots [0, m_size). *)
Definition storage (v : fast_vector) (h : heap) : block :=
  match base (m_data v) with
  | Some a => match blocks h !! a with Some (Some b) => b | _ => [] end
  | None => []
  end.

Definition contents (v : fast_vector) (h : heap) : list (option T) :=
  take (Z.to_nat (m_size v)) (storage v h).

(** The data-model invariant: [0 <= size <= capacity], the region holds at
    least [capacity] slots and was granted by the allocator, and no region is
    needed when [capacity == 0]. *)
Record wf (h : heap) (v : fast_vector) : Prop := {
  wf_size : 0 <= m_size v <= m_capacity v;
  wf_limit : sizeof_T * m_capacity v <= heap_limit;
  wf_off : off (m_data v) = 0;
  wf_data :
    match base (m_data v) with
    | None => m_capacity v = 0
    | Some a => exists b, live h a b /\ m_capacity v <= Z.of_nat (length b)
    end
}.

(** [v] is a well-formed buffer whose live elements are [l], in order. *)
Definition holds (h : heap) (v : fast_vector) (l : list T) : Prop :=
  wf h v /\ contents v h = Some <$> l.

(** Blocks other than the one [p] points into are as they were. *)
Definition frame (p : ptr) (h h' : heap) : Prop :=
  forall a, base p <> Some a -> (a < length (blocks h))%nat ->
            blocks h' !! a = blocks h !! a.

(** An array of objects [l] starting at [p], outside the block of [q]. *)
Definition array_at (h : heap) (p : ptr) (l : list T) (q : ptr) : Prop :=
  exists a b (i : nat),
    p = elem a i /\ live h a b /\ base q <> Some a /\
    take (length l) (drop i b) = Some <$> l.

(** [push_back] of each value of a list, in order. *)
Fixpoint push_back_all (values : list T) (v : fast_vector)
  : M heap fast_vector :=
  match values with
  | [] => ret v
  | x :: rest => v <- push_back x v ;; push_back_all rest v
  end.

(** The run [m] never stops on the fault [f]. *)
Definition never {S A} (f : fault) (m : M S A) : Prop :=
  forall s, m s <> Abort f.

(** The failure of the precondition check of [reserve]. *)
Definition reserve_violation : fault := AssertionFailed CapacityGrows.

(** The destructors of two objects, one after the other. *)
Definition destroy_both (first second : nat) : M world unit :=
  run_dtor first ;;; run_dtor second.

(** What a move leaves in its source: no region, and [size()] as before. *)
Definition moved_from (before after : fast_vector) : Prop :=
  data after = nullptr /\ size after = size before.

(** Object [this] of [w'] is a copy of [vo], the value of object [other],
    which holds [l]: same elements in a region of its own, [size()] and
    [capacity()] both equal to the source's [size()], and the source as it
    was. *)
Definition copy_of (w' : world) (this other : nat) (vo : fast_vector)
    (l : list T) : Prop :=
  exists v',
    objs w' !! this = Some v' /\
    size v' = size vo /\
    capacity v' = size vo /\
    iterate v' (mem w') = Done l (mem w') /\
    base (data v') <> base (data vo) /\
    objs w' !! other = Some vo /\
    iterate vo (mem w') = Done l (mem w').

(** The allocator grants nothing larger than [PTRDIFF_MAX] bytes, and an
    object occupies at least one byte. *)
Hypothesis sizeof_pos : 0 < sizeof_T.
Hypothesis limit_bound : 0 <= heap_limit <= PTRDIFF_MAX.

(** ** Machine integers *)

Lemma wrap_small (x : Z) : 0 <= x < SIZE_MOD -> wrap x = x.
Proof. intros Hx. unfold wrap. now apply Z.mod_small. Qed.

Lemma limit_small (n : Z) : 0 <= n -> sizeof_T * n <= heap_limit -> n < SIZE_MOD / 2.
Proof.
  intros Hn Hb. unfold PTRDIFF_MAX in limit_bound.
  change (SIZE_MOD / 2) with 9223372036854775808. nia.
Qed.

Lemma wrap_bytes (n : Z) :
  0 <= n -> sizeof_T * n <= heap_limit -> wrap (sizeof_T * n) = sizeof_T * n.
Proof.
  intros Hn Hb. apply wrap_small. unfold PTRDIFF_MAX in limit_bound.
  unfold SIZE_MOD. nia.
Qed.

Lemma slots_bytes (n : Z) : 0 <= n -> slots (sizeof_T * n) = Z.to_nat n.
Proof.
  intros Hn. unfold slots. f_equal.
  rewrite Z.mul_comm. apply Z.div_mul. lia.
Qed.

(** ** The monad *)

Lemma bind_done {S A B} (m : M S A) (k : A -> M S B) s x s' :
  m s = Done x s' -> bind m k s = k x s'.
Proof. intros Hm. unfold bind. now rewrite Hm. Qed.

Lemma bind_inv {S A B} (m : M S A) (k : A -> M S B) s y s'' :
  bind m k s = Done y s'' -> exists x s', m s = Done x s' /\ k x s' = Done y s''.
Proof.
  unfold bind. destruct (m s) as [x s'| |]; try discriminate. eauto.
Qed.

(** ** Blocks and slots *)

Lemma set_block_live_eq h a b b0 :
  live h a b0 -> live (set_block a (Some b) h) a b.
Proof.
  unfold live, set_block. simpl. intros Hl.
  apply list_lookup_insert_eq. eapply lookup_lt_Some. exact Hl.
Qed.

Lemma set_block_live_ne h a a' x b :
  a <> a' -> live h a' b -> live (set_block a x h) a' b.
Proof.
  unfold live, set_block. simpl. intros Hne Hl.
  now rewrite list_lookup_insert_ne.
Qed.

Lemma set_block_id h a b : live h a b -> set_block a (Some b) h = h.
Proof.
  unfold live, set_block. intros Hl. destruct h as [bs ds]. simpl in *.
  f_equal. now apply list_insert_id.
Qed.

Lemma set_block_twice h a x y :
  set_block a y (set_block a x h) = set_block a y h.
Proof.
  unfold set_block. simpl. f_equal. apply list_insert_insert_eq.
Qed.

Lemma elem_next a i : ptr_add (elem a i) 1 = elem a (S i).
Proof. unfold ptr_add, elem. simpl. f_equal. lia. Qed.

Lemma elem_add a i (n : nat) : ptr_add (elem a i) (Z.of_nat n) = elem a (i + n).
Proof. unfold ptr_add, elem. simpl. f_equal. lia. Qed.

Lemma block_of_elem h a i b : live h a b -> block_of (elem a i) h = Done (a, b) h.
Proof. unfold block_of, live, elem. simpl. now intros ->. Qed.

Lemma in_bounds_elem a i (b : block) :
  (i < length b)%nat -> in_bounds (elem a i) b = true.
Proof.
  intros Hi. unfold in_bounds, elem. simpl.
  apply andb_true_iff. split; [apply Z.leb_le | apply Z.ltb_lt]; lia.
Qed.

Lemma peek_elem h a i b s :
  live h a b -> b !! i = Some s -> peek (elem a i) h = Done s h.
Proof.
  intros Hl Hs. unfold peek.
  rewrite (bind_done _ _ _ _ _ (block_of_elem h a i b Hl)). simpl.
  rewrite in_bounds_elem by (eapply lookup_lt_Some; exact Hs).
  rewrite Nat2Z.id, Hs. reflexivity.
Qed.

Lemma poke_elem h a i b s :
  live h a b -> (i < length b)%nat ->
  poke (elem a i) s h = Done tt (set_block a (Some (<[i := s]> b)) h).
Proof.
  intros Hl Hi. unfold poke.
  rewrite (bind_done _ _ _ _ _ (block_of_elem h a i b Hl)). simpl.
  rewrite in_bounds_elem by exact Hi.
  now rewrite Nat2Z.id.
Qed.

Lemma load_elem h a i b x :
  live h a b -> b !! i = Some (Some x) -> load (elem a i) h = Done x h.
Proof.
  intros Hl Hs. unfold load.
  now rewrite (bind_done _ _ _ _ _ (peek_elem h a i b _ Hl Hs)).
Qed.

Lemma destroy_elem h a i b x :
  live h a b -> b !! i = Some (Some x) ->
  destroy (elem a i) h =
  Done tt (Heap (<[a := Some (<[i := None]> b)]> (blocks h)) (destroyed h ++ [x])).
Proof.
  intros Hl Hs. unfold destroy.
  rewrite (bind_done _ _ _ _ _ (load_elem h a i b x Hl Hs)).
  rewrite (bind_done _ _ _ _ _ (poke_elem h a i b None Hl (lookup_lt_Some _ _ _ Hs))).
  reflexivity.
Qed.

(** Slots [i, i + n) of a block read as the objects [xs]. *)
Lemma slots_cons (b : block) i x (xs : list T) :
  take (S (length xs)) (drop i b) = Some <$> (x :: xs) ->
  b !! i = Some (Some x) /\
  take (length xs) (drop (S i) b) = Some <$> xs.
Proof.
  intros Hs. destruct (drop i b) as [|s r] eqn:Hd; [discriminate|].
  simpl in Hs. injection Hs as -> Hr.
  assert (Hi : b !! i = Some (Some x)).
  { pose proof (lookup_drop b i 0) as H0. rewrite Hd, Nat.add_0_r in H0.
    symmetry. exact H0. }
  split; [exact Hi|].
  rewrite (drop_S _ _ _ Hi) in Hd. injection Hd as <-. exact Hr.
Qed.

Lemma splice_step (b : block) i s (ss : list (option T)) n :
  (i < length b)%nat ->
  take (S i) (<[i := s]> b) ++ ss ++ drop (S i + n) (<[i := s]> b) =
  take i b ++ (s :: ss) ++ drop (i + S n) b.
Proof.
  intros Hi.
  rewrite (take_S_r _ _ s) by now apply list_lookup_insert_eq.
  rewrite take_insert_ge by lia.
  rewrite drop_insert_lt by lia.
  rewrite <- app_assoc. simpl. repeat f_equal. lia.
Qed.

Lemma raw_slots_cons (b : block) i s (ss : list (option T)) :
  take (S (length ss)) (drop i b) = s :: ss ->
  b !! i = Some s /\ take (length ss) (drop (S i) b) = ss.
Proof.
  intros Hs. destruct (drop i b) as [|s' r] eqn:Hd; [discriminate|].
  simpl in Hs. injection Hs as -> Hr.
  assert (Hi : b !! i = Some s).
  { pose proof (lookup_drop b i 0) as H0. rewrite Hd, Nat.add_0_r in H0.
    symmetry. exact H0. }
  split; [exact Hi|].
  rewrite (drop_S _ _ _ Hi) in Hd. injection Hd as <-. exact Hr.
Qed.

(** ** The loops *)

Lemma memcpy_loop_spec (ss : list (option T)) : forall h a b i d bd j,
  live h a b -> live h d bd -> a <> d ->
  take (length ss) (drop i b) = ss ->
  (j + length ss <= length bd)%nat ->
  memcpy_loop (length ss) (elem d j) (elem a i) h =
  Done tt (set_block d (Some (take j bd ++ ss ++ drop (j + length ss) bd)) h).
Proof.
  induction ss as [|s ss IH]; intros h a b i d bd j Ha Hd Hne Hs Hj.
  - simpl. rewrite Nat.add_0_r, take_drop, set_block_id by exact Hd. reflexivity.
  - simpl length in *. destruct (raw_slots_cons _ _ _ _ Hs) as [Hi Hr].
    simpl memcpy_loop.
    rewrite (bind_done _ _ _ _ _ (peek_elem h a i b s Ha Hi)).
    rewrite (bind_done _ _ _ _ _ (poke_elem h d j bd s Hd ltac:(lia))).
    rewrite !elem_next.
    rewrite (IH _ a b (S i) d (<[j := s]> bd) (S j)); try assumption.
    + rewrite set_block_twice. do 2 f_equal. f_equal. apply splice_step. lia.
    + apply set_block_live_ne; [congruence | exact Ha].
    + eapply set_block_live_eq. exact Hd.
    + rewrite length_insert. lia.
Qed.

Lemma copy_range_loop_spec (xs : list T) : forall h a b i d bd j,
  live h a b -> live h d bd -> a <> d ->
  take (length xs) (drop i b) = Some <$> xs ->
  (j + length xs <= length bd)%nat ->
  copy_range_loop (length xs) (elem a i) (elem d j) h =
  Done tt (set_block d (Some (take j bd ++ (Some <$> xs)
                              ++ drop (j + length xs) bd)) h).
Proof.
  induction xs as [|x xs IH]; intros h a b i d bd j Ha Hd Hne Hs Hj.
  - simpl. rewrite Nat.add_0_r, take_drop, set_block_id by exact Hd. reflexivity.
  - simpl length in *. destruct (slots_cons _ _ _ _ Hs) as [Hi Hr].
    simpl copy_range_loop.
    rewrite (bind_done _ _ _ _ _ (load_elem h a i b x Ha Hi)).
    unfold construct.
    rewrite (bind_done _ _ _ _ _ (poke_elem h d j bd (Some x) Hd ltac:(lia))).
    rewrite !elem_next.
    rewrite (IH _ a b (S i) d (<[j := Some x]> bd) (S j)); try assumption.
    + rewrite set_block_twice. do 2 f_equal. f_equal.
      change (Some <$> x :: xs) with (Some x :: (Some <$> xs)).
      apply splice_step. lia.
    + apply set_block_live_ne; [congruence | exact Ha].
    + eapply set_block_live_eq. exact Hd.
    + rewrite length_insert. lia.
Qed.

(** Between different blocks [memcpy] is the element copy. *)
Lemma memcpy_apart dest src bytes :
  base dest <> base src ->
  memcpy dest src bytes = memcpy_loop (slots bytes) dest src.
Proof.
  intros Hne. unfold memcpy, overlaps.
  now rewrite bool_decide_false by exact Hne.
Qed.

(** The element copy onto the slot just below the source; [erase] reaches
    it only for a single element, where the two ranges are disjoint. *)
Lemma memcpy_loop_shift (n : nat) : forall h a (b : block) i,
  live h a b -> (S i + n <= length b)%nat ->
  memcpy_loop n (elem a i) (elem a (S i)) h =
  Done tt (set_block a (Some (take i b ++ take n (drop (S i) b)
                              ++ drop (i + n) b)) h).
Proof.
  induction n as [|n IH]; intros h a b i Ha Hn.
  - cbn [memcpy_loop]. rewrite Nat.add_0_r, take_0. cbn [app].
    rewrite take_drop, set_block_id by exact Ha. reflexivity.
  - destruct (lookup_lt_is_Some_2 b (S i) ltac:(lia)) as [s Hs].
    simpl memcpy_loop.
    rewrite (bind_done _ _ _ _ _ (peek_elem h a (S i) b s Ha Hs)).
    rewrite (bind_done _ _ _ _ _ (poke_elem h a i b s Ha ltac:(lia))).
    rewrite !elem_next.
    rewrite (IH _ a (<[i := s]> b) (S i)).
    + rewrite set_block_twice. do 2 f_equal. f_equal.
      rewrite (drop_insert_lt _ (S (S i))) by lia.
      rewrite (drop_S b s (S i) Hs). simpl take.
      apply splice_step. lia.
    + eapply set_block_live_eq. exact Ha.
    + rewrite length_insert. lia.
Qed.

Lemma construct_range_loop_spec (n : nat) : forall h a (b : block) i,
  live h a b -> (i + n <= length b)%nat ->
  construct_range_loop n (elem a i) h =
  Done tt (set_block a (Some (take i b ++ replicate n (Some default_T)
                              ++ drop (i + n) b)) h).
Proof.
  induction n as [|n IH]; intros h a b i Ha Hn.
  - simpl. rewrite Nat.add_0_r, take_drop, set_block_id by exact Ha. reflexivity.
  - simpl construct_range_loop. unfold construct.
    rewrite (bind_done _ _ _ _ _ (poke_elem h a i b _ Ha ltac:(lia))).
    rewrite elem_next.
    rewrite (IH _ a (<[i := Some default_T]> b) (S i)).
    + rewrite set_block_twice. do 2 f_equal. f_equal.
      simpl replicate. apply splice_step. lia.
    + eapply set_block_live_eq. exact Ha.
    + rewrite length_insert. lia.
Qed.

Lemma destruct_range_loop_spec (xs : list T) : forall h a (b : block) i,
  live h a b ->
  take (length xs) (drop i b) = Some <$> xs ->
  destruct_range_loop (length xs) (elem a i) h =
  Done tt (Heap (<[a := Some (take i b ++ replicate (length xs) None
                              ++ drop (i + length xs) b)]> (blocks h))
                (destroyed h ++ xs)).
Proof.
  induction xs as [|x xs IH]; intros h a b i Ha Hs.
  - simpl. rewrite Nat.add_0_r, take_drop, app_nil_r.
    fold (set_block a (Some b) h). rewrite set_block_id by exact Ha.
    reflexivity.
  - simpl length in *. destruct (slots_cons _ _ _ _ Hs) as [Hi Hr].
    pose proof (lookup_lt_Some _ _ _ Hi) as Hlt.
    simpl destruct_range_loop.
    rewrite (bind_done _ _ _ _ _ (destroy_elem h a i b x Ha Hi)).
    rewrite elem_next.
    rewrite (IH _ a (<[i := None]> b) (S i)).
    + simpl. rewrite list_insert_insert_eq, <- app_assoc. do 2 f_equal.
      do 2 f_equal. apply (splice_step b i None (replicate (length xs) None)).
      exact Hlt.
    + unfold live. simpl. apply list_lookup_insert_eq.
      eapply lookup_lt_Some. exact Ha.
    + rewrite drop_insert_lt by lia. exact Hr.
Qed.

Lemma iterate_loop_spec (xs : list T) : forall h a (b : block) i,
  live h a b ->
  take (length xs) (drop i b) = Some <$> xs ->
  iterate_loop (length xs) (elem a i) h = Done xs h.
Proof.
  induction xs as [|x xs IH]; intros h a b i Ha Hs; [reflexivity|].
  simpl length in *. destruct (slots_cons _ _ _ _ Hs) as [Hi Hr].
  simpl iterate_loop.
  rewrite (bind_done _ _ _ _ _ (load_elem h a i b x Ha Hi)).
  rewrite elem_next.
  rewrite (bind_done _ _ _ _ _ (IH h a b (S i) Ha Hr)).
  reflexivity.
Qed.

Lemma find_item_loop_found (l1 : list T) : forall h a (b : block) i e x l2,
  live h a b ->
  take (length (l1 ++ x :: l2)) (drop i b) = Some <$> (l1 ++ x :: l2) ->
  x ∉ l1 ->
  find_item_loop (length (l1 ++ x :: l2)) (elem a i) e x h =
  Done (elem a (i + length l1)) h.
Proof.
  induction l1 as [|y l1 IH]; intros h a b i e x l2 Ha Hs Hx.
  - simpl app in *. simpl length in *.
    destruct (slots_cons _ _ _ _ Hs) as [Hi Hr].
    simpl find_item_loop.
    rewrite (bind_done _ _ _ _ _ (load_elem h a i b x Ha Hi)).
    rewrite bool_decide_true by reflexivity.
    rewrite Nat.add_0_r. reflexivity.
  - simpl app in *. simpl length in *.
    destruct (slots_cons _ _ _ _ Hs) as [Hi Hr].
    simpl find_item_loop.
    rewrite (bind_done _ _ _ _ _ (load_elem h a i b y Ha Hi)).
    rewrite bool_decide_false by (intros ->; apply Hx; left).
    rewrite elem_next.
    rewrite (IH h a b (S i) e x l2 Ha Hr).
    + f_equal. f_equal. lia.
    + intros Hin. apply Hx. now right.
Qed.

Lemma find_item_loop_missing (l : list T) : forall h a (b : block) i e x,
  live h a b ->
  take (length l) (drop i b) = Some <$> l ->
  x ∉ l ->
  find_item_loop (length l) (elem a i) e x h = Done e h.
Proof.
  induction l as [|y l IH]; intros h a b i e x Ha Hs Hx; [reflexivity|].
  simpl length in *. destruct (slots_cons _ _ _ _ Hs) as [Hi Hr].
  simpl find_item_loop.
  rewrite (bind_done _ _ _ _ _ (load_elem h a i b y Ha Hi)).
  rewrite bool_decide_false by (intros ->; apply Hx; left).
  rewrite elem_next.
  apply (IH h a b (S i) e x Ha Hr).
  intros Hin. apply Hx. now right.
Qed.

(** ** The allocator *)

Lemma malloc_ok h bytes :
  bytes <= heap_limit ->
  malloc bytes h =
  Done (elem (length (blocks h)) 0)
       (Heap (blocks h ++ [Some (replicate (slots bytes) None)]) (destroyed h)).
Proof.
  intros Hb. unfold malloc.
  destruct (Z.leb_spec bytes heap_limit); [reflexivity | lia].
Qed.

Lemma realloc_ok h a (b : block) bytes :
  live h a b -> bytes <= heap_limit ->
  realloc (elem a 0) bytes h =
  Done (elem (length (blocks h)) 0)
       (Heap (<[a := None]> (blocks h) ++ [Some (resized (slots bytes) b)])
             (destroyed h)).
Proof.
  intros Ha Hb. unfold realloc. change (is_null (elem a 0)) with false. cbv iota.
  rewrite (bind_done _ _ _ _ _ (block_of_elem h a 0 b Ha)). simpl.
  destruct (Z.leb_spec bytes heap_limit); [reflexivity | lia].
Qed.

Lemma free_ok h a (b : block) :
  live h a b -> free (elem a 0) h = Done tt (set_block a None h).
Proof. unfold free, live. simpl. now intros ->. Qed.

Lemma live_new (bs : list (option block)) ds (b : block) :
  live (Heap (bs ++ [Some b]) ds) (length bs) b.
Proof.
  unfold live. simpl. rewrite lookup_app_r by lia.
  now rewrite Nat.sub_diag.
Qed.

Lemma live_old (bs : list (option block)) ds x a (b : block) :
  live (Heap bs ds) a b -> live (Heap (bs ++ [x]) ds) a b.
Proof.
  unfold live. simpl. intros Ha.
  rewrite lookup_app_l; [exact Ha | eapply lookup_lt_Some; exact Ha].
Qed.

Lemma live_lt h a (b : block) : live h a b -> (a < length (blocks h))%nat.
Proof. unfold live. apply lookup_lt_Some. Qed.

Lemma distance_elem {S} a i j (s : S) :
  (i <= j)%nat -> distance (elem a i) (elem a j) s = Done (j - i)%nat s.
Proof.
  intros Hij. unfold distance, elem. simpl.
  rewrite bool_decide_true by reflexivity. simpl.
  destruct (Z.leb_spec (Z.of_nat i) (Z.of_nat j)); [|lia].
  do 2 f_equal. lia.
Qed.

(** ** Canonical forms of a well-formed buffer *)

Lemma holds_size h v l : holds h v l -> m_size v = Z.of_nat (length l).
Proof.
  intros [[Hs Hl Ho Hd] Hc]. unfold contents, storage in Hc.
  apply (f_equal length) in Hc. rewrite length_fmap, length_take in Hc.
  destruct (base (m_data v)) as [a|].
  - destruct Hd as (b & Hb & Hcap). unfold live in Hb. rewrite Hb in Hc. lia.
  - simpl in Hc. lia.
Qed.

Lemma holds_inv h v l :
  holds h v l ->
  (v = FV nullptr 0 0 /\ l = []) \/
  (exists a (b : block),
     v = FV (elem a 0) (Z.of_nat (length l)) (m_capacity v) /\
     live h a b /\ m_capacity v <= Z.of_nat (length b) /\
     take (length l) b = Some <$> l).
Proof.
  intros Hh. pose proof (holds_size _ _ _ Hh) as Hsz.
  destruct Hh as [[Hs Hl Ho Hd] Hc].
  destruct v as [[ba o] sz cap]. simpl in *. subst o sz.
  destruct ba as [a|].
  - right. destruct Hd as (b & Hb & Hcap). exists a, b.
    repeat split; try assumption.
    unfold contents, storage in Hc. simpl in Hc. unfold live in Hb.
    rewrite Hb, Nat2Z.id in Hc. exact Hc.
  - left. subst cap. assert (length l = 0%nat) as Hl0 by lia.
    destruct l; [|discriminate]. split; reflexivity.
Qed.

Lemma holds_intro h a (b : block) l cap :
  live h a b -> Z.of_nat (length l) <= cap -> cap <= Z.of_nat (length b) ->
  sizeof_T * cap <= heap_limit ->
  take (length l) b = Some <$> l ->
  holds h (FV (elem a 0) (Z.of_nat (length l)) cap) l.
Proof.
  intros Ha Hl Hcap Hlim Hs. split.
  - split; simpl; [lia | exact Hlim | reflexivity | eauto].
  - unfold contents, storage. simpl. unfold live in Ha.
    now rewrite Ha, Nat2Z.id.
Qed.

Lemma holds_default h : holds h default_ctor [].
Proof.
  split; [split; simpl; lia | reflexivity].
Qed.

Lemma assert_true {S} (c : bool) a (s : S) : c = true -> assert c a s = Done tt s.
Proof. now intros ->. Qed.

Lemma end_elem a n cap : end_ (FV (elem a 0) (Z.of_nat n) cap) = elem a n.
Proof. reflexivity. Qed.

(** ** The helper functions on ranges *)

Lemma copy_range_spec (xs : list T) h a (b : block) i d (bd : block) j :
  live h a b -> live h d bd -> a <> d ->
  take (length xs) (drop i b) = Some <$> xs ->
  (j + length xs <= length bd)%nat ->
  copy_range (elem a i) (elem a (i + length xs)) (elem d j) h =
  Done tt (set_block d (Some (take j bd ++ (Some <$> xs)
                              ++ drop (j + length xs) bd)) h).
Proof.
  intros Ha Hd Hne Hs Hj. unfold copy_range.
  rewrite (bind_done _ _ _ _ _ (distance_elem a i (i + length xs) h ltac:(lia))).
  replace (i + length xs - i)%nat with (length xs) by lia.
  now apply copy_range_loop_spec with (b := b).
Qed.

Lemma destruct_range_spec (xs : list T) h a (b : block) i :
  live h a b ->
  take (length xs) (drop i b) = Some <$> xs ->
  destruct_range (elem a i) (elem a (i + length xs)) h =
  Done tt (Heap (<[a := Some (take i b ++ replicate (length xs) None
                              ++ drop (i + length xs) b)]> (blocks h))
                (destroyed h ++ xs)).
Proof.
  intros Ha Hs. unfold destruct_range.
  rewrite (bind_done _ _ _ _ _ (distance_elem a i (i + length xs) h ltac:(lia))).
  replace (i + length xs - i)%nat with (length xs) by lia.
  now apply destruct_range_loop_spec.
Qed.

Lemma construct_range_spec (n : nat) h a (b : block) i :
  live h a b -> (i + n <= length b)%nat ->
  construct_range (elem a i) (elem a (i + n)) h =
  Done tt (set_block a (Some (take i b ++ replicate n (Some default_T)
                              ++ drop (i + n) b)) h).
Proof.
  intros Ha Hn. unfold construct_range.
  rewrite (bind_done _ _ _ _ _ (distance_elem a i (i + n) h ltac:(lia))).
  replace (i + n - i)%nat with n by lia.
  now apply construct_range_loop_spec.
Qed.

Lemma find_item_found (l1 l2 : list T) x h a (b : block) :
  live h a b ->
  take (length (l1 ++ x :: l2)) b = Some <$> (l1 ++ x :: l2) ->
  x ∉ l1 ->
  find_item (elem a 0) (elem a (length (l1 ++ x :: l2))) x h =
  Done (elem a (length l1)) h.
Proof.
  intros Ha Hs Hx. unfold find_item.
  rewrite (bind_done _ _ _ _ _ (distance_elem a 0 _ h ltac:(lia))).
  rewrite Nat.sub_0_r.
  now rewrite (find_item_loop_found l1 h a b 0 _ x l2 Ha Hs Hx).
Qed.

Lemma find_item_missing (l : list T) x h a (b : block) :
  live h a b ->
  take (length l) b = Some <$> l ->
  x ∉ l ->
  find_item (elem a 0) (elem a (length l)) x h = Done (elem a (length l)) h.
Proof.
  intros Ha Hs Hx. unfold find_item.
  rewrite (bind_done _ _ _ _ _ (distance_elem a 0 _ h ltac:(lia))).
  rewrite Nat.sub_0_r.
  now apply find_item_loop_missing with (b := b).
Qed.

(** Iterating a well-formed buffer reads its elements and changes nothing. *)
Lemma iterate_holds h v l : holds h v l -> iterate v h = Done l h.
Proof.
  intros Hh.
  destruct (holds_inv _ _ _ Hh) as [[-> ->] | (a & b & -> & Ha & Hcap & Hs)].
  - reflexivity.
  - unfold iterate, begin. rewrite end_elem. simpl m_data.
    rewrite (bind_done _ _ _ _ _ (distance_elem a 0 _ h ltac:(lia))).
    rewrite Nat.sub_0_r.
    now apply iterate_loop_spec with (b := b).
Qed.
(** ** reserve *)

Lemma frame_new p (bs : list (option block)) ds x ds' :
  frame p (Heap bs ds) (Heap (bs ++ [x]) ds').
Proof. intros a _ Ha. simpl in *. now rewrite lookup_app_l. Qed.

Lemma frame_own a o (bs : list (option block)) ds x y ds' :
  frame (Ptr (Some a) o) (Heap bs ds) (Heap (<[a := x]> bs ++ [y]) ds').
Proof.
  intros a' Hne Ha. simpl in *.
  rewrite lookup_app_l by now rewrite length_insert.
  apply list_lookup_insert_ne. congruence.
Qed.

Lemma reserve_run h v l n :
  holds h v l -> m_capacity v < n -> sizeof_T * n <= heap_limit ->
  exists h' (b' : block),
    reserve n v h = Done (FV (elem (length (blocks h)) 0) (m_size v) n) h' /\
    live h' (length (blocks h)) b' /\
    length b' = Z.to_nat n /\
    take (length l) b' = Some <$> l /\
    length (blocks h') = S (length (blocks h)) /\
    frame (m_data v) h h' /\
    destroyed h' = destroyed h ++ (if is_trivial then [] else l) /\
    (forall a, base (m_data v) = Some a -> blocks h' !! a = Some None).
Proof.
  intros Hh Hn Hlim.
  pose proof (holds_size _ _ _ Hh) as Hsz.
  pose proof (wf_size _ _ (proj1 Hh)) as Hsc.
  assert (0 <= n) as Hn0 by lia.
  unfold reserve.
  assert ((n >? m_capacity v) = true) as Hgt by (apply Z.gtb_lt; lia).
  rewrite (bind_done _ _ _ _ _ (assert_true _ CapacityGrows h Hgt)).
  rewrite (wrap_bytes n Hn0 Hlim).
  destruct h as [bs ds].
  destruct (holds_inv _ _ _ Hh) as [[-> ->] | (a & b & Hv & Ha & Hcap & Hs)].
  - (* nothing allocated yet *)
    destruct is_trivial.
    + unfold realloc. simpl is_null. cbv iota.
      rewrite (bind_done _ _ _ _ _ (malloc_ok _ _ Hlim)).
      rewrite bind_done with (x := tt) (s' := Heap (bs ++ [Some (replicate (slots (sizeof_T * n)) None)]) ds)
        by reflexivity.
      eexists _, _. split; [reflexivity|].
      rewrite slots_bytes by exact Hn0.
      split; [apply live_new|]. split; [apply length_replicate|].
      split; [reflexivity|]. split; [simpl; rewrite length_app; simpl; lia|].
      split; [apply frame_new|]. split; [simpl; now rewrite app_nil_r|].
      intros a' Hb. discriminate.
    + rewrite (bind_done _ _ _ _ _ (malloc_ok _ _ Hlim)).
      rewrite bind_done with (x := tt) (s' := Heap (bs ++ [Some (replicate (slots (sizeof_T * n)) None)]) ds)
        by reflexivity.
      eexists _, _. split; [reflexivity|].
      rewrite slots_bytes by exact Hn0.
      split; [apply live_new|]. split; [apply length_replicate|].
      split; [reflexivity|]. split; [simpl; rewrite length_app; simpl; lia|].
      split; [apply frame_new|]. split; [simpl; now rewrite app_nil_r|].
      intros a' Hb. discriminate.
  - rewrite Hv in *. simpl in Hsc, Hn, Hsz, Hcap |- *. clear Hv.
    set (cap := m_capacity v) in *.
    pose proof (live_lt _ _ _ Ha) as Hlt. simpl in Hlt.
    destruct is_trivial.
    + rewrite (bind_done _ _ _ _ _ (realloc_ok _ _ _ _ Ha Hlim)).
      rewrite bind_done with (x := tt)
        (s' := Heap (<[a := None]> bs ++ [Some (resized (slots (sizeof_T * n)) b)]) ds)
        by reflexivity.
      eexists _, _. split; [reflexivity|].
      rewrite slots_bytes by exact Hn0. simpl blocks.
      split; [rewrite <- (length_insert bs a None) at 1; apply live_new|].
      unfold resized.
      split; [rewrite length_app, length_take, length_replicate; clear; lia|].
      split.
      { rewrite take_app_le by (rewrite length_take; lia).
        rewrite take_take. rewrite Nat.min_l by lia. exact Hs. }
      split; [rewrite length_app, length_insert; simpl; lia|].
      split; [apply frame_own|]. split; [simpl; now rewrite app_nil_r|].
      intros a' [= <-]. simpl.
      rewrite lookup_app_l by (rewrite length_insert; lia).
      apply list_lookup_insert_eq. lia.
    + rewrite (bind_done _ _ _ _ _ (malloc_ok _ _ Hlim)).
      rewrite slots_bytes by exact Hn0. simpl blocks. simpl destroyed.
      set (N := length bs).
      set (h1 := Heap (bs ++ [Some (replicate (Z.to_nat n) None)]) ds).
      rewrite bind_done with (x := tt) (s' := h1) by reflexivity.
      assert (live h1 a b) as Ha1 by now apply live_old.
      assert (live h1 N (replicate (Z.to_nat n) None)) as HN1 by apply live_new.
      unfold begin. rewrite end_elem. simpl m_data.
      rewrite (bind_done _ _ _ _ _
                 (copy_range_spec l h1 a b 0 N _ 0 Ha1 HN1 ltac:(lia) Hs
                    ltac:(rewrite length_replicate; lia))).
      set (b' := take 0 (replicate (Z.to_nat n) None) ++ (Some <$> l)
                 ++ drop (0 + length l) (replicate (Z.to_nat n) None)).
      set (h2 := set_block N (Some b') h1).
      assert (live h2 a b) as Ha2
        by (apply set_block_live_ne; [lia | exact Ha1]).
      rewrite (bind_done _ _ _ _ _ (destruct_range_spec l h2 a b 0 Ha2 Hs)).
      match goal with |- context [bind (free _) _ ?s] => set (h3 := s) end.
      assert (exists b3, live h3 a b3) as [b3 Ha3].
      { eexists. unfold h3, live. simpl. apply list_lookup_insert_eq.
        rewrite length_insert, length_app. simpl. lia. }
      rewrite (bind_done _ _ _ _ _ (free_ok h3 a b3 Ha3)).
      eexists _, b'. split; [reflexivity|].
      split.
      { unfold live, h3. simpl.
        rewrite !list_lookup_insert_ne by lia.
        apply list_lookup_insert_eq. rewrite length_app. simpl. lia. }
      split.
      { unfold b'. simpl. rewrite length_app, length_fmap, length_drop, length_replicate. lia. }
      split.
      { unfold b'. simpl. rewrite <- (length_fmap Some l). apply take_app_length. }
      split.
      { unfold h3. simpl. rewrite !length_insert, length_app. simpl. lia. }
      split.
      { intros a' Hne Ha'. unfold h3. simpl in *.
        rewrite list_lookup_insert_ne by congruence.
        rewrite list_lookup_insert_ne by congruence.
        rewrite list_lookup_insert_ne by lia.
        now rewrite lookup_app_l. }
      split; [reflexivity|].
      intros a' [= <-]. unfold h3. simpl.
      apply list_lookup_insert_eq.
      rewrite !length_insert, length_app. simpl. lia.
Qed.

Lemma reserve_spec h v l n :
  holds h v l -> m_capacity v < n -> sizeof_T * n <= heap_limit ->
  exists h' (b' : block),
    reserve n v h = Done (FV (elem (length (blocks h)) 0) (m_size v) n) h' /\
    live h' (length (blocks h)) b' /\
    length b' = Z.to_nat n /\
    take (length l) b' = Some <$> l /\
    length (blocks h') = S (length (blocks h)) /\
    frame (m_data v) h h' /\
    destroyed h' = destroyed h ++ (if is_trivial then [] else l).
Proof.
  intros Hh Hn Hlim.
  destruct (reserve_run h v l n Hh Hn Hlim)
    as (h' & b' & H1 & H2 & H3 & H4 & H5 & H6 & H7 & _).
  exists h', b'.
  split; [exact H1|]. split; [exact H2|]. split; [exact H3|].
  split; [exact H4|]. split; [exact H5|]. split; [exact H6 | exact H7].
Qed.

(** ** push_back *)

Lemma take_snoc_insert (b : block) (l : list T) x :
  take (length l) b = Some <$> l -> (length l < length b)%nat ->
  take (length (l ++ [x])) (<[length l := Some x]> b) = Some <$> (l ++ [x]).
Proof.
  intros Hs Hlt. rewrite length_app. simpl length.
  replace (length l + 1)%nat with (S (length l)) by lia.
  rewrite (take_S_r _ _ (Some x)) by now apply list_lookup_insert_eq.
  rewrite take_insert_ge by lia. rewrite Hs, fmap_app. reflexivity.
Qed.

Lemma grow_no_wrap (c : Z) :
  0 <= c -> sizeof_T * c <= heap_limit ->
  wrap (c * grow_factor + 1) = 2 * c + 1.
Proof.
  intros Hc Hlim. pose proof (limit_small c Hc Hlim) as Hb.
  change (SIZE_MOD / 2) with 9223372036854775808 in Hb.
  unfold grow_factor. rewrite wrap_small; unfold SIZE_MOD; lia.
Qed.

Lemma size_no_wrap (n c d : Z) :
  0 <= n + d <= c -> sizeof_T * c <= heap_limit -> wrap (n + d) = n + d.
Proof.
  intros Hn Hlim. pose proof (limit_small c ltac:(lia) Hlim) as Hb.
  change (SIZE_MOD / 2) with 9223372036854775808 in Hb.
  rewrite wrap_small; unfold SIZE_MOD; lia.
Qed.

Lemma push_back_spec h v l x :
  holds h v l ->
  (m_size v < m_capacity v \/ sizeof_T * (2 * m_capacity v + 1) <= heap_limit) ->
  exists v' h',
    push_back x v h = Done v' h' /\
    holds h' v' (l ++ [x]) /\
    m_capacity v' =
      (if m_size v =? m_capacity v then 2 * m_capacity v + 1 else m_capacity v) /\
    (length (blocks h) <= length (blocks h'))%nat /\
    frame (m_data v) h h' /\
    (base (m_data v') = base (m_data v) \/
     base (m_data v') = Some (length (blocks h))) /\
    destroyed h' =
      destroyed h ++
      (if is_trivial then [] else if m_size v =? m_capacity v then l else []).
Proof.
  intros Hh Hroom.
  pose proof (holds_size _ _ _ Hh) as Hsz.
  pose proof (proj1 Hh) as [Hsc Hlim _ _].
  unfold push_back.
  destruct (Z.eqb_spec (m_size v) (m_capacity v)) as [Heq|Hne].
  - (* full: grow first *)
    rewrite (grow_no_wrap (m_capacity v)) by lia.
    destruct Hroom as [Hroom|Hroom]; [lia|].
    destruct (reserve_spec h v l (2 * m_capacity v + 1) Hh ltac:(lia) Hroom)
      as (h1 & b1 & Hres & Hb1 & Hlen1 & Hs1 & Hbl1 & Hfr1 & Hds1).
    rewrite (bind_done _ _ _ _ _ Hres). cbn [m_data m_size m_capacity].
    rewrite Hsz. change (ptr_add (elem ?a 0) (Z.of_nat ?n)) with (elem a n).
    assert (length l < length b1)%nat as Hlt by lia.
    assert ((if is_trivial
             then assign (elem (length (blocks h)) (length l)) x
             else construct (elem (length (blocks h)) (length l)) x) h1
            = Done tt (set_block (length (blocks h))
                         (Some (<[length l := Some x]> b1)) h1)) as Hput.
    { unfold assign, construct. destruct is_trivial; now apply poke_elem. }
    rewrite (bind_done _ _ _ _ _ Hput).
    rewrite (size_no_wrap _ (2 * m_capacity v + 1) 1) by lia.
    eexists _, _. split; [reflexivity|].
    split.
    { replace (Z.of_nat (length l) + 1) with (Z.of_nat (length (l ++ [x])))
        by (rewrite length_app; simpl; lia).
      apply holds_intro with (b := <[length l := Some x]> b1).
      - eapply set_block_live_eq. exact Hb1.
      - rewrite length_app. cbn [m_capacity length]. lia.
      - rewrite length_insert. cbn [m_capacity]. lia.
      - exact Hroom.
      - now apply take_snoc_insert. }
    split; [reflexivity|].
    split; [simpl; rewrite length_insert; lia|].
    split.
    { intros a Hne Ha. simpl. rewrite list_lookup_insert_ne by lia.
      now apply Hfr1. }
    split; [right; reflexivity|].
    simpl. rewrite Hds1. reflexivity.
  - (* room left *)
    clear Hroom. assert (m_size v < m_capacity v) as Hroom by lia.
    destruct (holds_inv _ _ _ Hh) as [[-> ->] | (a & b & Hv & Ha & Hcap & Hs)];
      [simpl in *; lia|].
    rewrite bind_done with (x := v) (s' := h) by reflexivity.
    rewrite Hv. cbn [m_data m_size m_capacity].
    change (ptr_add (elem ?a 0) (Z.of_nat ?n)) with (elem a n).
    assert (length l < length b)%nat as Hlt by lia.
    assert ((if is_trivial
             then assign (elem a (length l)) x
             else construct (elem a (length l)) x) h
            = Done tt (set_block a (Some (<[length l := Some x]> b)) h))
      as Hput.
    { unfold assign, construct. destruct is_trivial; now apply poke_elem. }
    rewrite (bind_done _ _ _ _ _ Hput).
    rewrite (size_no_wrap _ (m_capacity v) 1) by lia.
    eexists _, _. split; [reflexivity|].
    split.
    { replace (Z.of_nat (length l) + 1) with (Z.of_nat (length (l ++ [x])))
        by (rewrite length_app; simpl; lia).
      apply holds_intro with (b := <[length l := Some x]> b).
      - eapply set_block_live_eq. exact Ha.
      - rewrite length_app. cbn [m_capacity length]. lia.
      - rewrite length_insert. cbn [m_capacity]. lia.
      - exact Hlim.
      - now apply take_snoc_insert. }
    split; [reflexivity|].
    split; [simpl; rewrite length_insert; lia|].
    split.
    { intros a' Hne' Ha'. simpl in *. apply list_lookup_insert_ne. congruence. }
    split; [left; reflexivity|].
    simpl. destruct is_trivial; now rewrite app_nil_r.
Qed.

Lemma push_back_all_spec (values : list T) : forall h v l,
  holds h v l ->
  sizeof_T * (2 * (m_size v + Z.of_nat (length values))) <= heap_limit ->
  exists v' h',
    push_back_all values v h = Done v' h' /\ holds h' v' (l ++ values).
Proof.
  induction values as [|x rest IH]; intros h v l Hh Hlim.
  - exists v, h. rewrite app_nil_r. split; [reflexivity | exact Hh].
  - pose proof (holds_size _ _ _ Hh) as Hsz.
    pose proof (proj1 Hh) as [Hsc _ _ _].
    simpl length in Hlim.
    destruct (push_back_spec h v l x Hh) as (v1 & h1 & Hpb & Hh1 & _).
    { destruct (Z.eq_dec (m_size v) (m_capacity v)) as [Heq|Hne];
        [right; nia | left; lia]. }
    pose proof (holds_size _ _ _ Hh1) as Hsz1.
    rewrite length_app in Hsz1. simpl length in Hsz1.
    destruct (IH h1 v1 (l ++ [x]) Hh1) as (v2 & h2 & Hrest & Hh2).
    { replace (m_size v1 + Z.of_nat (length rest))
        with (m_size v + Z.of_nat (S (length rest))) by lia.
      exact Hlim. }
    exists v2, h2. split.
    + simpl push_back_all. rewrite (bind_done _ _ _ _ _ Hpb). exact Hrest.
    + rewrite <- app_assoc in Hh2. exact Hh2.
Qed.

(** C1. Starting from a default-constructed buffer, calling [push_back] once
    per value of a sequence of N values (whose storage the allocator can
    grant) returns a buffer with [size() == N] and [capacity() >= N], and
    iterating [begin()..end()] yields exactly those values in insertion
    order. *)
Theorem C1_push_back_sequence (values : list T) (h : heap) :
  sizeof_T * (2 * Z.of_nat (length values)) <= heap_limit ->
  exists v h',
    push_back_all values default_ctor h = Done v h' /\
    size v = Z.of_nat (length values) /\
    capacity v >= Z.of_nat (length values) /\
    iterate v h' = Done values h'.
Proof.
  intros Hlim.
  destruct (push_back_all_spec values h default_ctor [] (holds_default h) Hlim)
    as (v & h' & Hrun & Hh).
  simpl app in Hh.
  pose proof (holds_size _ _ _ Hh) as Hsz.
  pose proof (proj1 Hh) as [Hsc _ _ _].
  exists v, h'. unfold size, capacity.
  repeat split; [exact Hrun | exact Hsz | lia | now apply iterate_holds].
Qed.

(** ** Member functions called on an object of the store *)

Lemma world_eta w : World (objs w) (mem w) = w.
Proof. now destruct w. Qed.

Lemma rd_ok {A} o (f : fast_vector -> A) w v :
  objs w !! o = Some v -> rd o f w = Done (f v) w.
Proof. unfold rd. now intros ->. Qed.

Lemma wr_ok {A} o (upd : A -> fast_vector -> fast_vector) x w v :
  objs w !! o = Some v ->
  wr o upd x w = Done tt (World (<[o := upd x v]> (objs w)) (mem w)).
Proof. unfold wr. now intros ->. Qed.

Lemma lift_done {A} (m : M heap A) w x h' :
  m (mem w) = Done x h' -> lift m w = Done x (World (objs w) h').
Proof. unfold lift. now intros ->. Qed.

Lemma lift_thrown {A} (m : M heap A) w e h' :
  m (mem w) = Thrown e h' -> lift m w = Thrown e (World (objs w) h').
Proof. unfold lift. now intros ->. Qed.

Lemma call_done {A} this (f : fast_vector -> M heap (A * fast_vector)) w v x v' h' :
  objs w !! this = Some v -> f v (mem w) = Done (x, v') h' ->
  call this f w = Done x (World (<[this := v']> (objs w)) h').
Proof.
  intros Hv Hf. unfold call.
  rewrite (bind_done _ _ _ _ _ (rd_ok this id w v Hv)).
  rewrite (bind_done _ _ _ _ _ (lift_done _ w _ _ Hf)).
  rewrite (bind_done _ _ _ _ _ (wr_ok this _ _ (World (objs w) h') v Hv)).
  reflexivity.
Qed.

Lemma query_done {A} this (f : fast_vector -> M heap A) w v x h' :
  objs w !! this = Some v -> f v (mem w) = Done x h' ->
  query this f w = Done x (World (objs w) h').
Proof.
  intros Hv Hf. unfold query.
  rewrite (call_done this _ w v x v h' Hv).
  - now rewrite list_insert_id.
  - now rewrite (bind_done _ _ _ _ _ Hf).
Qed.

Lemma query_thrown {A} this (f : fast_vector -> M heap A) w v e h' :
  objs w !! this = Some v -> f v (mem w) = Thrown e h' ->
  query this f w = Thrown e (World (objs w) h').
Proof.
  intros Hv Hf. unfold query, call.
  rewrite (bind_done _ _ _ _ _ (rd_ok this id w v Hv)).
  unfold bind at 1. rewrite (lift_thrown _ w e h'); [reflexivity|].
  unfold bind. simpl. now rewrite Hf.
Qed.

(** ** at *)

Lemma at_out_of_range pos v h :
  at_ pos v h = Thrown range_error h <-> pos >= m_size v.
Proof.
  unfold at_, subscript, bind, assert.
  destruct (Z.geb_spec pos (m_size v)) as [Hge|Hlt].
  - split; [lia | reflexivity].
  - split; [|lia].
    destruct (Z.ltb_spec pos (m_size v)); discriminate.
Qed.

Lemma at_in_range pos v h :
  pos < m_size v -> at_ pos v h = Done (ptr_add (m_data v) pos) h.
Proof.
  intros Hlt. unfold at_, subscript, bind, assert.
  destruct (Z.geb_spec pos (m_size v)) as [Hge|_]; [lia|].
  destruct (Z.ltb_spec pos (m_size v)); [reflexivity | lia].
Qed.

Lemma holds_lookup h v l (i : nat) x :
  holds h v l -> l !! i = Some x ->
  load (ptr_add (m_data v) (Z.of_nat i)) h = Done x h.
Proof.
  intros Hh Hi.
  destruct (holds_inv _ _ _ Hh) as [[-> ->] | (a & b & -> & Ha & Hcap & Hs)];
    [discriminate|].
  change (ptr_add _ _) with (elem a i).
  apply load_elem with (b := b); [exact Ha|].
  pose proof (lookup_lt_Some _ _ _ Hi) as Hlt.
  rewrite <- (lookup_take_lt b (length l)) by exact Hlt.
  rewrite Hs, list_lookup_fmap, Hi. reflexivity.
Qed.

(** C9. [at(pos)] throws [std::range_error] exactly when [pos >= size()];
    otherwise it returns the reference to element [pos].  Either way the
    store (every field of the buffer and every element) is what it was, and
    the failure is an exception handed to the caller, not an abort. *)
Theorem C9_at_checked_access (this : nat) (pos : Z) (w : world) v l :
  objs w !! this = Some v ->
  holds (mem w) v l ->
  0 <= pos ->
  (query this (at_ pos) w = Thrown range_error w <-> pos >= size v) /\
  (pos < size v ->
   exists p x,
     query this (at_ pos) w = Done p w /\
     l !! Z.to_nat pos = Some x /\
     lift (load p) w = Done x w).
Proof.
  intros Hv Hh Hpos. unfold size. split.
  - split.
    + intros Hq. destruct (Z.geb_spec pos (m_size v)) as [Hge|Hlt]; [lia|].
      rewrite (query_done this _ w v _ _ Hv (at_in_range pos v (mem w) Hlt)) in Hq.
      discriminate.
    + intros Hge.
      rewrite (query_thrown this _ w v _ _ Hv (proj2 (at_out_of_range _ _ _) Hge)).
      now rewrite world_eta.
  - intros Hlt.
    pose proof (holds_size _ _ _ Hh) as Hsz.
    destruct (lookup_lt_is_Some_2 l (Z.to_nat pos) ltac:(lia)) as [x Hx].
    exists (ptr_add (m_data v) pos), x. split; [|split; [exact Hx|]].
    + rewrite (query_done this _ w v _ _ Hv (at_in_range pos v (mem w) Hlt)).
      now rewrite world_eta.
    + unfold lift.
      replace pos with (Z.of_nat (Z.to_nat pos)) by lia.
      rewrite (holds_lookup _ _ _ _ _ Hh Hx). now rewrite world_eta.
Qed.

(** ** The precondition of reserve *)

Lemma never_ret {S A} f (x : A) : never (S := S) f (ret x).
Proof. intros s. discriminate. Qed.

Lemma never_bind {S A B} f (m : M S A) (k : A -> M S B) :
  never f m -> (forall x, never f (k x)) -> never f (bind m k).
Proof.
  intros Hm Hk s. unfold bind. specialize (Hm s).
  destruct (m s) as [x s'|e s'|f']; [apply Hk | discriminate | congruence].
Qed.

Lemma never_abort {S A} f f' : f' <> f -> never (S := S) (A := A) f (abort f').
Proof. intros Hne s. unfold abort. congruence. Qed.


Lemma never_if {S A} f (c : bool) (m1 m2 : M S A) :
  never f m1 -> never f m2 -> never f (if c then m1 else m2).
Proof. now destruct c. Qed.

(** The memory primitives and the helpers stop only on undefined
    behaviour, never on an assertion. *)


Lemma never_block_of (a0 : assertion) p :
  never (AssertionFailed a0) (block_of p).
Proof.
  intros s. unfold block_of.
  destruct (base p); [|discriminate].
  destruct (blocks s !! _) as [[?|]|]; discriminate.
Qed.

Lemma never_peek (a0 : assertion) p :
  never (AssertionFailed a0) (peek p).
Proof.
  unfold peek. apply never_bind; [apply never_block_of|]. intros ab.
  destruct (if in_bounds p ab.2 then _ else _);
    [apply never_ret | now apply never_abort].
Qed.

Lemma never_poke (a0 : assertion) p s :
  never (AssertionFailed a0) (poke p s).
Proof.
  unfold poke. apply never_bind; [apply never_block_of|]. intros ab.
  apply never_if; [intros h; discriminate | now apply never_abort].
Qed.






Lemma never_memcpy (a0 : assertion) d s n :
  never (AssertionFailed a0) (memcpy d s n).
Proof.
  unfold memcpy. apply never_if; [now apply never_abort|].
  generalize (slots n) as k. intros k. revert d s.
  induction k as [|k IH]; intros d s; simpl; [apply never_ret|].
  apply never_bind; [apply never_peek|]. intros x.
  apply never_bind; [apply never_poke|]. intros _. apply IH.
Qed.







(** ** shrink_to_fit *)

(** No path through [shrink_to_fit] assigns [m_size] or [m_capacity]. *)
Lemma shrink_to_fit_fields v h v' h' :
  shrink_to_fit v h = Done v' h' ->
  m_size v' = m_size v /\ m_capacity v' = m_capacity v.
Proof.
  unfold shrink_to_fit.
  destruct (negb (m_size v =? 0) && (m_size v <? m_capacity v)).
  - destruct is_trivial; intros Hrun.
    + apply bind_inv in Hrun as (p & h1 & _ & Hrun).
      apply bind_inv in Hrun as (_ & h2 & _ & Hrun).
      injection Hrun as <- _. split; reflexivity.
    + apply bind_inv in Hrun as (p & h1 & _ & Hrun).
      apply bind_inv in Hrun as (_ & h2 & _ & Hrun).
      apply bind_inv in Hrun as (_ & h3 & _ & Hrun).
      apply bind_inv in Hrun as (_ & h4 & _ & Hrun).
      apply bind_inv in Hrun as (_ & h5 & _ & Hrun).
      injection Hrun as <- _. split; reflexivity.
  - intros Hrun. injection Hrun as <- _. split; reflexivity.
Qed.

(** ** erase *)

Lemma prefix_split (b : block) (l1 l2 : list T) x :
  take (length (l1 ++ x :: l2)) b = Some <$> (l1 ++ x :: l2) ->
  take (length l1) b = Some <$> l1 /\
  take (length l2) (drop (S (length l1)) b) = Some <$> l2.
Proof.
  intros Hs. split.
  - rewrite <- (Nat.min_l (length l1) (length (l1 ++ x :: l2)))
      by (rewrite length_app; lia).
    rewrite <- take_take, Hs, fmap_app.
    apply take_app_length'. now rewrite length_fmap.
  - rewrite take_drop_commute.
    replace (S (length l1) + length l2)%nat with (length (l1 ++ x :: l2))
      by (rewrite length_app; simpl; lia).
    rewrite Hs, fmap_app. simpl fmap.
    replace ((Some <$> l1) ++ Some x :: list_fmap T (option T) Some l2)
      with (((Some <$> l1) ++ [Some x]) ++ (Some <$> l2))
      by now rewrite <- app_assoc.
    apply drop_app_length'. rewrite length_app, length_fmap. simpl. lia.
Qed.

Lemma erase_missing h v l x :
  is_trivial = true ->
  holds h v l -> x ∉ l -> erase x v h = Done v h.
Proof.
  intros Htriv Hh Hx. unfold erase. rewrite Htriv. cbn [negb].
  destruct (holds_inv _ _ _ Hh) as [[-> ->] | (a & b & -> & Ha & Hcap & Hs)].
  - reflexivity.
  - unfold begin. rewrite end_elem. simpl m_data.
    rewrite (bind_done _ _ _ _ _ (find_item_missing l x h a b Ha Hs Hx)).
    unfold ptr_lt. now rewrite Z.ltb_irrefl.
Qed.

(** The shift of [erase] copies [n] elements one slot down: its ranges
    overlap exactly when [n] is two or more. *)
Lemma overlaps_shift a i n :
  overlaps (elem a i) (elem a (S i)) n = bool_decide (2 <= n)%nat.
Proof.
  unfold overlaps, elem. cbn [base off].
  rewrite bool_decide_true by reflexivity. cbn [andb].
  destruct (Z.eqb_spec (Z.of_nat i) (Z.of_nat (S i))) as [|_]; [lia|].
  cbn [negb andb].
  replace (Z.of_nat i - Z.of_nat (S i)) with (-1) by lia.
  change (Z.abs (-1)) with 1.
  destruct (Z.ltb_spec 1 (Z.of_nat n)).
  - now rewrite bool_decide_true by lia.
  - now rewrite bool_decide_false by lia.
Qed.

(** [erase] for a trivial [T], up to the shift: the match is found at
    position [length l1] and [length l2] elements follow it. *)
Lemma erase_trivial_step h a (b : block) cap (l1 l2 : list T) x :
  is_trivial = true ->
  live h a b ->
  Z.of_nat (length (l1 ++ x :: l2)) <= cap ->
  sizeof_T * cap <= heap_limit ->
  take (length (l1 ++ x :: l2)) b = Some <$> (l1 ++ x :: l2) ->
  x ∉ l1 ->
  erase x (FV (elem a 0) (Z.of_nat (length (l1 ++ x :: l2))) cap) h =
  ((if (0 <? Z.of_nat (length l2))
    then memcpy (elem a (length l1)) (elem a (S (length l1)))
                (sizeof_T * Z.of_nat (length l2))
    else ret tt) ;;;
   ret (FV (elem a 0) (Z.of_nat (length (l1 ++ l2))) cap)) h.
Proof.
  intros Htriv Ha Hsc Hlim Hs Hx.
  assert (length (l1 ++ x :: l2) = S (length l1 + length l2)) as Hlen
    by (rewrite length_app; simpl; lia).
  assert (length (l1 ++ l2) = (length l1 + length l2)%nat) as Hlen'
    by apply length_app.
  pose proof (limit_small cap ltac:(lia) Hlim) as Hsmall.
  change (SIZE_MOD / 2) with 9223372036854775808 in Hsmall.
  unfold erase, begin. rewrite Htriv. cbn [negb]. rewrite end_elem.
  cbn [m_data m_size m_capacity].
  rewrite (bind_done _ _ _ _ _ (find_item_found l1 l2 x h a b Ha Hs Hx)).
  unfold ptr_lt, with_size. cbn [m_data m_size m_capacity].
  unfold elem, ptr_add. cbn [off base].
  destruct (Z.ltb_spec (Z.of_nat (length l1))
                       (Z.of_nat (length (l1 ++ x :: l2)))) as [_|Hc]; [|lia].
  assert (wrap (Z.of_nat (length (l1 ++ x :: l2)) - 1)
          = Z.of_nat (length (l1 ++ l2))) as ->
    by (rewrite wrap_small; unfold SIZE_MOD; lia).
  assert (wrap (Z.of_nat (length (l1 ++ x :: l2)) - Z.of_nat (length l1) - 1)
          = Z.of_nat (length l2)) as ->
    by (rewrite wrap_small; unfold SIZE_MOD; lia).
  rewrite (Z.mul_comm (Z.of_nat (length l2))),
    (wrap_bytes (Z.of_nat (length l2))) by nia.
  replace (Z.of_nat (length l1) <? Z.of_nat (length (l1 ++ x :: l2)) + -1)
    with (0 <? Z.of_nat (length l2)).
  2:{ destruct (Z.ltb_spec 0 (Z.of_nat (length l2)));
      destruct (Z.ltb_spec (Z.of_nat (length l1))
                  (Z.of_nat (length (l1 ++ x :: l2)) + -1)); lia || reflexivity. }
  replace (Z.of_nat (length l1) + 1) with (Z.of_nat (S (length l1))) by lia.
  reflexivity.
Qed.

Lemma erase_trivial_found h v (l1 l2 : list T) x :
  is_trivial = true ->
  holds h v (l1 ++ x :: l2) -> x ∉ l1 ->
  (length l2 <= 1)%nat ->
  exists v' h',
    erase x v h = Done v' h' /\
    holds h' v' (l1 ++ l2) /\
    m_size v' = m_size v - 1 /\
    m_capacity v' = m_capacity v /\
    frame (m_data v) h h'.
Proof.
  intros Htriv Hh Hx Hshort.
  pose proof (proj1 Hh) as [Hsc Hlim _ _].
  destruct (holds_inv _ _ _ Hh) as [[_ Hl] | (a & b & Hv & Ha & Hcap & Hs)].
  { destruct l1; discriminate. }
  destruct (prefix_split _ _ _ _ Hs) as [Hs1 Hs2].
  rewrite Hv in *. cbn [m_size m_capacity m_data] in *. clear Hv.
  set (cap := m_capacity v) in *.
  assert (length (l1 ++ x :: l2) = S (length l1 + length l2)) as Hlen
    by (rewrite length_app; simpl; lia).
  rewrite (erase_trivial_step h a b cap l1 l2 x Htriv Ha ltac:(lia) Hlim Hs Hx).
  destruct (Z.ltb_spec 0 (Z.of_nat (length l2))) as [Hlt|Hge].
  - (* one element follows: it moves down *)
    unfold memcpy. rewrite overlaps_shift, slots_bytes, Nat2Z.id by lia.
    rewrite bool_decide_false by lia.
    rewrite (bind_done _ _ _ _ _
               (memcpy_loop_shift (length l2) h a b (length l1) Ha ltac:(lia))).
    eexists _, _. split; [reflexivity|].
    split; [|split; [cbn; rewrite !length_app; simpl; lia|split; [reflexivity|]]].
    + apply holds_intro with
        (b := take (length l1) b ++ take (length l2) (drop (S (length l1)) b)
              ++ drop (length l1 + length l2) b).
      * eapply set_block_live_eq. exact Ha.
      * rewrite length_app. lia.
      * rewrite !length_app, !length_take, !length_drop. lia.
      * exact Hlim.
      * rewrite Hs1, Hs2, app_assoc, <- fmap_app.
        apply take_app_length'. now rewrite length_fmap.
    + intros a' Hne Ha'. simpl in *. apply list_lookup_insert_ne. congruence.
  - (* the last element: nothing to shift *)
    assert (length l2 = 0%nat) as Hl2 by lia.
    destruct l2; [|discriminate]. rewrite app_nil_r in *.
    rewrite bind_done with (x := tt) (s' := h) by reflexivity.
    eexists _, _. split; [reflexivity|].
    split; [|split; [cbn; rewrite !length_app; simpl; lia|split; [reflexivity|]]].
    + apply holds_intro with (b := b); try assumption; lia.
    + intros a' _ _. reflexivity.
Qed.

Lemma erase_trivial_overlap h v (l1 l2 : list T) x :
  is_trivial = true ->
  holds h v (l1 ++ x :: l2) -> x ∉ l1 ->
  (2 <= length l2)%nat ->
  erase x v h = Abort (Undefined Overlap).
Proof.
  intros Htriv Hh Hx Hlong.
  pose proof (proj1 Hh) as [Hsc Hlim _ _].
  destruct (holds_inv _ _ _ Hh) as [[_ Hl] | (a & b & Hv & Ha & Hcap & Hs)].
  { destruct l1; discriminate. }
  rewrite Hv in *. cbn [m_size m_capacity m_data] in *. clear Hv.
  set (cap := m_capacity v) in *.
  rewrite (erase_trivial_step h a b cap l1 l2 x Htriv Ha ltac:(lia) Hlim Hs Hx).
  destruct (Z.ltb_spec 0 (Z.of_nat (length l2))) as [_|]; [|lia].
  unfold bind, memcpy. rewrite overlaps_shift, slots_bytes, Nat2Z.id by lia.
  now rewrite bool_decide_true by lia.
Qed.

(** ** resize *)

Lemma resize_same v h : resize (m_size v) v h = Done v h.
Proof. unfold resize. now rewrite Z.eqb_refl. Qed.

Lemma take_prefix (b : block) (l : list T) n :
  take (length l) b = Some <$> l -> (n <= length l)%nat ->
  take n b = Some <$> take n l.
Proof.
  intros Hs Hn. rewrite <- (Nat.min_l n (length l)) at 1 by exact Hn.
  now rewrite <- take_take, Hs, fmap_take.
Qed.

Lemma drop_prefix (b : block) (l : list T) n :
  take (length l) b = Some <$> l -> (n <= length l)%nat ->
  take (length (drop n l)) (drop n b) = Some <$> drop n l.
Proof.
  intros Hs Hn. rewrite take_drop_commute, length_drop.
  replace (n + (length l - n))%nat with (length l) by lia.
  now rewrite Hs, fmap_drop.
Qed.

Lemma resize_truncate h v l k :
  holds h v l -> 0 <= k < m_size v ->
  exists v' h',
    resize k v h = Done v' h' /\
    holds h' v' (take (Z.to_nat k) l) /\
    m_size v' = k /\ m_capacity v' = m_capacity v /\
    destroyed h' =
      destroyed h ++ (if is_trivial then [] else drop (Z.to_nat k) l).
Proof.
  intros Hh Hk.
  pose proof (proj1 Hh) as [Hsc Hlim _ _].
  destruct (holds_inv _ _ _ Hh) as [[-> _] | (a & b & Hv & Ha & Hcap & Hs)].
  { simpl in Hk. lia. }
  rewrite Hv in *. cbn [m_size m_capacity m_data] in *. clear Hv.
  set (cap := m_capacity v) in *. set (n := Z.to_nat k).
  assert (n <= length l)%nat as Hn by lia.
  assert (k = Z.of_nat n) as Hkn by lia.
  unfold resize. cbn [m_size m_capacity m_data].
  destruct (Z.eqb_spec k (Z.of_nat (length l))) as [Heq|_]; [lia|].
  destruct (Z.gtb_spec k cap) as [Hgt|_]; [lia|].
  rewrite bind_done with (x := FV (elem a 0) (Z.of_nat (length l)) cap) (s' := h)
    by reflexivity.
  cbn [m_size m_capacity m_data].
  destruct (Z.gtb_spec k (Z.of_nat (length l))) as [Hgt|_]; [lia|].
  destruct (Z.ltb_spec k (Z.of_nat (length l))) as [_|Hge]; [|lia].
  assert (Z.of_nat (length (take n l)) = k) as Hlen
    by (rewrite length_take; lia).
  destruct is_trivial; cbn [negb]; cbv iota.
  - rewrite bind_done with (x := tt) (s' := h) by reflexivity.
    eexists _, _. split; [reflexivity|].
    split; [|split; [reflexivity|split; [reflexivity|now rewrite app_nil_r]]].
    unfold with_size. cbn [m_data m_capacity]. rewrite <- Hlen.
    apply holds_intro with (b := b); try assumption; [lia|].
    rewrite length_take, Nat.min_l by exact Hn. now apply take_prefix.
  - rewrite Hkn.
    change (ptr_add (elem a 0) (Z.of_nat n)) with (elem a n).
    change (ptr_add (elem a 0) (Z.of_nat (length l))) with (elem a (length l)).
    replace (elem a (length l)) with (elem a (n + length (drop n l)))
      by (rewrite length_drop; f_equal; lia).
    rewrite (bind_done _ _ _ _ _
               (destruct_range_spec (drop n l) h a b n Ha (drop_prefix b l n Hs Hn))).
    eexists _, _. split; [reflexivity|].
    split; [|split; [reflexivity|split; reflexivity]].
    unfold with_size. cbn [m_data m_capacity]. rewrite <- Hkn, <- Hlen.
    eapply holds_intro; [| | |exact Hlim|].
    + unfold live. simpl. apply list_lookup_insert_eq.
      eapply lookup_lt_Some. exact Ha.
    + lia.
    + rewrite !length_app, length_take, length_replicate, !length_drop. lia.
    + rewrite length_take, Nat.min_l by exact Hn.
      rewrite take_app_le by (rewrite length_take; lia).
      rewrite take_take, Nat.min_id. now apply take_prefix.
Qed.

(** The tail of [resize] once the capacity is sufficient. *)
Lemma resize_fill h a (b : block) l k cap :
  live h a b ->
  Z.of_nat (length l) < k <= cap -> cap <= Z.of_nat (length b) ->
  sizeof_T * cap <= heap_limit ->
  take (length l) b = Some <$> l ->
  exists h',
    (if negb is_trivial then
       if k >? Z.of_nat (length l)
       then construct_range (elem a (length l)) (ptr_add (elem a 0) k)
       else if k <? Z.of_nat (length l)
       then destruct_range (ptr_add (elem a 0) k) (elem a (length l))
       else ret tt
     else ret tt) h = Done tt h' /\
    wf h' (FV (elem a 0) k cap) /\
    take (length l) (contents (FV (elem a 0) k cap) h') = Some <$> l /\
    (is_trivial = false ->
     holds h' (FV (elem a 0) k cap)
           (l ++ replicate (Z.to_nat (k - Z.of_nat (length l))) default_T)) /\
    (is_trivial = true -> h' = h) /\
    length (blocks h') = length (blocks h) /\
    frame (elem a 0) h h'.
Proof.
  intros Ha Hk Hcap Hlim Hs.
  set (n := Z.to_nat (k - Z.of_nat (length l))).
  assert (k = Z.of_nat (length l + n)) as Hkn by lia.
  destruct (Z.gtb_spec k (Z.of_nat (length l))) as [_|Hle]; [|lia].
  destruct is_trivial; cbn [negb]; cbv iota.
  - exists h. split; [reflexivity|].
    split; [split; cbn; eauto; lia|].
    split.
    { unfold contents, storage. cbn. unfold live in Ha. rewrite Ha.
      rewrite take_take, Nat.min_l by lia. exact Hs. }
    split; [discriminate|]. split; [reflexivity|].
    split; [reflexivity|]. intros a' _ _. reflexivity.
  - replace (ptr_add (elem a 0) k) with (elem a (length l + n))
      by (unfold ptr_add, elem; cbn; f_equal; lia).
    rewrite (construct_range_spec n h a b (length l) Ha ltac:(lia)).
    set (b' := take (length l) b ++ replicate n (Some default_T)
               ++ drop (length l + n) b).
    assert (live (set_block a (Some b') h) a b') as Ha'
      by (eapply set_block_live_eq; exact Ha).
    assert (length b' = length b) as Hlen'.
    { unfold b'. rewrite !length_app, length_take, length_replicate, length_drop.
      lia. }
    assert (take (length l) b' = Some <$> l) as Hs'.
    { unfold b'. rewrite take_app_le by (rewrite length_take; lia).
      rewrite take_take, Nat.min_id. exact Hs. }
    eexists. split; [reflexivity|].
    split; [split; cbn; [lia | exact Hlim | reflexivity |]|].
    { exists b'. split; [exact Ha' | lia]. }
    split.
    { unfold contents, storage. cbn [m_data m_size base elem].
      unfold live in Ha'. rewrite Ha'.
      rewrite take_take, Nat.min_l by lia. exact Hs'. }
    split.
    { intros _. rewrite Hkn.
      replace (length l + n)%nat
        with (length (l ++ replicate n default_T))
        by (rewrite length_app, length_replicate; lia).
      apply holds_intro with (b := b'); try assumption.
      - rewrite length_app, length_replicate. lia.
      - lia.
      - rewrite length_app, length_replicate. unfold b'.
        rewrite app_assoc, take_app_le
          by (rewrite length_app, length_take, length_replicate; lia).
        rewrite take_ge
          by (rewrite length_app, length_take, length_replicate; lia).
        rewrite Hs, fmap_app, fmap_replicate. reflexivity. }
    split; [discriminate|].
    split; [simpl; now rewrite length_insert|].
    intros a' Hne _. simpl in *. apply list_lookup_insert_ne. congruence.
Qed.

Lemma resize_grow h v l k :
  holds h v l -> m_size v < k ->
  k <= m_capacity v \/ sizeof_T * k <= heap_limit ->
  exists v' h',
    resize k v h = Done v' h' /\
    wf h' v' /\
    m_size v' = k /\
    m_capacity v' = Z.max (m_capacity v) k /\
    take (length l) (contents v' h') = Some <$> l /\
    (is_trivial = false ->
     holds h' v' (l ++ replicate (Z.to_nat (k - m_size v)) default_T)) /\
    (is_trivial = true -> k <= m_capacity v -> h' = h).
Proof.
  intros Hh Hk Hroom.
  pose proof (holds_size _ _ _ Hh) as Hsz.
  pose proof (proj1 Hh) as [Hsc Hlim _ _].
  unfold resize.
  destruct (Z.eqb_spec k (m_size v)) as [Heq|_]; [lia|].
  destruct (Z.gtb_spec k (m_capacity v)) as [Hgt|Hle].
  - destruct Hroom as [Hroom|Hroom]; [lia|].
    destruct (reserve_spec h v l k Hh Hgt Hroom)
      as (h1 & b1 & Hres & Hb1 & Hlen1 & Hs1 & Hbl1 & Hfr1 & Hds1).
    rewrite (bind_done _ _ _ _ _ Hres). cbn [m_data m_size m_capacity].
    rewrite Hsz.
    change (ptr_add (elem ?a 0) (Z.of_nat ?n)) with (elem a n).
    destruct (resize_fill h1 (length (blocks h)) b1 l k k Hb1)
      as (h2 & Hfill & Hwf2 & Hc2 & Hnt2 & _); try lia; try assumption.
    rewrite (bind_done _ _ _ _ _ Hfill).
    eexists _, _. split; [reflexivity|].
    split; [exact Hwf2|]. split; [reflexivity|].
    split; [cbn; lia|]. split; [exact Hc2|].
    split; [exact Hnt2 | intros _ Hc; lia].
  - destruct (holds_inv _ _ _ Hh) as [[-> ->] | (a & b & Hv & Ha & Hcap & Hs)].
    { simpl in *. lia. }
    rewrite bind_done with (x := v) (s' := h) by reflexivity.
    rewrite Hv in *. cbn [m_data m_size m_capacity] in *.
    set (cap := m_capacity v) in *.
    change (ptr_add (elem ?a 0) (Z.of_nat ?n)) with (elem a n).
    destruct (resize_fill h a b l k cap Ha)
      as (h2 & Hfill & Hwf2 & Hc2 & Hnt2 & Ht2 & _); try lia; try assumption.
    rewrite (bind_done _ _ _ _ _ Hfill).
    eexists _, _. split; [reflexivity|].
    split; [exact Hwf2|]. split; [reflexivity|].
    split; [cbn; lia|]. split; [exact Hc2|].
    split; [exact Hnt2 | intros Ht _; now apply Ht2].
Qed.

(** C8, as the code has it. [resize(k)] on a buffer holding [l]: with
    [k == size()] nothing changes; with [k < size()] the buffer holds exactly
    the first [k] elements; with [k > size()], provided [k <= capacity()] or
    the allocator grants [sizeof(T) * k] bytes, the first [size()] elements
    are kept, [size() == k], and the new slots hold default-constructed
    objects for a non-trivial [T], while for a trivial [T], whose default
    initialisation does nothing, they are left as the storage has them. *)
Theorem C8_resize (h : heap) (v : fast_vector) (l : list T) (k : Z) :
  holds h v l -> 0 <= k ->
  (k = size v -> resize k v h = Done v h) /\
  (k < size v ->
   exists v' h',
     resize k v h = Done v' h' /\ size v' = k /\
     iterate v' h' = Done (take (Z.to_nat k) l) h') /\
  (k > size v -> k <= capacity v \/ sizeof_T * k <= heap_limit ->
   exists v' h',
     resize k v h = Done v' h' /\ size v' = k /\ capacity v' >= k /\
     take (length l) (contents v' h') = Some <$> l /\
     (is_trivial = false ->
      iterate v' h' =
      Done (l ++ replicate (Z.to_nat (k - size v)) default_T) h') /\
     (is_trivial = true -> k <= capacity v -> h' = h)).
Proof.
  intros Hh Hk. unfold size, capacity. split; [|split].
  - intros ->. apply resize_same.
  - intros Hlt.
    destruct (resize_truncate h v l k Hh ltac:(lia))
      as (v' & h' & Hrun & Hh' & Hsz' & _).
    exists v', h'. repeat split; [exact Hrun | exact Hsz' |].
    now apply iterate_holds.
  - intros Hgt Hroom.
    destruct (resize_grow h v l k Hh ltac:(lia) Hroom)
      as (v' & h' & Hrun & Hwf' & Hsz' & Hcap' & Hc' & Hnt' & Ht').
    exists v', h'. repeat split; try assumption; [lia|].
    intros Hnt. apply iterate_holds. now apply Hnt'.
Qed.

(** ** append *)

Lemma frame_live p h h' a (b : block) :
  frame p h h' -> base p <> Some a -> live h a b -> live h' a b.
Proof.
  intros Hfr Hne Ha. unfold live. rewrite Hfr; [exact Ha | exact Hne |].
  now apply live_lt with (b := b).
Qed.

Lemma append_loop_spec (src : list T) : forall h v l sa (sb : block) si i,
  holds h v l ->
  live h sa sb -> base (m_data v) <> Some sa ->
  take (length src) (drop (si + i) sb) = Some <$> src ->
  Z.of_nat (i + length src) < SIZE_MOD ->
  m_size v + Z.of_nat (length src) <= m_capacity v \/
  sizeof_T * (2 * (m_size v + Z.of_nat (length src))) <= heap_limit ->
  exists v' h',
    append_loop (length src) (elem sa si) (Z.of_nat i) v h = Done v' h' /\
    holds h' v' (l ++ src) /\ live h' sa sb.
Proof.
  induction src as [|x rest IH]; intros h v l sa sb si i Hh Hsa Hne Hs Hi Hroom.
  - exists v, h. rewrite app_nil_r.
    split; [reflexivity | split; [exact Hh | exact Hsa]].
  - simpl length in *. destruct (slots_cons _ _ _ _ Hs) as [Hx Hr].
    pose proof (holds_size _ _ _ Hh) as Hsz.
    pose proof (proj1 Hh) as [Hsc _ _ _].
    simpl append_loop.
    change (ptr_add (elem sa si) (Z.of_nat i)) with (Ptr (Some sa) (Z.of_nat si + Z.of_nat i)).
    replace (Ptr (Some sa) (Z.of_nat si + Z.of_nat i)) with (elem sa (si + i))
      by (unfold elem; f_equal; lia).
    rewrite (bind_done _ _ _ _ _ (load_elem h sa (si + i) sb x Hsa Hx)).
    destruct (push_back_spec h v l x Hh)
      as (v1 & h1 & Hpb & Hh1 & Hcap1 & Hlen1 & Hfr1 & Hbase1 & _).
    { destruct (Z.eq_dec (m_size v) (m_capacity v)) as [Heq|Hneq];
        [right | left; lia].
      destruct Hroom as [Hroom|Hroom]; [lia | nia]. }
    rewrite (bind_done _ _ _ _ _ Hpb).
    pose proof (holds_size _ _ _ Hh1) as Hsz1.
    rewrite length_app in Hsz1. simpl length in Hsz1.
    rewrite wrap_small by lia.
    replace (Z.of_nat i + 1) with (Z.of_nat (S i)) by lia.
    destruct (IH h1 v1 (l ++ [x]) sa sb si (S i) Hh1) as (v2 & h2 & Hrest & Hh2 & Hsa2).
    + now apply (frame_live _ _ _ _ _ Hfr1).
    + pose proof (live_lt _ _ _ Hsa).
      destruct Hbase1 as [-> | ->]; [exact Hne | intros [= Heq]; lia].
    + replace (si + S i)%nat with (S (si + i)) by lia. exact Hr.
    + lia.
    + destruct (Z.eqb_spec (m_size v) (m_capacity v)) as [Heq|Hneq].
      * right. destruct Hroom as [Hroom|Hroom]; [lia|].
        replace (m_size v1 + Z.of_nat (length rest))
          with (m_size v + Z.of_nat (S (length rest))) by lia.
        exact Hroom.
      * destruct Hroom as [Hroom|Hroom]; [left; lia | right].
        replace (m_size v1 + Z.of_nat (length rest))
          with (m_size v + Z.of_nat (S (length rest))) by lia.
        exact Hroom.
    + exists v2, h2. rewrite <- app_assoc in Hh2.
      split; [exact Hrest | split; [exact Hh2 | exact Hsa2]].
Qed.

Lemma append_spec h v l values src count :
  holds h v l ->
  array_at h values src (m_data v) ->
  count = Z.of_nat (length src) ->
  m_size v + count <= m_capacity v \/
  sizeof_T * (2 * (m_size v + count)) <= heap_limit ->
  exists v' h',
    append values count v h = Done v' h' /\ holds h' v' (l ++ src).
Proof.
  intros Hh (sa & sb & si & -> & Hsa & Hne & Hs) -> Hroom.
  pose proof (holds_size _ _ _ Hh) as Hsz.
  pose proof (proj1 Hh) as [Hsc Hlim _ _].
  assert (m_size v + Z.of_nat (length src) < SIZE_MOD / 2) as Hsum.
  { destruct Hroom as [Hroom|Hroom].
    - pose proof (limit_small (m_capacity v) ltac:(lia) Hlim). lia.
    - pose proof (limit_small (2 * (m_size v + Z.of_nat (length src)))
                    ltac:(lia) Hroom). lia. }
  change (SIZE_MOD / 2) with 9223372036854775808 in Hsum.
  unfold append.
  rewrite (wrap_small (m_size v + _)) by (unfold SIZE_MOD; lia).
  destruct (Z.geb_spec (m_size v + Z.of_nat (length src)) (m_capacity v))
    as [Hge|Hlt].
  - (* one push_back per element *)
    rewrite Nat2Z.id.
    destruct (append_loop_spec src h v l sa sb si 0 Hh Hsa Hne)
      as (v' & h' & Hrun & Hh' & _); try assumption.
    + now rewrite Nat.add_0_r.
    + unfold SIZE_MOD. lia.
    + exists v', h'. split; [exact Hrun | exact Hh'].
  - (* bulk copy into the tail *)
    destruct (holds_inv _ _ _ Hh) as [[-> ->] | (a & b & Hv & Ha & Hcap & Hsl)].
    { simpl in *. lia. }
    rewrite Hv in *. cbn [m_data m_size m_capacity base elem] in *. clear Hv.
    set (cap := m_capacity v) in *.
    change (ptr_add (elem a 0) (Z.of_nat (length l))) with (elem a (length l)).
    assert (a <> sa) as Hne' by congruence.
    assert ((if is_trivial
             then memcpy (elem a (length l)) (elem sa si)
                         (wrap (Z.of_nat (length src) * sizeof_T))
             else copy_range (elem sa si) (ptr_add (elem sa si) (Z.of_nat (length src)))
                             (elem a (length l))) h
            = Done tt (set_block a
                         (Some (take (length l) b ++ (Some <$> src)
                                ++ drop (length l + length src) b)) h)) as Hcopy.
    { destruct is_trivial.
      - rewrite Z.mul_comm, wrap_bytes by nia.
        rewrite memcpy_apart by (simpl; congruence).
        rewrite slots_bytes, Nat2Z.id by lia.
        pose proof (memcpy_loop_spec (Some <$> src) h sa sb si a b (length l)
                      Hsa Ha ltac:(congruence)) as Hm.
        rewrite length_fmap in Hm. apply Hm; [exact Hs | lia].
      - rewrite elem_add.
        apply (copy_range_spec src h sa sb si a b (length l) Hsa Ha
                 ltac:(congruence) Hs ltac:(lia)). }
    rewrite (bind_done _ _ _ _ _ Hcopy).
    eexists _, _. split; [reflexivity|].
    unfold with_size. cbn [m_data m_size m_capacity].
    replace (Z.of_nat (length l) + Z.of_nat (length src))
      with (Z.of_nat (length (l ++ src))) by (rewrite length_app; lia).
    eapply holds_intro; [| | |exact Hlim|].
    + eapply set_block_live_eq. exact Ha.
    + rewrite length_app. lia.
    + rewrite !length_app, length_take, length_fmap, length_drop. lia.
    + rewrite Hsl, app_assoc, <- fmap_app.
      rewrite <- (length_fmap Some (l ++ src)). apply take_app_length.
Qed.

(** The region of a well-formed buffer has a slot for each of its
    [capacity()] elements. *)
Lemma wf_region h v : wf h v -> m_capacity v <= Z.of_nat (length (storage v h)).
Proof.
  intros [_ _ _ Hd]. unfold storage.
  destruct (base (m_data v)) as [a|]; [|simpl; lia].
  destruct Hd as (b & Hb & Hle). unfold live in Hb. now rewrite Hb.
Qed.

(** C3. [append(values, count)] on a buffer of size [s] holding [l], from a
    source array of [count] objects outside the buffer (with storage for the
    result available): the run completes, so no access leaves an allocated
    block, and afterwards [size() == s + count], [capacity() >= s + count],
    the region has a slot for each of the [capacity()] elements, and the
    buffer holds [l] followed by the source elements in order. *)
Theorem C3_append (h : heap) (v : fast_vector) (l : list T)
    (values : ptr) (src : list T) (count : Z) :
  holds h v l ->
  array_at h values src (m_data v) ->
  count = Z.of_nat (length src) ->
  size v + count <= capacity v \/
  sizeof_T * (2 * (size v + count)) <= heap_limit ->
  exists v' h',
    append values count v h = Done v' h' /\
    size v' = size v + count /\
    capacity v' >= size v + count /\
    capacity v' <= Z.of_nat (length (storage v' h')) /\
    iterate v' h' = Done (l ++ src) h'.
Proof.
  intros Hh Harr Hcount Hroom.
  destruct (append_spec h v l values src count Hh Harr Hcount Hroom)
    as (v' & h' & Hrun & Hh').
  pose proof (holds_size _ _ _ Hh) as Hsz.
  pose proof (holds_size _ _ _ Hh') as Hsz'.
  pose proof (proj1 Hh') as Hwf'.
  pose proof (wf_size _ _ Hwf') as Hsc'.
  rewrite length_app in Hsz'.
  exists v', h'. unfold size, capacity.
  split; [exact Hrun|]. split; [lia|]. split; [lia|].
  split; [now apply wf_region | now apply iterate_holds].
Qed.

(** ** Statements on the fields of two objects *)

(** [this.g = other.f], also when both names denote one object. *)
Lemma copy_field {A} this other (f : fast_vector -> A) upd w vt vo :
  objs w !! this = Some vt -> objs w !! other = Some vo ->
  (x <- rd other f ;; wr this upd x) w =
  Done tt (World (<[this := upd (f vo) vt]> (objs w)) (mem w)).
Proof.
  intros Ht Ho.
  rewrite (bind_done _ _ _ _ _ (rd_ok other f w vo Ho)).
  now apply wr_ok.
Qed.

Lemma insert_this (os : list fast_vector) this v vt :
  os !! this = Some vt -> <[this := v]> os !! this = Some v.
Proof. intros Ht. apply list_lookup_insert_eq. now apply lookup_lt_Some in Ht. Qed.

Lemma insert_other (os : list fast_vector) this other v vo :
  this <> other -> os !! other = Some vo -> <[this := v]> os !! other = Some vo.
Proof. intros Hne Ho. now rewrite list_lookup_insert_ne. Qed.

(** ** Move construction and move assignment *)

Lemma move_ctor_spec other w vo :
  objs w !! other = Some vo ->
  exists w',
    move_ctor other w = Done (length (objs w)) w' /\
    mem w' = mem w /\
    objs w' !! length (objs w) =
      Some (FV (m_data vo) (m_size vo) (m_capacity vo)) /\
    objs w' !! other = Some (with_data nullptr vo).
Proof.
  intros Ho. destruct w as [os h]. simpl in *.
  pose proof (lookup_lt_Some _ _ _ Ho) as Hlt.
  set (this := length os).
  assert (this <> other) as Hne by lia.
  assert ((os ++ [default_ctor]) !! other = Some vo) as Ho1
    by now rewrite lookup_app_l.
  assert ((os ++ [default_ctor]) !! this = Some default_ctor) as Ht1
    by (rewrite lookup_app_r, Nat.sub_diag; [reflexivity | unfold this; lia]).
  unfold move_ctor.
  rewrite bind_done with (x := this) (s' := World (os ++ [default_ctor]) h)
    by reflexivity.
  rewrite (bind_done _ _ _ _ _
             (copy_field this other m_data with_data (World _ h) _ _ Ht1 Ho1)).
  cbn [objs mem].
  pose proof (insert_this _ this (with_data (m_data vo) default_ctor) _ Ht1) as Ht2.
  pose proof (insert_other _ this other (with_data (m_data vo) default_ctor) _ Hne Ho1)
    as Ho2.
  rewrite (bind_done _ _ _ _ _
             (copy_field this other m_size with_size (World _ h) _ _ Ht2 Ho2)).
  cbn [objs mem].
  match type of Ht2 with ?os2 !! _ = Some ?v2 =>
    pose proof (insert_this os2 this (with_size (m_size vo) v2) _ Ht2) as Ht3;
    pose proof (insert_other os2 this other (with_size (m_size vo) v2) _ Hne Ho2)
      as Ho3
  end.
  rewrite (bind_done _ _ _ _ _
             (copy_field this other m_capacity with_capacity (World _ h) _ _ Ht3 Ho3)).
  cbn [objs mem].
  match type of Ht3 with ?os3 !! _ = Some ?v3 =>
    pose proof (insert_this os3 this (with_capacity (m_capacity vo) v3) _ Ht3) as Ht4;
    pose proof (insert_other os3 this other (with_capacity (m_capacity vo) v3) _ Hne Ho3)
      as Ho4
  end.
  rewrite (bind_done _ _ _ _ _ (wr_ok other with_data nullptr (World _ h) _ Ho4)).
  cbn [objs mem].
  eexists. split; [reflexivity|]. split; [reflexivity|]. cbn [objs].
  split.
  - rewrite list_lookup_insert_ne by lia. exact Ht4.
  - eapply insert_this. exact Ho4.
Qed.

Lemma move_assign_spec this other w vt vo :
  this <> other ->
  objs w !! this = Some vt -> objs w !! other = Some vo ->
  exists w',
    move_assign this other w = Done tt w' /\
    mem w' = mem w /\
    objs w' !! this = Some (FV (m_data vo) (m_size vo) (m_size vo)) /\
    objs w' !! other = Some (with_data nullptr vo).
Proof.
  intros Hne Ht1 Ho1. destruct w as [os h]. simpl in *.
  unfold move_assign.
  rewrite (bind_done _ _ _ _ _
             (copy_field this other m_data with_data (World _ h) _ _ Ht1 Ho1)).
  cbn [objs mem].
  pose proof (insert_this _ this (with_data (m_data vo) vt) _ Ht1) as Ht2.
  pose proof (insert_other _ this other (with_data (m_data vo) vt) _ Hne Ho1) as Ho2.
  rewrite (bind_done _ _ _ _ _
             (copy_field this other m_size with_size (World _ h) _ _ Ht2 Ho2)).
  cbn [objs mem].
  match type of Ht2 with ?os2 !! _ = Some ?v2 =>
    pose proof (insert_this os2 this (with_size (m_size vo) v2) _ Ht2) as Ht3;
    pose proof (insert_other os2 this other (with_size (m_size vo) v2) _ Hne Ho2)
      as Ho3
  end.
  rewrite (bind_done _ _ _ _ _
             (copy_field this other m_size with_capacity (World _ h) _ _ Ht3 Ho3)).
  cbn [objs mem].
  match type of Ht3 with ?os3 !! _ = Some ?v3 =>
    pose proof (insert_this os3 this (with_capacity (m_size vo) v3) _ Ht3) as Ht4;
    pose proof (insert_other os3 this other (with_capacity (m_size vo) v3) _ Hne Ho3)
      as Ho4
  end.
  rewrite (wr_ok other with_data nullptr (World _ h) _ Ho4).
  cbn [objs mem].
  eexists. split; [reflexivity|]. split; [reflexivity|]. cbn [objs].
  split.
  - rewrite list_lookup_insert_ne by congruence. exact Ht4.
  - eapply insert_this. exact Ho4.
Qed.

(** [v = std::move(v)]: the object ends up without its region. *)
Lemma move_assign_self this w v :
  objs w !! this = Some v ->
  exists w',
    move_assign this this w = Done tt w' /\
    mem w' = mem w /\
    objs w' !! this = Some (FV nullptr (m_size v) (m_size v)).
Proof.
  intros Ht1. destruct w as [os h]. simpl in *.
  unfold move_assign.
  rewrite (bind_done _ _ _ _ _
             (copy_field this this m_data with_data (World _ h) _ _ Ht1 Ht1)).
  cbn [objs mem].
  pose proof (insert_this _ this (with_data (m_data v) v) _ Ht1) as Ht2.
  rewrite (bind_done _ _ _ _ _
             (copy_field this this m_size with_size (World _ h) _ _ Ht2 Ht2)).
  cbn [objs mem].
  match type of Ht2 with ?os2 !! _ = Some ?v2 =>
    pose proof (insert_this os2 this (with_size (m_size v2) v2) _ Ht2) as Ht3
  end.
  rewrite (bind_done _ _ _ _ _
             (copy_field this this m_size with_capacity (World _ h) _ _ Ht3 Ht3)).
  cbn [objs mem].
  match type of Ht3 with ?os3 !! _ = Some ?v3 =>
    pose proof (insert_this os3 this (with_capacity (m_size v3) v3) _ Ht3) as Ht4
  end.
  rewrite (wr_ok this with_data nullptr (World _ h) _ Ht4).
  cbn [objs mem].
  eexists. split; [reflexivity|]. split; [reflexivity|]. cbn [objs].
  eapply insert_this. exact Ht4.
Qed.

(** ** The destructor *)

Lemma dtor_null v h : m_data v = nullptr -> dtor v h = Done tt h.
Proof. intros Hd. unfold dtor. now rewrite Hd. Qed.

Lemma dtor_holds h v l :
  holds h v l ->
  exists h',
    dtor v h = Done tt h' /\
    destroyed h' = destroyed h ++ (if is_trivial then [] else l).
Proof.
  intros Hh.
  destruct (holds_inv _ _ _ Hh) as [[-> ->] | (a & b & -> & Ha & Hcap & Hs)].
  - exists h. split; [reflexivity|]. destruct is_trivial; now rewrite app_nil_r.
  - unfold dtor, begin. rewrite end_elem. cbn [m_data is_null elem base].
    destruct is_trivial; cbn [negb].
    + rewrite bind_done with (x := tt) (s' := h) by reflexivity.
      rewrite (free_ok h a b Ha). eexists. split; [reflexivity|].
      simpl. now rewrite app_nil_r.
    + fold (elem a 0).
      rewrite (bind_done _ _ _ _ _ (destruct_range_spec l h a b 0 Ha Hs)).
      match goal with |- context [free _ ?s] => set (h1 := s) end.
      assert (exists b1, live h1 a b1) as [b1 Ha1].
      { eexists. unfold h1, live. simpl. apply list_lookup_insert_eq.
        now apply live_lt with (b := b). }
      rewrite (free_ok h1 a b1 Ha1). eexists. split; reflexivity.
Qed.

Lemma holds_moved h vo l c :
  holds h vo l -> c = m_size vo \/ c = m_capacity vo ->
  holds h (FV (m_data vo) (m_size vo) c) l.
Proof.
  intros [[Hs Hl Ho Hd] Hc] Hcap. split.
  - split; cbn; [lia | destruct Hcap; subst; nia | exact Ho |].
    destruct (base (m_data vo)); [|lia].
    destruct Hd as (b & Hb & Hle). exists b. split; [exact Hb | lia].
  - exact Hc.
Qed.

Lemma run_dtor_null this w v :
  objs w !! this = Some v -> m_data v = nullptr -> run_dtor this w = Done tt w.
Proof.
  intros Hv Hd. unfold run_dtor.
  rewrite (query_done this dtor w v tt (mem w) Hv (dtor_null v (mem w) Hd)).
  now rewrite world_eta.
Qed.

Lemma run_dtor_holds this w v l :
  objs w !! this = Some v -> holds (mem w) v l ->
  exists h',
    run_dtor this w = Done tt (World (objs w) h') /\
    destroyed h' = destroyed (mem w) ++ (if is_trivial then [] else l).
Proof.
  intros Hv Hh. destruct (dtor_holds _ _ _ Hh) as (h' & Hrun & Hlog).
  exists h'. split; [|exact Hlog].
  unfold run_dtor. now apply query_done with (v := v).
Qed.

(** After a move: the source's destructor does nothing and the
    destination's destructor destroys each moved element once. *)
Lemma destroy_after_move w w' this other vo vo' l c :
  mem w' = mem w -> holds (mem w) vo l ->
  objs w' !! other = Some vo' -> m_data vo' = nullptr ->
  objs w' !! this = Some (FV (m_data vo) (m_size vo) c) ->
  c = m_size vo \/ c = m_capacity vo ->
  exists w'',
    destroy_both other this w' = Done tt w'' /\
    destroyed (mem w'') =
      destroyed (mem w) ++ (if is_trivial then [] else l).
Proof.
  intros Hmem Hh Ho Hnull Ht Hc. unfold destroy_both.
  rewrite (bind_done _ _ _ _ _ (run_dtor_null other w' vo' Ho Hnull)).
  destruct (run_dtor_holds this w' _ l Ht) as (h'' & Hrun & Hlog).
  { rewrite Hmem. now apply holds_moved. }
  rewrite Hrun. eexists. split; [reflexivity|]. simpl. now rewrite Hlog, Hmem.
Qed.

(** C5, as the code has it. A move construction or move assignment leaves
    its source without a region ([data() == nullptr]) but with [size()] as it
    was before the move, not 0.  When source and destination are then destroyed,
    the source's destructor does nothing and the destructor of every moved
    element runs exactly once (never for a trivial [T], and never at all
    when an object is move-assigned to itself), so no element is destructed
    twice. *)
Theorem C5_move_source_keeps_size (w : world) (other : nat) vo l :
  objs w !! other = Some vo ->
  holds (mem w) vo l ->
  (exists this w' vo' w'',
     move_ctor other w = Done this w' /\
     objs w' !! other = Some vo' /\ moved_from vo vo' /\
     destroy_both other this w' = Done tt w'' /\
     destroyed (mem w'') =
       destroyed (mem w) ++ (if is_trivial then [] else l)) /\
  (forall this vt,
     objs w !! this = Some vt ->
     exists w' vo' w'',
       move_assign this other w = Done tt w' /\
       objs w' !! other = Some vo' /\ moved_from vo vo' /\
       destroy_both other this w' = Done tt w'' /\
       destroyed (mem w'') =
         destroyed (mem w) ++
         (if is_trivial then []
          else if bool_decide (this = other) then [] else l)).
Proof.
  intros Ho Hh. split.
  - destruct (move_ctor_spec other w vo Ho) as (w' & Hrun & Hmem & Ht' & Ho').
    destruct (destroy_after_move w w' (length (objs w)) other vo _ l _
                Hmem Hh Ho' eq_refl Ht' (or_intror eq_refl))
      as (w'' & Hd & Hlog).
    exists (length (objs w)), w', (with_data nullptr vo), w''.
    repeat split; assumption.
  - intros this vt Ht.
    destruct (decide (this = other)) as [->|Hne].
    + rewrite bool_decide_true by reflexivity.
      destruct (move_assign_self other w vo Ho) as (w' & Hrun & Hmem & Ho').
      exists w', (FV nullptr (m_size vo) (m_size vo)), w'.
      split; [exact Hrun|]. split; [exact Ho'|].
      split; [split; reflexivity|]. split.
      * unfold destroy_both.
        rewrite (bind_done _ _ _ _ _ (run_dtor_null other w' _ Ho' eq_refl)).
        now apply run_dtor_null with (v := FV nullptr (m_size vo) (m_size vo)).
      * rewrite Hmem. destruct is_trivial; now rewrite app_nil_r.
    + rewrite bool_decide_false by exact Hne.
      destruct (move_assign_spec this other w vt vo Hne Ht Ho)
        as (w' & Hrun & Hmem & Ht' & Ho').
      destruct (destroy_after_move w w' this other vo _ l _
                  Hmem Hh Ho' eq_refl Ht' (or_introl eq_refl))
        as (w'' & Hd & Hlog).
      exists w', (with_data nullptr vo), w''.
      repeat split; assumption.
Qed.

(** Move construction hands over region, size and capacity. *)
Lemma move_ctor_transfers w other vo l :
  objs w !! other = Some vo -> holds (mem w) vo l ->
  exists this w' v',
    move_ctor other w = Done this w' /\
    objs w' !! this = Some v' /\
    size v' = size vo /\ capacity v' = capacity vo /\
    iterate v' (mem w') = Done l (mem w').
Proof.
  intros Ho Hh.
  destruct (move_ctor_spec other w vo Ho) as (w' & Hrun & Hmem & Ht' & _).
  eexists _, w', _. split; [exact Hrun|]. split; [exact Ht'|].
  split; [reflexivity|]. split; [reflexivity|].
  apply iterate_holds. rewrite Hmem. apply holds_moved; [exact Hh | now right].
Qed.

(** Move assignment hands over region and size, and records the source's
    size as the capacity. *)
Lemma move_assign_transfers w this other vt vo l :
  this <> other ->
  objs w !! this = Some vt -> objs w !! other = Some vo -> holds (mem w) vo l ->
  exists w' v',
    move_assign this other w = Done tt w' /\
    objs w' !! this = Some v' /\
    size v' = size vo /\ capacity v' = size vo /\
    iterate v' (mem w') = Done l (mem w').
Proof.
  intros Hne Ht Ho Hh.
  destruct (move_assign_spec this other w vt vo Hne Ht Ho)
    as (w' & Hrun & Hmem & Ht' & _).
  eexists w', _. split; [exact Hrun|]. split; [exact Ht'|].
  split; [reflexivity|]. split; [reflexivity|].
  apply iterate_holds. rewrite Hmem. apply holds_moved; [exact Hh | now left].
Qed.

(** ** Copy construction and copy assignment *)

Lemma holds_preserved h h' v l :
  holds h v l ->
  (forall a, base (m_data v) = Some a -> blocks h' !! a = blocks h !! a) ->
  holds h' v l.
Proof.
  intros [[Hs Hl Ho Hd] Hc] Hsame. split.
  - split; try assumption.
    destruct (base (m_data v)) as [a|]; [|exact Hd].
    destruct Hd as (b & Hb & Hle). exists b. split; [|exact Hle].
    unfold live. now rewrite Hsame.
  - unfold contents, storage in *.
    destruct (base (m_data v)) as [a|]; [|exact Hc].
    now rewrite Hsame.
Qed.

(** The element-copying step shared by the two copy operations. *)
Lemma copy_elements h vo l N (bN : list (option T)) :
  holds h vo l -> live h N bN -> base (m_data vo) <> Some N ->
  (length l <= length bN)%nat ->
  (if is_trivial
   then memcpy (elem N 0) (m_data vo) (wrap (sizeof_T * m_size vo))
   else copy_range (begin vo) (end_ vo) (elem N 0)) h =
  Done tt (set_block N (Some ((Some <$> l) ++ drop (length l) bN)) h).
Proof.
  intros Hh HN Hne Hlen.
  pose proof (holds_size _ _ _ Hh) as Hsz.
  pose proof (proj1 Hh) as [Hsc Hlim _ _].
  assert (sizeof_T * m_size vo <= heap_limit) as Hb by nia.
  rewrite (wrap_bytes (m_size vo) ltac:(lia) Hb).
  rewrite memcpy_apart by (simpl; congruence). rewrite slots_bytes by lia.
  destruct (holds_inv _ _ _ Hh) as [[-> ->] | (a & b & Hv & Ha & Hcap & Hs)].
  - change (set_block N (Some ((Some <$> []) ++ drop (length (@nil T)) bN)) h)
      with (set_block N (Some bN) h).
    rewrite (set_block_id _ _ _ HN). now destruct is_trivial.
  - rewrite Hv in *. cbn [m_data m_size base elem] in *.
    rewrite Nat2Z.id. unfold begin. rewrite end_elem. cbn [m_data].
    destruct is_trivial.
    + pose proof (memcpy_loop_spec (Some <$> l) h a b 0 N bN 0 Ha HN
                    ltac:(congruence)) as Hm.
      rewrite length_fmap in Hm. apply Hm; [exact Hs | lia].
    + apply (copy_range_spec l h a b 0 N bN 0 Ha HN ltac:(congruence) Hs
               ltac:(lia)).
Qed.

Lemma copy_assign_run this other w vt vo l :
  this <> other ->
  objs w !! this = Some vt -> objs w !! other = Some vo ->
  holds (mem w) vo l ->
  exists w' v',
    copy_assign this other w = Done tt w' /\
    objs w' !! this = Some v' /\
    objs w' !! other = Some vo /\
    holds (mem w') v' l /\
    holds (mem w') vo l /\
    m_capacity v' = m_size vo /\
    base (m_data v') <> base (m_data vo) /\
    destroyed (mem w') = destroyed (mem w) /\
    (forall a, (a < length (blocks (mem w)))%nat ->
               blocks (mem w') !! a = blocks (mem w) !! a) /\
    base (m_data v') = Some (length (blocks (mem w))).
Proof.
  intros Hne Ht1 Ho1 Hh. destruct w as [os h]. cbn [objs mem] in *.
  pose proof (holds_size _ _ _ Hh) as Hsz.
  pose proof (proj1 Hh) as [Hsc Hlim _ _].
  assert (sizeof_T * m_size vo <= heap_limit) as Hb by nia.
  unfold copy_assign.
  rewrite (bind_done _ _ _ _ _
             (copy_field this other m_size with_size (World _ h) _ _ Ht1 Ho1)).
  cbn [objs mem].
  pose proof (insert_this _ this (with_size (m_size vo) vt) _ Ht1) as Ht2.
  pose proof (insert_other _ this other (with_size (m_size vo) vt) _ Hne Ho1) as Ho2.
  rewrite (bind_done _ _ _ _ _
             (copy_field this other m_size with_capacity (World _ h) _ _ Ht2 Ho2)).
  cbn [objs mem].
  match type of Ht2 with ?os2 !! _ = Some ?v2 =>
    pose proof (insert_this os2 this (with_capacity (m_size vo) v2) _ Ht2) as Ht3;
    pose proof (insert_other os2 this other (with_capacity (m_size vo) v2) _ Hne Ho2)
      as Ho3
  end.
  (* m_data = malloc(sizeof(T) * m_size) *)
  set (N := length (blocks h)).
  set (h1 := Heap (blocks h ++ [Some (replicate (Z.to_nat (m_size vo)) None)])
                  (destroyed h)).
  match type of Ht3 with ?os3 !! _ = Some ?v3 =>
    assert ((s <- rd this m_size ;;
             p <- lift (malloc (wrap (sizeof_T * s))) ;;
             wr this with_data p) (World os3 h)
            = Done tt (World (<[this := with_data (elem N 0) v3]> os3) h1)) as Halloc
  end.
  { rewrite (bind_done _ _ _ _ _ (rd_ok this m_size (World _ h) _ Ht3)).
    cbn [m_size with_capacity with_size].
    rewrite (wrap_bytes (m_size vo) ltac:(lia) Hb).
    rewrite (bind_done _ _ _ _ _
               (lift_done _ (World _ h) _ _ (malloc_ok h _ Hb))).
    rewrite slots_bytes by lia.
    now rewrite (wr_ok this with_data _ (World _ _) _ Ht3). }
  rewrite (bind_done _ _ _ _ _ Halloc). clear Halloc.
  match type of Ht3 with ?os3 !! _ = Some ?v3 =>
    pose proof (insert_this os3 this (with_data (elem N 0) v3) _ Ht3) as Ht4;
    pose proof (insert_other os3 this other (with_data (elem N 0) v3) _ Hne Ho3)
      as Ho4
  end.
  match type of Ht4 with _ = Some ?v4 =>
    change v4 with (FV (elem N 0) (m_size vo) (m_size vo)) in Ht4
  end.
  (* the element copy *)
  assert (live h1 N (replicate (Z.to_nat (m_size vo)) None)) as HN
    by (destruct h; apply live_new).
  assert (forall a, base (m_data vo) = Some a -> (a < N)%nat) as Hold.
  { intros a Ha. pose proof (wf_data _ _ (proj1 Hh)) as Hd. rewrite Ha in Hd.
    destruct Hd as (b & Hb' & _). now apply live_lt with (b := b). }
  assert (holds h1 vo l) as Hh1.
  { apply (holds_preserved h); [exact Hh|]. intros a Ha. simpl.
    apply lookup_app_l. now apply Hold. }
  assert (base (m_data vo) <> Some N) as HneN
    by (intros Heq; apply Hold in Heq; lia).
  pose proof (copy_elements h1 vo l N _ Hh1 HN HneN
                ltac:(rewrite length_replicate; lia)) as Hcopy.
  rewrite drop_ge, app_nil_r in Hcopy by (rewrite length_replicate; lia).
  match goal with |- context [World ?os4 h1] =>
    assert ((if is_trivial then
               d <- rd this m_data ;;
               src <- rd other m_data ;;
               s <- rd this m_size ;;
               lift (memcpy d src (wrap (sizeof_T * s)))
             else
               b <- rd other begin ;;
               e <- rd other end_ ;;
               d <- rd this m_data ;;
               lift (copy_range b e d)) (World os4 h1)
            = Done tt (World os4 (set_block N (Some (Some <$> l)) h1))) as Hbody
  end.
  { destruct is_trivial.
    - rewrite (bind_done _ _ _ _ _ (rd_ok this m_data (World _ h1) _ Ht4)).
      rewrite (bind_done _ _ _ _ _ (rd_ok other m_data (World _ h1) _ Ho4)).
      rewrite (bind_done _ _ _ _ _ (rd_ok this m_size (World _ h1) _ Ht4)).
      cbn [m_data m_size]. now apply lift_done.
    - rewrite (bind_done _ _ _ _ _ (rd_ok other begin (World _ h1) _ Ho4)).
      rewrite (bind_done _ _ _ _ _ (rd_ok other end_ (World _ h1) _ Ho4)).
      rewrite (bind_done _ _ _ _ _ (rd_ok this m_data (World _ h1) _ Ht4)).
      cbn [m_data]. now apply lift_done. }
  rewrite Hbody. clear Hbody.
  eexists _, _. split; [reflexivity|]. cbn [objs mem].
  split; [exact Ht4|]. split; [exact Ho4|].
  split.
  { rewrite Hsz. eapply holds_intro.
    - eapply set_block_live_eq. exact HN.
    - lia.
    - rewrite length_fmap. lia.
    - rewrite <- Hsz. exact Hb.
    - rewrite <- (length_fmap Some l). apply take_ge. lia. }
  split.
  { apply (holds_preserved h1); [exact Hh1|]. intros a Ha. simpl.
    apply list_lookup_insert_ne. apply Hold in Ha. lia. }
  split; [reflexivity|]. split.
  { cbn. intros Heq. symmetry in Heq. now apply HneN. }
  split; [reflexivity|]. split; [|reflexivity].
  intros a Ha. simpl. fold N in Ha.
  rewrite list_lookup_insert_ne by lia. now apply lookup_app_l.
Qed.

Lemma copy_assign_spec this other w vt vo l :
  this <> other ->
  objs w !! this = Some vt -> objs w !! other = Some vo ->
  holds (mem w) vo l ->
  exists w' v',
    copy_assign this other w = Done tt w' /\
    objs w' !! this = Some v' /\
    objs w' !! other = Some vo /\
    holds (mem w') v' l /\
    holds (mem w') vo l /\
    m_capacity v' = m_size vo /\
    base (m_data v') <> base (m_data vo) /\
    destroyed (mem w') = destroyed (mem w).
Proof.
  intros Hne Ht Ho Hh.
  destruct (copy_assign_run this other w vt vo l Hne Ht Ho Hh)
    as (w' & v' & H1 & H2 & H3 & H4 & H5 & H6 & H7 & H8 & _).
  exists w', v'.
  split; [exact H1|]. split; [exact H2|]. split; [exact H3|].
  split; [exact H4|]. split; [exact H5|]. split; [exact H6|].
  split; [exact H7 | exact H8].
Qed.

Lemma bind_assoc {S A B C} (m : M S A) (k : A -> M S B) (k' : B -> M S C) s :
  bind (bind m k) k' s = bind m (fun x => bind (k x) k') s.
Proof. unfold bind. now destruct (m s). Qed.

Lemma bind_ext {S A B} (m : M S A) (k k' : A -> M S B) s :
  (forall x s', k x s' = k' x s') -> bind m k s = bind m k' s.
Proof. intros Hk. unfold bind. destruct (m s); [apply Hk | |]; reflexivity. Qed.

(** The body of the copy constructor is that of copy assignment, run on a
    new object. *)
Lemma copy_ctor_unfold other w :
  copy_ctor other w =
  (this <- new_object ;; copy_assign this other ;;; ret this) w.
Proof.
  unfold copy_ctor, copy_assign. apply bind_ext. intros this s.
  symmetry. rewrite bind_assoc. apply bind_ext. intros _ s1.
  rewrite bind_assoc. apply bind_ext. intros _ s2.
  rewrite bind_assoc. reflexivity.
Qed.

Lemma copy_assign_copy_of this other w vt vo l :
  this <> other ->
  objs w !! this = Some vt -> objs w !! other = Some vo ->
  holds (mem w) vo l ->
  exists w', copy_assign this other w = Done tt w' /\ copy_of w' this other vo l.
Proof.
  intros Hne Ht Ho Hh.
  destruct (copy_assign_spec this other w vt vo l Hne Ht Ho Hh)
    as (w' & v' & Hrun & Ht' & Ho' & Hh' & Hho' & Hcap & Hbase & _).
  exists w'. split; [exact Hrun|]. exists v'.
  pose proof (holds_size _ _ _ Hh) as Hsz.
  pose proof (holds_size _ _ _ Hh') as Hsz'.
  unfold size, capacity, data.
  split; [exact Ht'|]. split; [lia|]. split; [exact Hcap|].
  split; [now apply iterate_holds|]. split; [exact Hbase|].
  split; [exact Ho' | now apply iterate_holds].
Qed.

(** C7, as the code has it. Copy construction, and copy assignment to an
    object other than the source, give a destination with the source's
    elements in order in a region of its own, [size()] equal to the source's
    [size()] and [capacity()] equal to the source's [size()], whatever slack
    the source has; the source keeps its fields and its elements. *)
Theorem C7_copy (w : world) (other : nat) vo l :
  objs w !! other = Some vo ->
  holds (mem w) vo l ->
  (exists this w',
     copy_ctor other w = Done this w' /\ copy_of w' this other vo l) /\
  (forall this vt,
     this <> other -> objs w !! this = Some vt ->
     exists w',
       copy_assign this other w = Done tt w' /\ copy_of w' this other vo l).
Proof.
  intros Ho Hh. split.
  - pose proof (lookup_lt_Some _ _ _ Ho) as Hlt.
    rewrite copy_ctor_unfold.
    rewrite bind_done with (x := length (objs w))
                           (s' := World (objs w ++ [default_ctor]) (mem w))
      by reflexivity.
    destruct (copy_assign_copy_of (length (objs w)) other
                (World (objs w ++ [default_ctor]) (mem w)) default_ctor vo l)
      as (w' & Hrun & Hcopy); cbn [objs mem].
    + lia.
    + now rewrite lookup_app_r, Nat.sub_diag by lia.
    + now rewrite lookup_app_l.
    + exact Hh.
    + exists (length (objs w)), w'. rewrite (bind_done _ _ _ _ _ Hrun).
      split; [reflexivity | exact Hcopy].
  - intros this vt Hne Ht. now apply copy_assign_copy_of with (vt := vt).
Qed.

(** * Further properties of the operations *)

(** ** pop_back and clear *)

Lemma holds_last h v l x :
  holds h v (l ++ [x]) ->
  exists a (b : list (option T)),
    v = FV (elem a 0) (Z.of_nat (S (length l))) (m_capacity v) /\
    live h a b /\ m_capacity v <= Z.of_nat (length b) /\
    take (length l) b = Some <$> l /\ b !! length l = Some (Some x).
Proof.
  intros Hh.
  destruct (holds_inv _ _ _ Hh) as [[_ Hl] | (a & b & Hv & Ha & Hcap & Hs)].
  { destruct l; discriminate. }
  exists a, b. rewrite length_app in Hv. simpl in Hv.
  replace (length l + 1)%nat with (S (length l)) in Hv by lia.
  split; [exact Hv|]. split; [exact Ha|]. split; [exact Hcap|].
  destruct (prefix_split b l [] x Hs) as [Hs1 _].
  split; [exact Hs1|].
  assert (take (length (l ++ [x])) b !! length l = Some (Some x)) as Hx.
  { rewrite Hs, list_lookup_fmap.
    rewrite lookup_app_r by lia. now rewrite Nat.sub_diag. }
  rewrite lookup_take_lt in Hx by (rewrite length_app; simpl; lia).
  exact Hx.
Qed.

Lemma pop_back_spec h v l x :
  holds h v (l ++ [x]) ->
  exists h',
    pop_back v h = Done (with_size (m_size v - 1) v) h' /\
    holds h' (with_size (m_size v - 1) v) l /\
    destroyed h' = destroyed h ++ (if is_trivial then [] else [x]) /\
    frame (m_data v) h h' /\
    length (blocks h') = length (blocks h) /\
    (is_trivial = true -> h' = h).
Proof.
  intros Hh.
  pose proof (proj1 Hh) as [Hsc Hlim _ _].
  destruct (holds_last _ _ _ _ Hh) as (a & b & Hv & Ha & Hcap & Hs & Hx).
  rewrite Hv in *. cbn [m_size m_capacity m_data] in *. clear Hv.
  set (cap := m_capacity v) in *.
  unfold pop_back. cbn [m_size m_data].
  assert ((Z.of_nat (S (length l)) >? 0) = true) as Hpos by (apply Z.gtb_lt; lia).
  rewrite (bind_done _ _ _ _ _ (assert_true _ ContainerNotEmpty h Hpos)).
  assert (wrap (Z.of_nat (S (length l)) - 1) = Z.of_nat (length l)) as ->.
  { rewrite wrap_small; [lia|].
    pose proof (limit_small cap ltac:(lia) Hlim).
    change (SIZE_MOD / 2) with 9223372036854775808 in *. unfold SIZE_MOD. lia. }
  replace (Z.of_nat (S (length l)) - 1) with (Z.of_nat (length l)) by lia.
  change (ptr_add (elem a 0) (Z.of_nat (length l))) with (elem a (length l)).
  pose proof (lookup_lt_Some _ _ _ Hx) as Hlt.
  destruct is_trivial; cbn [negb]; cbv iota.
  - rewrite bind_done with (x := tt) (s' := h) by reflexivity.
    exists h. split; [reflexivity|].
    split; [apply holds_intro with (b := b); try assumption;
            cbn [m_capacity]; lia|].
    split; [now rewrite app_nil_r|].
    split; [intros a' _ _; reflexivity|]. split; [reflexivity|].
    intros _. reflexivity.
  - rewrite (bind_done _ _ _ _ _ (destroy_elem h a (length l) b x Ha Hx)).
    eexists. split; [reflexivity|].
    split.
    { eapply holds_intro; [| | |exact Hlim|].
      - unfold live. simpl. apply list_lookup_insert_eq.
        now apply live_lt with (b := b).
      - cbn [m_capacity]. lia.
      - cbn [m_capacity]. rewrite length_insert. lia.
      - rewrite take_insert_ge by lia. exact Hs. }
    split; [reflexivity|].
    split; [intros a' Hne _; simpl in *; apply list_lookup_insert_ne; congruence|].
    split; [simpl; now rewrite length_insert | discriminate].
Qed.

Lemma pop_back_empty v h :
  m_size v = 0 -> pop_back v h = Abort (AssertionFailed ContainerNotEmpty).
Proof. intros Hs. unfold pop_back. now rewrite Hs. Qed.

(** X1. [pop_back()] on a well-formed buffer stops on the assertion
    "Container is empty" exactly when the buffer holds no element;
    otherwise it removes the last element and nothing else: the other
    elements, [capacity()] and the region stay, [size()] drops by one, and
    for a non-trivial [T] the destructor of the removed element runs
    once. *)
Theorem X1_pop_back (h : heap) (v : fast_vector) (l : list T) :
  holds h v l ->
  (pop_back v h = Abort (AssertionFailed ContainerNotEmpty) <-> l = []) /\
  (forall l' x, l = l' ++ [x] ->
   exists v' h',
     pop_back v h = Done v' h' /\
     holds h' v' l' /\
     size v' = size v - 1 /\ capacity v' = capacity v /\ data v' = data v /\
     destroyed h' = destroyed h ++ (if is_trivial then [] else [x])).
Proof.
  intros Hh. split.
  - split.
    + intros Hrun. destruct l as [|y l0] using rev_ind; [reflexivity|].
      destruct (pop_back_spec h v l0 y Hh) as (h' & Hpop & _).
      rewrite Hpop in Hrun. discriminate.
    + intros ->. apply pop_back_empty. now rewrite (holds_size _ _ _ Hh).
  - intros l' x ->.
    destruct (pop_back_spec h v l' x Hh) as (h' & Hpop & Hh' & Hlog & _).
    eexists _, h'. split; [exact Hpop|]. split; [exact Hh'|].
    repeat split. exact Hlog.
Qed.

(** X2. [push_back(x)] followed by [pop_back()] gives back the elements and
    the [size()] the buffer had; [capacity()] is the same or, when the
    buffer was full, has grown to [2 * capacity() + 1]. *)
Theorem X2_push_back_pop_back (h : heap) (v : fast_vector) (l : list T) (x : T) :
  holds h v l ->
  size v < capacity v \/ sizeof_T * (2 * capacity v + 1) <= heap_limit ->
  exists v' h',
    (v1 <- push_back x v ;; pop_back v1) h = Done v' h' /\
    holds h' v' l /\
    size v' = size v /\
    capacity v' =
      (if size v =? capacity v then 2 * capacity v + 1 else capacity v).
Proof.
  intros Hh Hroom.
  destruct (push_back_spec h v l x Hh Hroom)
    as (v1 & h1 & Hpb & Hh1 & Hcap1 & _).
  destruct (pop_back_spec h1 v1 l x Hh1) as (h2 & Hpop & Hh2 & _).
  pose proof (holds_size _ _ _ Hh) as Hsz.
  pose proof (holds_size _ _ _ Hh2) as Hsz2.
  eexists _, h2. rewrite (bind_done _ _ _ _ _ Hpb).
  split; [exact Hpop|]. split; [exact Hh2|].
  unfold size, capacity. split; [lia | exact Hcap1].
Qed.

Lemma clear_spec h v l :
  holds h v l ->
  exists h',
    clear v h = Done (with_size 0 v) h' /\
    holds h' (with_size 0 v) [] /\
    destroyed h' = destroyed h ++ (if is_trivial then [] else l) /\
    (is_trivial = true -> h' = h).
Proof.
  intros Hh.
  pose proof (proj1 Hh) as [Hsc Hlim _ _].
  destruct (holds_inv _ _ _ Hh) as [[-> ->] | (a & b & Hv & Ha & Hcap & Hs)].
  - exists h. split; [unfold clear; now destruct is_trivial|].
    split; [apply holds_default|].
    split; [destruct is_trivial; now rewrite app_nil_r | reflexivity].
  - rewrite Hv in *. cbn [m_size m_capacity m_data] in *. clear Hv.
    set (cap := m_capacity v) in *.
    unfold clear, begin. rewrite end_elem. cbn [m_data].
    destruct is_trivial; cbn [negb]; cbv iota.
    + rewrite bind_done with (x := tt) (s' := h) by reflexivity.
      exists h. split; [reflexivity|].
      split; [apply (holds_intro h a b []);
              [assumption | simpl; lia | assumption | assumption | reflexivity]|].
      split; [now rewrite app_nil_r | reflexivity].
    + rewrite (bind_done _ _ _ _ _ (destruct_range_spec l h a b 0 Ha Hs)).
      eexists. split; [reflexivity|].
      split; [|split; [reflexivity | discriminate]].
      eapply (holds_intro _ a _ []).
      * unfold live. simpl. apply list_lookup_insert_eq.
        now apply live_lt with (b := b).
      * simpl. lia.
      * simpl. rewrite length_app, length_replicate, length_drop. lia.
      * exact Hlim.
      * reflexivity.
Qed.

(** X3. [clear()] on a well-formed buffer empties it and keeps the region:
    afterwards [size() == 0] and [empty()], [capacity()] and [data()] are
    as before, and for a non-trivial [T] the destructor of every element has
    run once, front to back; for a trivial [T] the heap is untouched. *)
Theorem X3_clear (h : heap) (v : fast_vector) (l : list T) :
  holds h v l ->
  exists v' h',
    clear v h = Done v' h' /\
    holds h' v' [] /\
    size v' = 0 /\ empty v' = true /\
    capacity v' = capacity v /\ data v' = data v /\
    destroyed h' = destroyed h ++ (if is_trivial then [] else l) /\
    (is_trivial = true -> h' = h).
Proof.
  intros Hh. destruct (clear_spec h v l Hh) as (h' & Hrun & Hh' & Hlog & Ht).
  eexists _, h'. split; [exact Hrun|]. split; [exact Hh'|].
  repeat split; assumption.
Qed.

Lemma ptr_add_0 p : ptr_add p 0 = p.
Proof. destruct p as [b o]. unfold ptr_add. simpl. f_equal. lia. Qed.

(** X4. [resize(0)] and [clear()] are the same operation: on every buffer
    (with fields in the range of [size_type]) they end in the same outcome,
    with the same buffer and the same heap. *)
Theorem X4_resize_zero_is_clear (h : heap) (v : fast_vector) :
  0 <= m_size v -> 0 <= m_capacity v ->
  resize 0 v h = clear v h.
Proof.
  intros Hs Hc. unfold resize, clear, begin, end_.
  destruct (Z.eqb_spec 0 (m_size v)) as [Heq|Hne].
  - rewrite <- Heq, ptr_add_0.
    assert (destruct_range (m_data v) (m_data v) h = Done tt h) as Hd.
    { unfold destruct_range, distance.
      rewrite bool_decide_true by reflexivity.
      rewrite (proj2 (Z.leb_le _ _)) by lia. simpl.
      now rewrite Z.sub_diag. }
    assert (with_size 0 v = v) as -> by (destruct v; simpl in *; now subst).
    destruct is_trivial; [reflexivity|]. cbn [negb].
    now rewrite (bind_done _ _ _ _ _ Hd).
  - destruct (Z.gtb_spec 0 (m_capacity v)) as [Hgt|_]; [lia|].
    rewrite bind_done with (x := v) (s' := h) by reflexivity.
    destruct (Z.gtb_spec 0 (m_size v)) as [Hgt|_]; [lia|].
    destruct (Z.ltb_spec 0 (m_size v)) as [_|Hge]; [|lia].
    now rewrite ptr_add_0.
Qed.

(** ** Element access *)

Lemma subscript_in_range pos v h :
  pos < m_size v -> subscript pos v h = Done (ptr_add (m_data v) pos) h.
Proof.
  intros Hp. unfold subscript.
  now rewrite (bind_done _ _ _ _ _
    (assert_true _ PositionInRange h (proj2 (Z.ltb_lt _ _) Hp))).
Qed.

Lemma subscript_out_of_range pos v h :
  m_size v <= pos ->
  subscript pos v h = Abort (AssertionFailed PositionInRange).
Proof.
  intros Hp. unfold subscript.
  destruct (Z.ltb_spec pos (m_size v)); [lia | reflexivity].
Qed.

Lemma holds_slot h v l (i : nat) x :
  holds h v l -> l !! i = Some x ->
  exists a (b : block),
    m_data v = elem a 0 /\ live h a b /\ b !! i = Some (Some x) /\
    take (length l) b = Some <$> l /\
    m_capacity v <= Z.of_nat (length b).
Proof.
  intros Hh Hx. pose proof (lookup_lt_Some _ _ _ Hx) as Hlt.
  destruct (holds_inv _ _ _ Hh) as [[_ ->] | (a & b & Hv & Ha & Hcap & Hs)].
  { discriminate. }
  exists a, b. split; [now rewrite Hv|]. split; [exact Ha|].
  split; [|split; assumption].
  assert (take (length l) b !! i = Some (Some x)) as Hb
    by (now rewrite Hs, list_lookup_fmap, Hx).
  rewrite lookup_take_lt in Hb by exact Hlt. exact Hb.
Qed.

(** X5. [operator[](pos)] on a well-formed buffer: for [pos < size()] it
    returns the reference [data() + pos], through which element [pos] is
    read; for [pos >= size()] it stops on the assertion "Position is out of
    range" (where [at] throws), and raises no exception. *)
Theorem X5_subscript (h : heap) (v : fast_vector) (l : list T) (pos : Z) :
  holds h v l -> 0 <= pos ->
  (pos < size v ->
   exists x, l !! Z.to_nat pos = Some x /\
     subscript pos v h = Done (ptr_add (data v) pos) h /\
     (p <- subscript pos v ;; load p) h = Done x h) /\
  (size v <= pos ->
   subscript pos v h = Abort (AssertionFailed PositionInRange) /\
   at_ pos v h = Thrown range_error h).
Proof.
  intros Hh Hpos. pose proof (holds_size _ _ _ Hh) as Hsz. unfold size, data.
  split.
  - intros Hlt.
    destruct (lookup_lt_is_Some_2 l (Z.to_nat pos) ltac:(lia)) as [x Hx].
    exists x. split; [exact Hx|].
    pose proof (subscript_in_range pos v h Hlt) as Hsub.
    split; [exact Hsub|].
    rewrite (bind_done _ _ _ _ _ Hsub).
    replace pos with (Z.of_nat (Z.to_nat pos)) at 1 by lia.
    now apply holds_lookup with (l := l).
  - intros Hge. split; [now apply subscript_out_of_range|].
    apply at_out_of_range. lia.
Qed.

Lemma front_ok v h : 0 < m_size v -> front v h = Done (m_data v) h.
Proof.
  intros Hp. unfold front.
  rewrite (bind_done _ _ _ _ _
    (assert_true _ ContainerNotEmpty h (proj2 (Z.gtb_lt _ _) Hp))).
  now rewrite ptr_add_0.
Qed.

Lemma back_ok v h :
  0 < m_size v < SIZE_MOD ->
  back v h = Done (ptr_add (m_data v) (m_size v - 1)) h.
Proof.
  intros Hp. unfold back.
  rewrite (bind_done _ _ _ _ _
    (assert_true _ ContainerNotEmpty h (proj2 (Z.gtb_lt _ _) (proj1 Hp)))).
  rewrite wrap_small by lia. reflexivity.
Qed.

Lemma lookup_last (l0 : list T) : forall x d,
  (x :: l0) !! length l0 = Some (List.last (x :: l0) d).
Proof.
  induction l0 as [|y l0 IH]; intros x d; [reflexivity|].
  simpl length. rewrite lookup_cons.
  change (List.last (x :: y :: l0) d) with (List.last (y :: l0) d).
  apply IH.
Qed.

(** X6. [front()] and [back()] on a well-formed buffer: on an empty buffer
    both stop on the assertion "Container is empty"; otherwise they return
    the references [data()] and [data() + size() - 1], through which the
    first and the last element are read. *)
Theorem X6_front_back (h : heap) (v : fast_vector) (l : list T) :
  holds h v l ->
  match l with
  | [] =>
      front v h = Abort (AssertionFailed ContainerNotEmpty) /\
      back v h = Abort (AssertionFailed ContainerNotEmpty)
  | x :: _ =>
      front v h = Done (data v) h /\
      back v h = Done (ptr_add (data v) (size v - 1)) h /\
      (p <- front v ;; load p) h = Done x h /\
      (p <- back v ;; load p) h = Done (List.last l x) h
  end.
Proof.
  intros Hh. pose proof (holds_size _ _ _ Hh) as Hsz.
  pose proof (proj1 Hh) as [Hsc Hlim _ _].
  unfold data, size.
  destruct l as [|x l0].
  - unfold front, back. simpl in Hsz. rewrite Hsz. split; reflexivity.
  - assert (0 < m_size v < SIZE_MOD) as Hpos.
    { pose proof (limit_small (m_capacity v) ltac:(lia) Hlim).
      change (SIZE_MOD / 2) with 9223372036854775808 in *. unfold SIZE_MOD.
      rewrite Hsz in *. simpl length in *. lia. }
    pose proof (front_ok v h (proj1 Hpos)) as Hf.
    pose proof (back_ok v h Hpos) as Hb.
    split; [exact Hf|]. split; [exact Hb|].
    rewrite (bind_done _ _ _ _ _ Hf), (bind_done _ _ _ _ _ Hb).
    split.
    + rewrite <- (ptr_add_0 (m_data v)).
      now apply (holds_lookup h v (x :: l0) 0 x Hh).
    + replace (m_size v - 1) with (Z.of_nat (length l0))
        by (rewrite Hsz; simpl length; lia).
      apply (holds_lookup h v (x :: l0) (length l0) _ Hh).
      apply lookup_last.
Qed.

(** X7. The reference [operator[]] returns is to the element itself: an
    assignment through it replaces element [pos] and no other, and leaves
    [size()], [capacity()] and every other block of the heap as they
    were. *)
Theorem X7_subscript_assign (h : heap) (v : fast_vector) (l : list T)
    (i : nat) (x : T) :
  holds h v l -> (i < length l)%nat ->
  exists h',
    (p <- subscript (Z.of_nat i) v ;; assign p x) h = Done tt h' /\
    holds h' v (<[i := x]> l) /\
    frame (data v) h h' /\
    destroyed h' = destroyed h.
Proof.
  intros Hh Hi. pose proof (holds_size _ _ _ Hh) as Hsz.
  pose proof (proj1 Hh) as [Hsc Hlim _ _].
  destruct (lookup_lt_is_Some_2 l i Hi) as [y Hy].
  destruct (holds_slot h v l i y Hh Hy) as (a & b & Hd & Ha & Hb & Hs & Hcap).
  rewrite (bind_done _ _ _ _ _
    (subscript_in_range (Z.of_nat i) v h ltac:(lia))).
  rewrite Hd. change (ptr_add (elem a 0) (Z.of_nat i)) with (elem a i).
  pose proof (lookup_lt_Some _ _ _ Hb) as Hib.
  unfold assign. rewrite (poke_elem h a i b (Some x) Ha Hib).
  eexists. split; [reflexivity|].
  split; [|split].
  - destruct v as [d s c]. simpl in *. subst d s.
    rewrite <- (length_insert l i x).
    apply holds_intro with (b := <[i := Some x]> b).
    + unfold live, set_block. simpl. apply list_lookup_insert_eq.
      now apply live_lt with (b := b).
    + rewrite length_insert. lia.
    + rewrite length_insert. lia.
    + exact Hlim.
    + rewrite length_insert, take_insert_lt by exact Hi.
      now rewrite Hs, list_fmap_insert.
  - intros a' Hne _. unfold data in Hne. rewrite Hd in Hne.
    unfold set_block. simpl in *. apply list_lookup_insert_ne. congruence.
  - reflexivity.
Qed.

Lemma ptr_add_same p n : ptr_add p n = p <-> n = 0.
Proof.
  destruct p as [b o]. unfold ptr_add. simpl. split.
  - intros Heq. injection Heq. lia.
  - intros ->. f_equal. lia.
Qed.

(** X8. Iterators of a well-formed buffer: [end() - begin()] is [size()],
    [begin() == end()] exactly when [empty()], which is exactly when it
    holds no element, and walking [begin()..end()] reads the elements in
    order without changing the heap. *)
Theorem X8_iterators (h : heap) (v : fast_vector) (l : list T) :
  holds h v l ->
  off (end_ v) - off (begin v) = size v /\
  base (end_ v) = base (begin v) /\
  (begin v = end_ v <-> empty v = true) /\
  (empty v = true <-> l = []) /\
  iterate v h = Done l h.
Proof.
  intros Hh. pose proof (holds_size _ _ _ Hh) as Hsz.
  unfold end_, begin, size, empty.
  split; [destruct (m_data v); simpl; lia|].
  split; [destruct (m_data v); reflexivity|].
  split; [|split].
  - rewrite Z.eqb_eq. split.
    + intros Heq. symmetry in Heq. now apply ptr_add_same in Heq.
    + intros Heq. symmetry. now apply ptr_add_same.
  - rewrite Z.eqb_eq, Hsz. split.
    + intros Hl. destruct l; [reflexivity | discriminate].
    + now intros ->.
  - now apply iterate_holds.
Qed.

(** ** Construction from an array, destruction *)

Lemma copy_array (l : list T) h a (b : block) i N (bN : block) :
  live h a b -> live h N bN -> a <> N ->
  take (length l) (drop i b) = Some <$> l ->
  (length l <= length bN)%nat ->
  sizeof_T * Z.of_nat (length l) <= heap_limit ->
  (if is_trivial
   then memcpy (elem N 0) (elem a i)
               (wrap (sizeof_T * Z.of_nat (length l)))
   else copy_range (elem a i) (elem a (i + length l)) (elem N 0)) h =
  Done tt (set_block N (Some ((Some <$> l) ++ drop (length l) bN)) h).
Proof.
  intros Ha HN Hne Hs Hlen Hb.
  rewrite (wrap_bytes (Z.of_nat (length l)) ltac:(lia) Hb).
  rewrite memcpy_apart by (simpl; congruence).
  rewrite slots_bytes by lia. rewrite Nat2Z.id.
  destruct is_trivial.
  - pose proof (memcpy_loop_spec (Some <$> l) h a b i N bN 0 Ha HN Hne) as Hm.
    rewrite length_fmap in Hm. apply Hm; [exact Hs | lia].
  - apply (copy_range_spec l h a b i N bN 0 Ha HN Hne Hs ltac:(lia)).
Qed.

Lemma range_ctor_spec (l : list T) h a (b : block) i :
  live h a b ->
  take (length l) (drop i b) = Some <$> l ->
  sizeof_T * Z.of_nat (length l) <= heap_limit ->
  exists h',
    let v' := FV (elem (length (blocks h)) 0)
                 (Z.of_nat (length l)) (Z.of_nat (length l)) in
    range_ctor (elem a i) (elem a (i + length l)) h = Done v' h' /\
    holds h' v' l /\
    (forall a', (a' < length (blocks h))%nat ->
                blocks h' !! a' = blocks h !! a') /\
    destroyed h' = destroyed h.
Proof.
  intros Ha Hs Hb. unfold range_ctor.
  pose proof (limit_small (Z.of_nat (length l)) ltac:(lia) Hb) as Hsmall.
  change (SIZE_MOD / 2) with 9223372036854775808 in Hsmall.
  replace (wrap (off (elem a (i + length l)) - off (elem a i)))
    with (Z.of_nat (length l))
    by (simpl; rewrite wrap_small; unfold SIZE_MOD; lia).
  assert (wrap (sizeof_T * Z.of_nat (length l))
          = sizeof_T * Z.of_nat (length l)) as Hw
    by (apply wrap_bytes; [lia | exact Hb]).
  cbv zeta. rewrite !Hw.
  rewrite (bind_done _ _ _ _ _ (malloc_ok h _ Hb)).
  rewrite slots_bytes by lia. rewrite Nat2Z.id.
  destruct h as [bs ds]. cbn [blocks destroyed].
  set (N := length bs).
  set (h1 := Heap (bs ++ [Some (replicate (length l) None)]) ds).
  assert (live h1 a b) as Ha1 by now apply live_old.
  assert (live h1 N (replicate (length l) None)) as HN1 by apply live_new.
  pose proof (live_lt _ _ _ Ha) as Hlt. simpl in Hlt.
  pose proof (copy_array l h1 a b i N _ Ha1 HN1 ltac:(lia) Hs
                ltac:(rewrite length_replicate; lia) Hb) as Hcopy.
  rewrite Hw in Hcopy. rewrite (bind_done _ _ _ _ _ Hcopy).
  eexists. split; [reflexivity|].
  rewrite drop_ge by (rewrite length_replicate; lia). rewrite app_nil_r.
  split; [|split].
  - apply holds_intro with (b := Some <$> l).
    + unfold live, h1, set_block. simpl. apply list_lookup_insert_eq.
      rewrite length_app. simpl. lia.
    + lia.
    + rewrite length_fmap. lia.
    + exact Hb.
    + rewrite <- (length_fmap Some l). apply firstn_all.
  - intros a' Ha'. unfold h1, set_block. simpl.
    rewrite list_lookup_insert_ne by lia. now apply lookup_app_l.
  - reflexivity.
Qed.

(** X9. The range constructor [fast_vector(a, b)] over an array of
    [b - a] objects, when the allocator grants [sizeof(T) * (b - a)] bytes:
    the new buffer holds copies of the objects in order, in a region of its
    own, with [size()] and [capacity()] both [b - a]; the array and every
    other block are as before and no destructor runs.  The constructor from
    an initializer list is the same call on the bounds of the list. *)
Theorem X9_range_ctor (l : list T) (h : heap) (a : addr)
    (b : list (option T)) (i : nat) :
  live h a b ->
  take (length l) (drop i b) = Some <$> l ->
  sizeof_T * Z.of_nat (length l) <= heap_limit ->
  exists v' h',
    range_ctor (elem a i) (elem a (i + length l)) h = Done v' h' /\
    initializer_list_ctor (elem a i) (elem a (i + length l)) h = Done v' h' /\
    holds h' v' l /\
    size v' = Z.of_nat (length l) /\ capacity v' = Z.of_nat (length l) /\
    base (data v') = Some (length (blocks h)) /\
    live h' a b /\
    (forall a', (a' < length (blocks h))%nat ->
                blocks h' !! a' = blocks h !! a') /\
    destroyed h' = destroyed h.
Proof.
  intros Ha Hs Hb.
  destruct (range_ctor_spec l h a b i Ha Hs Hb) as (h' & Hrun & Hh & Hfr & Hd).
  eexists _, h'. split; [exact Hrun|]. split; [exact Hrun|].
  split; [exact Hh|]. repeat split; try assumption.
  unfold live. rewrite Hfr by now apply live_lt with (b := b). exact Ha.
Qed.

Lemma poke_null s h : poke nullptr s h = Abort (Undefined NullAccess).
Proof. reflexivity. Qed.

(** X10. The range constructor does not check the result of [std::malloc]:
    over an array whose [sizeof(T) * (b - a)] bytes the allocator
    refuses, it writes through the null pointer (undefined behaviour), where
    [reserve] stops on its assertion. *)
Theorem X10_range_ctor_unchecked_malloc (l : list T) (h : heap) (a : addr)
    (b : list (option T)) (i : nat) :
  live h a b ->
  take (length l) (drop i b) = Some <$> l ->
  heap_limit < sizeof_T * Z.of_nat (length l) < SIZE_MOD ->
  range_ctor (elem a i) (elem a (i + length l)) h
  = Abort (Undefined NullAccess).
Proof.
  intros Ha Hs Hb. unfold range_ctor.
  assert (Z.of_nat (length l) < SIZE_MOD) as Hn by nia.
  replace (wrap (off (elem a (i + length l)) - off (elem a i)))
    with (Z.of_nat (length l))
    by (simpl; rewrite wrap_small; lia).
  cbv zeta. rewrite !(wrap_small (sizeof_T * Z.of_nat (length l))) by lia.
  assert (malloc (sizeof_T * Z.of_nat (length l)) h = Done nullptr h) as Hm.
  { unfold malloc. destruct (Z.leb_spec (sizeof_T * Z.of_nat (length l))
                                         heap_limit); [lia | reflexivity]. }
  rewrite (bind_done _ _ _ _ _ Hm).
  destruct l as [|x l0]; [simpl in Hb; lia|].
  assert (b !! i = Some (Some x)) as Hx.
  { apply (f_equal (fun s => s !! 0%nat)) in Hs. simpl in Hs.
    rewrite lookup_take_lt in Hs by lia.
    pose proof (lookup_drop b i 0) as Hd. rewrite Nat.add_0_r in Hd.
    now rewrite Hd in Hs. }
  destruct is_trivial.
  - rewrite memcpy_apart by discriminate.
    rewrite slots_bytes by lia. rewrite Nat2Z.id.
    simpl length. cbn [memcpy_loop].
    unfold bind at 1. unfold bind at 1. unfold bind at 1.
    rewrite (peek_elem h a i b _ Ha Hx). reflexivity.
  - assert (copy_range (elem a i) (elem a (i + length (x :: l0))) nullptr h
            = Abort (Undefined NullAccess)) as Hc.
    { unfold copy_range.
      rewrite (bind_done _ _ _ _ _
        (distance_elem a i (i + length (x :: l0)) h ltac:(lia))).
      replace (i + length (x :: l0) - i)%nat with (S (length l0))
        by (simpl; lia).
      cbn [copy_range_loop].
      now rewrite (bind_done _ _ _ _ _ (load_elem h a i b x Ha Hx)). }
    unfold bind at 1. now rewrite Hc.
Qed.

Lemma dtor_release h v l a :
  holds h v l -> base (m_data v) = Some a ->
  exists h',
    dtor v h = Done tt h' /\
    blocks h' = <[a := None]> (blocks h) /\
    destroyed h' = destroyed h ++ (if is_trivial then [] else l).
Proof.
  intros Hh Hbase.
  destruct (holds_inv _ _ _ Hh) as [[-> ->] | (a0 & b & Hv & Ha & Hcap & Hs)].
  { discriminate. }
  rewrite Hv in Hbase |- *. simpl in Hbase. injection Hbase as ->.
  unfold dtor, begin. rewrite end_elem. cbn [m_data is_null elem base].
  destruct is_trivial; cbn [negb].
  - rewrite bind_done with (x := tt) (s' := h) by reflexivity.
    rewrite (free_ok h a b Ha). eexists. split; [reflexivity|].
    simpl. now rewrite app_nil_r.
  - fold (elem a 0).
    rewrite (bind_done _ _ _ _ _ (destruct_range_spec l h a b 0 Ha Hs)).
    match goal with |- context [free _ ?s] => set (h1 := s) end.
    assert (exists b1, live h1 a b1) as [b1 Ha1].
    { eexists. unfold h1, live. simpl. apply list_lookup_insert_eq.
      now apply live_lt with (b := b). }
    rewrite (free_ok h1 a b1 Ha1). eexists. split; [reflexivity|].
    split; [|reflexivity]. unfold h1, set_block. simpl.
    apply list_insert_insert_eq.
Qed.

(** X11. The destructor of a well-formed buffer: without a region (a
    default-constructed or moved-from object) it does nothing; otherwise it
    runs the destructor of every element once, front to back (none for a
    trivial [T]), and then releases the region, leaving every other block
    as it was. *)
Theorem X11_dtor (h : heap) (v : fast_vector) (l : list T) :
  holds h v l ->
  match base (data v) with
  | None => dtor v h = Done tt h
  | Some a =>
      exists h',
        dtor v h = Done tt h' /\
        blocks h' !! a = Some None /\
        frame (data v) h h' /\
        length (blocks h') = length (blocks h) /\
        destroyed h' = destroyed h ++ (if is_trivial then [] else l)
  end.
Proof.
  intros Hh. unfold data.
  destruct (base (m_data v)) as [a|] eqn:Hbase.
  - destruct (dtor_release h v l a Hh Hbase) as (h' & Hrun & Hbl & Hlog).
    exists h'. split; [exact Hrun|].
    assert (a < length (blocks h))%nat as Hlt.
    { destruct (holds_inv _ _ _ Hh) as [[-> _] | (a0 & b & Hv & Ha & _)].
      - discriminate.
      - rewrite Hv in Hbase. injection Hbase as <-.
        now apply live_lt with (b := b). }
    rewrite Hbl. split; [now apply list_lookup_insert_eq|].
    split; [|split; [apply length_insert | exact Hlog]].
    intros a' Hne _. rewrite Hbl, Hbase in *.
    apply list_lookup_insert_ne. congruence.
  - unfold dtor, is_null. now rewrite Hbase.
Qed.

(** ** reserve, emplace_back, shrink_to_fit *)

(** X12. [reserve(n)] with [n > capacity()] on a well-formed buffer, when
    the allocator grants [sizeof(T) * n] bytes: the buffer holds the same
    elements in a fresh region, [capacity()] is exactly [n] and [size()] is
    as before; the old region is released, the other blocks are as before,
    and for a non-trivial [T] the destructor of every element that was
    copied runs once. *)
Theorem X12_reserve (h : heap) (v : fast_vector) (l : list T) (n : Z) :
  holds h v l -> capacity v < n -> sizeof_T * n <= heap_limit ->
  exists v' h',
    reserve n v h = Done v' h' /\
    holds h' v' l /\
    capacity v' = n /\ size v' = size v /\
    base (data v') = Some (length (blocks h)) /\
    (forall a, base (data v) = Some a -> blocks h' !! a = Some None) /\
    frame (data v) h h' /\
    destroyed h' = destroyed h ++ (if is_trivial then [] else l).
Proof.
  unfold capacity, size, data. intros Hh Hn Hlim.
  pose proof (holds_size _ _ _ Hh) as Hsz.
  pose proof (wf_size _ _ (proj1 Hh)) as Hsc.
  destruct (reserve_run h v l n Hh Hn Hlim)
    as (h' & b' & Hrun & Hlive & Hlen & Hs & _ & Hfr & Hlog & Hrel).
  eexists _, h'. split; [exact Hrun|].
  split.
  { rewrite Hsz. apply holds_intro with (b := b'); try assumption; lia. }
  repeat split; assumption.
Qed.

Lemma reserve_refused_request h v n :
  n <= m_capacity v -> reserve n v h = Abort reserve_violation.
Proof.
  intros Hn. unfold reserve.
  destruct (Z.gtb_spec n (m_capacity v)); [lia | reflexivity].
Qed.

Lemma malloc_refused h bytes :
  heap_limit < bytes -> malloc bytes h = Done nullptr h.
Proof.
  intros Hb. unfold malloc.
  destruct (Z.leb_spec bytes heap_limit); [lia | reflexivity].
Qed.

Lemma realloc_refused h v l bytes :
  holds h v l -> heap_limit < bytes ->
  realloc (m_data v) bytes h = Done nullptr h.
Proof.
  intros Hh Hb.
  destruct (holds_inv _ _ _ Hh) as [[-> ->] | (a & b & -> & Ha & _)].
  - unfold realloc. simpl. now apply malloc_refused.
  - unfold realloc. cbn [m_data is_null elem base].
    assert (block_of (Ptr (Some a) (Z.of_nat 0)) h = Done (a, b) h) as Hblk.
    { unfold block_of. simpl. unfold live in Ha. now rewrite Ha. }
    rewrite (bind_done _ _ _ _ _ Hblk). simpl.
    destruct (Z.leb_spec bytes heap_limit); [lia | reflexivity].
Qed.

(** X13. The two ways [reserve(n)] stops on a well-formed buffer: with
    [n <= capacity()] on the assertion "Capacity is already equal to or
    greater than the passed value", and with a request of
    [sizeof(T) * n] bytes the allocator refuses on "Reallocation failed"
    (trivial [T]) or "Allocation failed" (non-trivial [T]); in neither
    case is an exception raised. *)
Theorem X13_reserve_stops (h : heap) (v : fast_vector) (l : list T) (n : Z) :
  holds h v l ->
  (n <= capacity v -> reserve n v h = Abort reserve_violation) /\
  (capacity v < n -> heap_limit < sizeof_T * n < SIZE_MOD ->
   reserve n v h =
   Abort (AssertionFailed
            (if is_trivial then ReallocationDone else AllocationDone))).
Proof.
  unfold capacity. intros Hh. split.
  - apply reserve_refused_request.
  - intros Hn Hb. unfold reserve.
    assert ((n >? m_capacity v) = true) as Hgt by (apply Z.gtb_lt; lia).
    rewrite (bind_done _ _ _ _ _ (assert_true _ CapacityGrows h Hgt)).
    rewrite wrap_small by lia.
    destruct is_trivial.
    + now rewrite (bind_done _ _ _ _ _
                     (realloc_refused h v l _ Hh (proj1 Hb))).
    + now rewrite (bind_done _ _ _ _ _ (malloc_refused h _ (proj1 Hb))).
Qed.

(** X14. [emplace_back] is rejected at compile time for a trivial [T] (the
    [static_assert]); for a non-trivial [T] it has the effect of
    [push_back] of the object it builds: the same buffer and heap, with the
    object appended. *)
Theorem X14_emplace_back (h : heap) (v : fast_vector) (l : list T) (x : T) :
  holds h v l ->
  size v < capacity v \/ sizeof_T * (2 * capacity v + 1) <= heap_limit ->
  if is_trivial then emplace_back x v h = Abort IllFormed
  else exists v' h',
    emplace_back x v h = Done v' h' /\
    push_back x v h = Done v' h' /\
    holds h' v' (l ++ [x]).
Proof.
  intros Hh Hroom.
  destruct (push_back_spec h v l x Hh Hroom) as (v' & h' & Hpb & Hh' & _).
  pose proof Hpb as Hrun. unfold push_back in Hrun. unfold emplace_back.
  destruct is_trivial; [reflexivity|].
  exists v', h'. split; [exact Hrun|]. split; [exact Hpb | exact Hh'].
Qed.

Lemma resized_take (b : block) (l : list T) :
  take (length l) b = Some <$> l -> resized (length l) b = Some <$> l.
Proof.
  intros Hs. unfold resized. rewrite Hs.
  assert (length l <= length b)%nat as Hle.
  { apply (f_equal length) in Hs.
    rewrite length_take, length_fmap in Hs. lia. }
  replace (length l - length b)%nat with 0%nat by lia.
  apply app_nil_r.
Qed.

Lemma shrink_to_fit_run h v l :
  holds h v l -> 0 < m_size v < m_capacity v ->
  exists h',
    shrink_to_fit v h = Done (with_data (elem (length (blocks h)) 0) v) h' /\
    live h' (length (blocks h)) (Some <$> l) /\
    (forall a, base (m_data v) = Some a -> blocks h' !! a = Some None) /\
    frame (m_data v) h h' /\
    destroyed h' = destroyed h ++ (if is_trivial then [] else l).
Proof.
  intros Hh Hn.
  pose proof (holds_size _ _ _ Hh) as Hsz.
  pose proof (proj1 Hh) as [Hsc Hlim _ _].
  assert (sizeof_T * m_size v <= heap_limit) as Hb by nia.
  unfold shrink_to_fit.
  destruct (Z.eqb_spec (m_size v) 0) as [|_]; [lia|].
  destruct (Z.ltb_spec (m_size v) (m_capacity v)) as [_|]; [|lia].
  cbn [negb andb].
  rewrite (wrap_bytes (m_size v) ltac:(lia) Hb).
  destruct h as [bs ds].
  destruct (holds_inv _ _ _ Hh) as [[-> ->] | (a & b & Hv & Ha & Hcap & Hs)].
  { simpl in Hn. lia. }
  rewrite Hv in *. simpl in Hsc, Hn, Hsz, Hcap, Hb |- *. clear Hv.
  set (cap := m_capacity v) in *.
  pose proof (live_lt _ _ _ Ha) as Hlt. simpl in Hlt.
  destruct is_trivial.
  - rewrite (bind_done _ _ _ _ _ (realloc_ok _ _ _ _ Ha Hb)).
    rewrite slots_bytes by lia. rewrite Nat2Z.id.
    rewrite (resized_take b l Hs).
    rewrite bind_done with (x := tt)
      (s' := Heap (<[a := None]> bs ++ [Some (Some <$> l)]) ds)
      by reflexivity.
    eexists. split; [reflexivity|].
    split; [rewrite <- (length_insert bs a None) at 1; apply live_new|].
    split.
    { intros a' [= <-]. simpl.
      rewrite lookup_app_l by (rewrite length_insert; lia).
      apply list_lookup_insert_eq. lia. }
    split; [apply frame_own | simpl; now rewrite app_nil_r].
  - rewrite (bind_done _ _ _ _ _ (malloc_ok _ _ Hb)).
    rewrite slots_bytes by lia. rewrite Nat2Z.id.
    simpl blocks. simpl destroyed.
    set (N := length bs).
    set (h1 := Heap (bs ++ [Some (replicate (length l) None)]) ds).
    rewrite bind_done with (x := tt) (s' := h1) by reflexivity.
    assert (live h1 a b) as Ha1 by now apply live_old.
    assert (live h1 N (replicate (length l) None)) as HN1 by apply live_new.
    unfold begin. rewrite end_elem. simpl m_data.
    rewrite (bind_done _ _ _ _ _
               (copy_range_spec l h1 a b 0 N _ 0 Ha1 HN1 ltac:(lia) Hs
                  ltac:(rewrite length_replicate; lia))).
    rewrite drop_ge by (rewrite length_replicate; lia).
    rewrite app_nil_r. rewrite take_0, app_nil_l.
    set (h2 := set_block N (Some (Some <$> l)) h1).
    assert (live h2 a b) as Ha2
      by (apply set_block_live_ne; [lia | exact Ha1]).
    rewrite (bind_done _ _ _ _ _ (destruct_range_spec l h2 a b 0 Ha2 Hs)).
    match goal with |- context [bind (free _) _ ?s] => set (h3 := s) end.
    assert (exists b3, live h3 a b3) as [b3 Ha3].
    { eexists. unfold h3, live. simpl. apply list_lookup_insert_eq.
      rewrite length_insert, length_app. simpl. lia. }
    rewrite (bind_done _ _ _ _ _ (free_ok h3 a b3 Ha3)).
    eexists. split; [reflexivity|].
    split.
    { unfold live, h3. simpl.
      rewrite !list_lookup_insert_ne by lia.
      apply list_lookup_insert_eq. rewrite length_app. simpl. lia. }
    split.
    { intros a' [= <-]. unfold h3. simpl.
      apply list_lookup_insert_eq.
      rewrite !length_insert, length_app. simpl. lia. }
    split; [|reflexivity].
    intros a' Hne Ha'. unfold h3. simpl in *.
    rewrite list_lookup_insert_ne by congruence.
    rewrite list_lookup_insert_ne by congruence.
    rewrite list_lookup_insert_ne by lia.
    now rewrite lookup_app_l.
Qed.

Lemma realloc_refused_live h a (b : block) bytes :
  live h a b -> heap_limit < bytes ->
  realloc (elem a 0) bytes h = Done nullptr h.
Proof.
  intros Ha Hb. unfold realloc. cbn [is_null elem base].
  assert (block_of (Ptr (Some a) (Z.of_nat 0)) h = Done (a, b) h) as Hblk.
  { unfold block_of. simpl. unfold live in Ha. now rewrite Ha. }
  rewrite (bind_done _ _ _ _ _ Hblk). simpl.
  destruct (Z.leb_spec bytes heap_limit); [lia | reflexivity].
Qed.

Lemma shrink_to_fit_refused h v a (b : block) :
  m_data v = elem a 0 -> live h a b ->
  0 < m_size v < m_capacity v ->
  heap_limit < sizeof_T * m_size v < SIZE_MOD ->
  shrink_to_fit v h =
  Abort (AssertionFailed
           (if is_trivial then ReallocationDone else AllocationDone)).
Proof.
  intros Hd Ha Hn Hb. unfold shrink_to_fit.
  destruct (Z.eqb_spec (m_size v) 0) as [|_]; [lia|].
  destruct (Z.ltb_spec (m_size v) (m_capacity v)) as [_|]; [|lia].
  cbn [negb andb]. rewrite wrap_small by lia. rewrite Hd.
  destruct is_trivial.
  - now rewrite (bind_done _ _ _ _ _
                   (realloc_refused_live h a b _ Ha (proj1 Hb))).
  - now rewrite (bind_done _ _ _ _ _ (malloc_refused h _ (proj1 Hb))).
Qed.

(** X15. [shrink_to_fit()].  On a well-formed buffer with [size() == 0] or
    [size() == capacity()] it does nothing.  On a well-formed buffer with
    [0 < size() < capacity()], when the allocator grants the
    [sizeof(T) * size()] bytes it asks for, it moves the elements to a
    fresh region of exactly [size()] slots and releases the old one:
    walking [begin()..end()] reads the same elements, [size()] is as
    before, the other blocks are untouched, and for a non-trivial [T] every
    element's destructor runs once.  When the allocator refuses the
    request, it stops on the assertion "Reallocation failed" (trivial [T])
    or "Allocation failed" (non-trivial [T]). *)
Theorem X15_shrink_to_fit (h : heap) (v : fast_vector) (l : list T) :
  (holds h v l ->
   (size v = 0 \/ size v = capacity v -> shrink_to_fit v h = Done v h) /\
   (0 < size v < capacity v ->
    sizeof_T * size v <= heap_limit ->
    exists v' h',
      shrink_to_fit v h = Done v' h' /\
      size v' = size v /\
      iterate v' h' = Done l h' /\
      storage v' h' = Some <$> l /\
      base (data v') = Some (length (blocks h)) /\
      (forall a, base (data v) = Some a -> blocks h' !! a = Some None) /\
      frame (data v) h h' /\
      destroyed h' = destroyed h ++ (if is_trivial then [] else l))) /\
  (forall a (b : list (option T)),
     data v = elem a 0 -> live h a b ->
     0 < size v < capacity v ->
     heap_limit < sizeof_T * size v < SIZE_MOD ->
     shrink_to_fit v h =
     Abort (AssertionFailed
              (if is_trivial then ReallocationDone else AllocationDone))).
Proof.
  unfold size, capacity, data. split.
  - intros Hh.
    pose proof (holds_size _ _ _ Hh) as Hsz.
    pose proof (proj1 Hh) as [Hsc Hlim _ _].
    split.
    + intros Hs. unfold shrink_to_fit.
      destruct (Z.eqb_spec (m_size v) 0) as [|Hne]; [reflexivity|].
      destruct (Z.ltb_spec (m_size v) (m_capacity v)); [lia | reflexivity].
    + intros Hn Hgrant.
      destruct (shrink_to_fit_run h v l Hh Hn)
        as (h' & Hrun & Hlive & Hrel & Hfr & Hlog).
      eexists _, h'. split; [exact Hrun|].
      split; [reflexivity|].
      split.
      { change (iterate (with_data (elem (length (blocks h)) 0) v) h')
          with (iterate (FV (elem (length (blocks h)) 0)
                            (m_size v) (m_size v)) h').
        apply iterate_holds. rewrite Hsz.
        apply holds_intro with (b := Some <$> l).
        - exact Hlive.
        - lia.
        - rewrite length_fmap. lia.
        - rewrite <- Hsz. exact Hgrant.
        - rewrite <- (length_fmap Some l). apply firstn_all. }
      split.
      { unfold storage. simpl. unfold live in Hlive. now rewrite Hlive. }
      repeat split; assumption.
  - intros a b Hd Ha Hn Hb. now apply shrink_to_fit_refused with (a := a) (b := b).
Qed.

(** ** Buffers side by side *)

Lemma holds_frame h h' p u lu :
  frame p h h' -> holds h u lu ->
  (forall a, base (m_data u) = Some a -> base p <> Some a) ->
  holds h' u lu.
Proof.
  intros Hfr Hu Hne. apply (holds_preserved h); [exact Hu|].
  intros a Ha. apply Hfr; [now apply Hne|].
  pose proof (wf_data _ _ (proj1 Hu)) as Hd. rewrite Ha in Hd.
  destruct Hd as (b & Hb & _). now apply live_lt with (b := b).
Qed.

Lemma holds_region_lt h u lu a :
  holds h u lu -> base (m_data u) = Some a -> (a < length (blocks h))%nat.
Proof.
  intros Hu Ha. pose proof (wf_data _ _ (proj1 Hu)) as Hd. rewrite Ha in Hd.
  destruct Hd as (b & Hb & _). now apply live_lt with (b := b).
Qed.

(** X16. [push_back] on one buffer leaves every buffer with a region of
    its own as it was: such a buffer holds the same elements afterwards,
    and the two regions are still distinct, also when the push had to
    reallocate. *)
Theorem X16_push_back_other_buffer (h : heap) (v u : fast_vector)
    (l lu : list T) (x : T) :
  holds h v l ->
  size v < capacity v \/ sizeof_T * (2 * capacity v + 1) <= heap_limit ->
  holds h u lu ->
  (forall a, base (data u) = Some a -> base (data v) <> Some a) ->
  exists v' h',
    push_back x v h = Done v' h' /\
    holds h' v' (l ++ [x]) /\
    holds h' u lu /\
    (forall a, base (data u) = Some a -> base (data v') <> Some a).
Proof.
  unfold size, capacity, data. intros Hh Hroom Hu Hne.
  destruct (push_back_spec h v l x Hh Hroom)
    as (v' & h' & Hpb & Hh' & _ & _ & Hfr & Hbase & _).
  exists v', h'. split; [exact Hpb|]. split; [exact Hh'|].
  split; [now apply (holds_frame h h' (m_data v))|].
  intros a Ha. destruct Hbase as [-> | ->]; [now apply Hne|].
  pose proof (holds_region_lt h u lu a Hu Ha). intros [= Heq]. lia.
Qed.

Lemma update_done this (f : fast_vector -> M heap fast_vector) w v v' h' :
  objs w !! this = Some v -> f v (mem w) = Done v' h' ->
  update this f w = Done tt (World (<[this := v']> (objs w)) h').
Proof.
  intros Hv Hf. unfold update. apply call_done with (v := v); [exact Hv|].
  now rewrite (bind_done _ _ _ _ _ Hf).
Qed.

(** X17. A copy is independent of its source: after copy construction,
    [push_back] on the copy appends to the copy (reallocating, since a copy
    has [capacity() == size()]) while the source object and its elements
    are as they were. *)
Theorem X17_copy_then_push_back (w : world) (other : nat)
    (vo : fast_vector) (l : list T) (x : T) :
  objs w !! other = Some vo ->
  holds (mem w) vo l ->
  sizeof_T * (2 * size vo + 1) <= heap_limit ->
  exists this w' v',
    (this <- copy_ctor other ;; update this (push_back x) ;;; ret this) w
      = Done this w' /\
    objs w' !! this = Some v' /\
    holds (mem w') v' (l ++ [x]) /\
    capacity v' = 2 * size vo + 1 /\
    objs w' !! other = Some vo /\
    holds (mem w') vo l.
Proof.
  unfold size, capacity. intros Ho Hh Hroom.
  pose proof (lookup_lt_Some _ _ _ Ho) as Hlt.
  set (this := length (objs w)).
  set (w0 := World (objs w ++ [default_ctor]) (mem w)).
  destruct (copy_assign_run this other w0 default_ctor vo l)
    as (w1 & v1 & Hrun & Ht1 & Ho1 & Hh1 & Hho1 & Hcap1 & Hne1 & _);
    cbn [objs mem w0].
  { unfold this. lia. }
  { unfold this. now rewrite lookup_app_r, Nat.sub_diag by lia. }
  { now rewrite lookup_app_l. }
  { exact Hh. }
  pose proof (holds_size _ _ _ Hh1) as Hsz1.
  pose proof (holds_size _ _ _ Hh) as Hsz.
  destruct (push_back_spec (mem w1) v1 l x Hh1)
    as (v2 & h2 & Hpb & Hh2 & Hcap2 & _ & Hfr & _).
  { right. rewrite Hcap1. exact Hroom. }
  assert (copy_ctor other w = Done this w1) as Hctor.
  { rewrite copy_ctor_unfold.
    rewrite bind_done with (x := this) (s' := w0) by reflexivity.
    now rewrite (bind_done _ _ _ _ _ Hrun). }
  exists this, (World (<[this := v2]> (objs w1)) h2), v2.
  rewrite (bind_done _ _ _ _ _ Hctor).
  rewrite (bind_done _ _ _ _ _ (update_done this _ w1 v1 v2 h2 Ht1 Hpb)).
  split; [reflexivity|]. cbn [objs mem].
  split; [now apply insert_this with (vt := v1)|].
  split; [exact Hh2|].
  split.
  { rewrite Hcap2, Hcap1, Hsz1, <- Hsz, Z.eqb_refl. reflexivity. }
  split; [apply insert_other; [unfold this; lia | exact Ho1]|].
  apply (holds_frame (mem w1) h2 (m_data v1)); [exact Hfr | exact Hho1|].
  intros a Ha Heq. apply Hne1. now rewrite Ha, Heq.
Qed.

(** ** swap *)

Lemma swap_field_spec {A} a b (f : fast_vector -> A) upd w va vb :
  a <> b -> objs w !! a = Some va -> objs w !! b = Some vb ->
  exists w',
    swap_field a b f upd w = Done tt w' /\ mem w' = mem w /\
    objs w' !! a = Some (upd (f vb) va) /\
    objs w' !! b = Some (upd (f va) vb) /\
    (forall c, c <> a -> c <> b -> objs w' !! c = objs w !! c).
Proof.
  intros Hne Ha Hb. unfold swap_field.
  rewrite (bind_done _ _ _ _ _ (rd_ok a f w va Ha)).
  rewrite (bind_done _ _ _ _ _ (copy_field a b f upd w va vb Ha Hb)).
  pose proof (lookup_lt_Some _ _ _ Ha) as Hla.
  pose proof (lookup_lt_Some _ _ _ Hb) as Hlb.
  erewrite wr_ok
    by (cbn [objs]; rewrite list_lookup_insert_ne by exact Hne; exact Hb).
  cbn [objs mem]. eexists. split; [reflexivity|].
  cbn [objs mem]. split; [reflexivity|].
  split.
  { rewrite list_lookup_insert_ne by congruence.
    now apply list_lookup_insert_eq. }
  split; [apply list_lookup_insert_eq; now rewrite length_insert|].
  intros c Hca Hcb. now rewrite !list_lookup_insert_ne by congruence.
Qed.

Lemma swap_field_self {A} a (f : fast_vector -> A) upd w va :
  objs w !! a = Some va ->
  (forall x v, upd (f v) (upd x v) = v) ->
  exists w',
    swap_field a a f upd w = Done tt w' /\ mem w' = mem w /\
    objs w' !! a = Some va /\
    (forall c, c <> a -> objs w' !! c = objs w !! c).
Proof.
  intros Ha Hupd. unfold swap_field.
  rewrite (bind_done _ _ _ _ _ (rd_ok a f w va Ha)).
  rewrite (bind_done _ _ _ _ _ (copy_field a a f upd w va va Ha Ha)).
  pose proof (lookup_lt_Some _ _ _ Ha) as Hla.
  erewrite wr_ok by (cbn [objs]; now apply list_lookup_insert_eq).
  cbn [objs mem]. eexists. split; [reflexivity|].
  cbn [objs mem]. split; [reflexivity|].
  split.
  { rewrite Hupd. apply list_lookup_insert_eq. now rewrite length_insert. }
  intros c Hc. now rewrite !list_lookup_insert_ne by congruence.
Qed.

Lemma swap_spec a b w va vb :
  objs w !! a = Some va -> objs w !! b = Some vb ->
  exists w',
    swap a b w = Done tt w' /\ mem w' = mem w /\
    objs w' !! a = Some vb /\ objs w' !! b = Some va /\
    (forall c, c <> a -> c <> b -> objs w' !! c = objs w !! c).
Proof.
  intros Ha Hb. unfold swap.
  destruct (decide (a = b)) as [<-|Hne].
  - assert (va = vb) as <- by congruence.
    destruct (swap_field_self a m_data with_data w va Ha
                ltac:(now intros x [d s c]))
      as (w1 & Hr1 & Hm1 & Ha1 & Ho1).
    rewrite (bind_done _ _ _ _ _ Hr1).
    destruct (swap_field_self a m_size with_size w1 va Ha1
                ltac:(now intros x [d s c]))
      as (w2 & Hr2 & Hm2 & Ha2 & Ho2).
    rewrite (bind_done _ _ _ _ _ Hr2).
    destruct (swap_field_self a m_capacity with_capacity w2 va Ha2
                ltac:(now intros x [d s c]))
      as (w3 & Hr3 & Hm3 & Ha3 & Ho3).
    exists w3. split; [exact Hr3|]. split; [congruence|].
    split; [exact Ha3|]. split; [exact Ha3|].
    intros c Hca _. rewrite Ho3, Ho2, Ho1 by assumption. reflexivity.
  - destruct (swap_field_spec a b m_data with_data w va vb Hne Ha Hb)
      as (w1 & Hr1 & Hm1 & Ha1 & Hb1 & Ho1).
    rewrite (bind_done _ _ _ _ _ Hr1).
    destruct (swap_field_spec a b m_size with_size w1 _ _ Hne Ha1 Hb1)
      as (w2 & Hr2 & Hm2 & Ha2 & Hb2 & Ho2).
    rewrite (bind_done _ _ _ _ _ Hr2).
    destruct (swap_field_spec a b m_capacity with_capacity w2 _ _ Hne Ha2 Hb2)
      as (w3 & Hr3 & Hm3 & Ha3 & Hb3 & Ho3).
    exists w3. split; [exact Hr3|].
    split; [congruence|].
    split; [rewrite Ha3; destruct va, vb; reflexivity|].
    split; [rewrite Hb3; destruct va, vb; reflexivity|].
    intros c Hca Hcb. rewrite Ho3, Ho2, Ho1 by assumption. reflexivity.
Qed.

(** X18. [swap(a, b)] exchanges the two objects and touches nothing else:
    afterwards [a] has the data pointer, [size()] and [capacity()] that [b]
    had and the reverse, the heap and every other object are as before (no
    element is copied or destroyed), and swapping again restores both.
    With [a] and [b] the same object nothing changes. *)
Theorem X18_swap (w : world) (a b : nat) (va vb : fast_vector) :
  objs w !! a = Some va -> objs w !! b = Some vb ->
  exists w' w'',
    swap a b w = Done tt w' /\
    mem w' = mem w /\
    objs w' !! a = Some vb /\ objs w' !! b = Some va /\
    (forall c, c <> a -> c <> b -> objs w' !! c = objs w !! c) /\
    (swap a b ;;; swap a b) w = Done tt w'' /\
    mem w'' = mem w /\
    objs w'' !! a = Some va /\ objs w'' !! b = Some vb.
Proof.
  intros Ha Hb.
  destruct (swap_spec a b w va vb Ha Hb) as (w1 & Hr1 & Hm1 & Ha1 & Hb1 & Ho1).
  destruct (swap_spec a b w1 vb va Ha1 Hb1) as (w2 & Hr2 & Hm2 & Ha2 & Hb2 & _).
  exists w1, w2. split; [exact Hr1|]. split; [exact Hm1|].
  split; [exact Ha1|]. split; [exact Hb1|]. split; [exact Ho1|].
  rewrite (bind_done _ _ _ _ _ Hr1).
  split; [exact Hr2|]. split; [congruence|]. split; assumption.
Qed.

(** ** Moves and what assignment leaves behind *)

(** X19. A move hands the region over and touches no element: after move
    construction or move assignment from a well-formed buffer the
    destination has the data pointer the source had and holds the source's
    elements, and the heap is exactly as before (nothing allocated, copied,
    destroyed or released). *)
Theorem X19_move_hands_over_region (w : world) (other : nat)
    (vo : fast_vector) (l : list T) :
  objs w !! other = Some vo ->
  holds (mem w) vo l ->
  (exists this w' v',
     move_ctor other w = Done this w' /\
     this = length (objs w) /\
     mem w' = mem w /\
     objs w' !! this = Some v' /\
     data v' = data vo /\ holds (mem w') v' l) /\
  (forall this vt,
     this <> other -> objs w !! this = Some vt ->
     exists w' v',
       move_assign this other w = Done tt w' /\
       mem w' = mem w /\
       objs w' !! this = Some v' /\
       data v' = data vo /\ holds (mem w') v' l).
Proof.
  intros Ho Hh. split.
  - destruct (move_ctor_spec other w vo Ho) as (w' & Hrun & Hmem & Ht & _).
    eexists _, w', _. split; [exact Hrun|]. split; [reflexivity|].
    split; [exact Hmem|]. split; [exact Ht|]. split; [reflexivity|].
    rewrite Hmem. apply holds_moved; [exact Hh | now right].
  - intros this vt Hne Ht.
    destruct (move_assign_spec this other w vt vo Hne Ht Ho)
      as (w' & Hrun & Hmem & Ht' & _).
    eexists w', _. split; [exact Hrun|].
    split; [exact Hmem|]. split; [exact Ht'|]. split; [reflexivity|].
    rewrite Hmem. apply holds_moved; [exact Hh | now left].
Qed.

Lemma run_dtor_release this w v l :
  objs w !! this = Some v -> holds (mem w) v l ->
  exists h',
    run_dtor this w = Done tt (World (objs w) h') /\
    destroyed h' = destroyed (mem w) ++ (if is_trivial then [] else l) /\
    (forall a, base (m_data v) <> Some a ->
               blocks h' !! a = blocks (mem w) !! a).
Proof.
  intros Hv Hh.
  destruct (base (m_data v)) as [a0|] eqn:Hbase.
  - destruct (dtor_release _ _ _ a0 Hh Hbase) as (h' & Hrun & Hbl & Hlog).
    exists h'. split; [unfold run_dtor; now apply query_done with (v := v)|].
    split; [exact Hlog|].
    intros a Hne. rewrite Hbl. apply list_lookup_insert_ne. congruence.
  - destruct (holds_inv _ _ _ Hh) as [[-> ->] | (a & b & Hv' & _)].
    + exists (mem w).
      split; [unfold run_dtor; now apply query_done with (v := FV nullptr 0 0)|].
      split; [destruct is_trivial; now rewrite app_nil_r | reflexivity].
    + rewrite Hv' in Hbase. discriminate.
Qed.

(** X20. Move assignment never releases what the destination owned.  When
    the destination is a well-formed buffer with a region of its own, then
    after the assignment, and after the destructors of both objects have
    run, that region is still allocated and still holds the destination's
    old elements, none of them destroyed: only the elements moved in were
    destroyed. *)
Theorem X20_move_assign_leaks (w : world) (this other : nat)
    (vt vo : fast_vector) (lt l : list T) (a : addr) :
  this <> other ->
  objs w !! this = Some vt -> objs w !! other = Some vo ->
  holds (mem w) vt lt -> holds (mem w) vo l ->
  base (data vt) = Some a -> base (data vo) <> Some a ->
  exists w' w'',
    move_assign this other w = Done tt w' /\
    destroy_both this other w' = Done tt w'' /\
    holds (mem w'') vt lt /\
    destroyed (mem w'') =
      destroyed (mem w) ++ (if is_trivial then [] else l).
Proof.
  unfold data. intros Hne Ht Ho Hht Hh Hbt Hbo.
  destruct (move_assign_spec this other w vt vo Hne Ht Ho)
    as (w' & Hrun & Hmem & Ht' & Ho').
  assert (holds (mem w') (FV (m_data vo) (m_size vo) (m_size vo)) l) as Hh'
    by (rewrite Hmem; apply holds_moved; [exact Hh | now left]).
  destruct (run_dtor_release this w' _ l Ht' Hh') as (h1 & Hd1 & Hlog1 & Hfr1).
  assert (run_dtor other (World (objs w') h1) = Done tt (World (objs w') h1))
    as Hd2 by (now apply run_dtor_null with (v := with_data nullptr vo)).
  exists w', (World (objs w') h1). split; [exact Hrun|].
  split; [unfold destroy_both; now rewrite (bind_done _ _ _ _ _ Hd1)|].
  cbn [mem]. split; [|now rewrite Hlog1, Hmem].
  apply (holds_preserved (mem w)); [exact Hht|].
  intros a' Ha'. rewrite Hbt in Ha'. injection Ha' as <-.
  rewrite <- Hmem. apply Hfr1. exact Hbo.
Qed.

(** X21. Copy assignment never releases what the destination owned
    either: after [this = other] on two well-formed buffers, followed by the
    destructors of both objects, the destination's old region is still
    allocated and still holds its old elements; the destructors that ran
    are those of the copies and of the source's elements. *)
Theorem X21_copy_assign_leaks (w : world) (this other : nat)
    (vt vo : fast_vector) (lt l : list T) (a : addr) :
  this <> other ->
  objs w !! this = Some vt -> objs w !! other = Some vo ->
  holds (mem w) vt lt -> holds (mem w) vo l ->
  base (data vt) = Some a -> base (data vo) <> Some a ->
  exists w' w'',
    copy_assign this other w = Done tt w' /\
    holds (mem w') vt lt /\
    destroy_both this other w' = Done tt w'' /\
    holds (mem w'') vt lt /\
    destroyed (mem w'') =
      destroyed (mem w) ++ (if is_trivial then [] else l ++ l).
Proof.
  unfold data. intros Hne Ht Ho Hht Hh Hbt Hbo.
  destruct (copy_assign_run this other w vt vo l Hne Ht Ho Hh)
    as (w' & v' & Hrun & Ht' & Ho' & Hh' & Hho' & _ & _ & Hlog & Hfr & Hnew).
  pose proof (holds_region_lt _ _ _ a Hht Hbt) as Hlt.
  assert (holds (mem w') vt lt) as Hht'.
  { apply (holds_preserved (mem w)); [exact Hht|].
    intros a' Ha'. rewrite Hbt in Ha'. injection Ha' as <-. now apply Hfr. }
  destruct (run_dtor_release this w' v' l Ht' Hh') as (h1 & Hd1 & Hlog1 & Hfr1).
  assert (holds h1 vo l) as Hho1.
  { apply (holds_preserved (mem w')); [exact Hho'|].
    intros a' Ha'. apply Hfr1. rewrite Hnew. intros [= Heq].
    pose proof (holds_region_lt _ _ _ a' Hh Ha'). lia. }
  destruct (run_dtor_release other (World (objs w') h1) vo l Ho' Hho1)
    as (h2 & Hd2 & Hlog2 & Hfr2).
  exists w', (World (objs w') h2). split; [exact Hrun|].
  split; [exact Hht'|].
  split.
  { unfold destroy_both. rewrite (bind_done _ _ _ _ _ Hd1). exact Hd2. }
  cbn [mem] in *. split.
  - apply (holds_preserved (mem w')); [exact Hht'|].
    intros a' Ha'. rewrite Hbt in Ha'. injection Ha' as <-.
    rewrite Hfr2 by exact Hbo. apply Hfr1. rewrite Hnew. intros [= Heq]. lia.
  - rewrite Hlog2, Hlog1, Hlog. destruct is_trivial.
    + now rewrite !app_nil_r.
    + now rewrite app_assoc.
Qed.

(** ** The growth policy *)

Lemma push_back_all_growth (values : list T) : forall h v l,
  holds h v l ->
  (exists k : nat,
     m_capacity v = 2 ^ Z.of_nat k - 1 /\
     (k = 0%nat \/ 2 ^ Z.of_nat k <= 2 * m_size v)) ->
  sizeof_T * (2 * (m_size v + Z.of_nat (length values))) <= heap_limit ->
  exists v' h',
    push_back_all values v h = Done v' h' /\ holds h' v' (l ++ values) /\
    exists k : nat,
      m_capacity v' = 2 ^ Z.of_nat k - 1 /\
      (k = 0%nat \/ 2 ^ Z.of_nat k <= 2 * m_size v').
Proof.
  induction values as [|x rest IH]; intros h v l Hh HJ Hlim.
  - exists v, h. rewrite app_nil_r.
    split; [reflexivity|]. split; [exact Hh | exact HJ].
  - pose proof (holds_size _ _ _ Hh) as Hsz.
    pose proof (proj1 Hh) as [Hsc _ _ _].
    simpl length in Hlim.
    destruct (push_back_spec h v l x Hh) as (v1 & h1 & Hpb & Hh1 & Hcap1 & _).
    { destruct (Z.eq_dec (m_size v) (m_capacity v)) as [Heq|Hne];
        [right; nia | left; lia]. }
    pose proof (holds_size _ _ _ Hh1) as Hsz1.
    rewrite length_app in Hsz1. simpl length in Hsz1.
    destruct (IH h1 v1 (l ++ [x]) Hh1) as (v2 & h2 & Hrest & Hh2 & HJ2).
    { destruct HJ as (k & Hk & Hlow).
      destruct (Z.eqb_spec (m_size v) (m_capacity v)) as [Heq|Hne].
      - exists (S k). rewrite Nat2Z.inj_succ, Z.pow_succ_r by lia.
        split; [lia|]. right. lia.
      - exists k. split; [lia|]. right.
        destruct Hlow as [-> | Hlow]; [simpl in Hk; lia | lia]. }
    { replace (m_size v1 + Z.of_nat (length rest))
        with (m_size v + Z.of_nat (S (length rest))) by lia.
      exact Hlim. }
    exists v2, h2. split.
    + simpl push_back_all. rewrite (bind_done _ _ _ _ _ Hpb). exact Hrest.
    + rewrite <- app_assoc in Hh2. split; [exact Hh2 | exact HJ2].
Qed.

(** X22. The growth policy in closed form: a buffer built from an empty
    one by [push_back] alone has [capacity() == 2^k - 1] for the least [k]
    with [size() <= 2^k - 1], that is
    [capacity() == 2^ceil(log2(size() + 1)) - 1]; so a non-empty one is
    always more than half full. *)
Theorem X22_growth_closed_form (values : list T) (h : heap) :
  sizeof_T * (2 * Z.of_nat (length values)) <= heap_limit ->
  exists v h',
    push_back_all values default_ctor h = Done v h' /\
    size v = Z.of_nat (length values) /\
    capacity v = 2 ^ Z.log2_up (size v + 1) - 1 /\
    (values <> [] -> capacity v < 2 * size v).
Proof.
  intros Hlim.
  destruct (push_back_all_growth values h default_ctor [] (holds_default h))
    as (v & h' & Hrun & Hh & k & Hk & Hlow).
  { exists 0%nat. split; [reflexivity | now left]. }
  { exact Hlim. }
  pose proof (holds_size _ _ _ Hh) as Hsz. simpl in Hsz.
  pose proof (proj1 Hh) as [Hsc _ _ _].
  exists v, h'. unfold size, capacity. split; [exact Hrun|].
  split; [exact Hsz|].
  assert (Z.log2_up (m_size v + 1) = Z.of_nat k) as Hlog.
  { destruct Hlow as [-> | Hlow].
    - simpl in Hk. assert (m_size v = 0) as -> by lia. reflexivity.
    - destruct k as [|k].
      + simpl in Hk. simpl in Hlow. lia.
      + apply Z.log2_up_unique; [lia|].
        rewrite Nat2Z.inj_succ in *.
        rewrite Z.pred_succ.
        rewrite Z.pow_succ_r in * by lia. lia. }
  rewrite Hlog. split; [exact Hk|].
  intros Hne. destruct Hlow as [-> | Hlow]; [|lia].
  simpl in Hk. destruct values; [congruence | simpl in Hsz; lia].
Qed.

(** ** find_item and erase *)

(** X23. [find_item] over the elements of a well-formed buffer returns the
    position of the first element equal to [value], or [end()] when there
    is none, and leaves the heap as it was. *)
Theorem X23_find_item (h : heap) (v : fast_vector) (l : list T) (x : T) :
  holds h v l ->
  (x ∉ l -> find_item (begin v) (end_ v) x h = Done (end_ v) h) /\
  (forall l1 l2, l = l1 ++ x :: l2 -> x ∉ l1 ->
     find_item (begin v) (end_ v) x h =
     Done (ptr_add (begin v) (Z.of_nat (length l1))) h).
Proof.
  intros Hh. split.
  - intros Hx.
    destruct (holds_inv _ _ _ Hh) as [[-> ->] | (a & b & -> & Ha & Hcap & Hs)].
    + reflexivity.
    + unfold begin. rewrite end_elem. simpl m_data.
      exact (find_item_missing l x h a b Ha Hs Hx).
  - intros l1 l2 -> Hx.
    destruct (holds_inv _ _ _ Hh) as [[_ Hl] | (a & b & -> & Ha & Hcap & Hs)].
    + destruct l1; discriminate.
    + unfold begin. rewrite end_elem. simpl m_data.
      exact (find_item_found l1 l2 x h a b Ha Hs Hx).
Qed.

(** X24. [erase(value)] for a trivial [T] on a well-formed buffer.  When no
    element equals [value] nothing changes.  When the first such element is
    the last or the last but one, it alone is removed, the element behind
    it (if any) moves one place down, [size()] drops by one and
    [capacity()] stays.  When two or more elements follow it, the shift is
    a [std::memcpy] whose source and destination overlap: undefined
    behaviour. *)
Theorem X24_erase_trivial (h : heap) (v : fast_vector) (l : list T) (x : T) :
  is_trivial = true ->
  holds h v l ->
  (x ∉ l -> erase x v h = Done v h) /\
  (forall l1 l2, l = l1 ++ x :: l2 -> x ∉ l1 ->
   (length l2 <= 1)%nat ->
   exists v' h',
     erase x v h = Done v' h' /\
     holds h' v' (l1 ++ l2) /\
     size v' = size v - 1 /\ capacity v' = capacity v /\
     frame (data v) h h') /\
  (forall l1 l2, l = l1 ++ x :: l2 -> x ∉ l1 ->
   (2 <= length l2)%nat ->
   erase x v h = Abort (Undefined Overlap)).
Proof.
  intros Htriv Hh. split; [|split].
  - now apply erase_missing.
  - intros l1 l2 -> Hx Hshort. now apply erase_trivial_found.
  - intros l1 l2 -> Hx Hlong. now apply erase_trivial_overlap with (l1 := l1) (l2 := l2).
Qed.

(** ** A moved-from object *)

Lemma update_abort this (f : fast_vector -> M heap fast_vector) w v e :
  objs w !! this = Some v -> f v (mem w) = Abort e ->
  update this f w = Abort e.
Proof.
  intros Hv Hf. unfold update, call.
  rewrite (bind_done _ _ _ _ _ (rd_ok this id w v Hv)).
  unfold bind at 1. unfold lift, bind, id. now rewrite Hf.
Qed.

Lemma push_back_null x v h :
  base (m_data v) = None -> m_size v <> m_capacity v ->
  push_back x v h = Abort (Undefined NullAccess).
Proof.
  intros Hnull Hne. unfold push_back.
  destruct (Z.eqb_spec (m_size v) (m_capacity v)) as [|_]; [contradiction|].
  rewrite bind_done with (x := v) (s' := h) by reflexivity.
  unfold assign, construct, poke, block_of, ptr_add, bind. simpl.
  rewrite Hnull. now destruct is_trivial.
Qed.

(** X25. A moved-from object keeps [size()] and [capacity()] but has no
    region: when the source of a move construction had spare capacity, a
    later [push_back] on it does not reallocate and writes through the null
    pointer (undefined behaviour). *)
Theorem X25_push_back_after_move (w : world) (other : nat)
    (vo : fast_vector) (x : T) :
  objs w !! other = Some vo ->
  size vo < capacity vo ->
  (this <- move_ctor other ;; update other (push_back x)) w
  = Abort (Undefined NullAccess).
Proof.
  unfold size, capacity. intros Ho Hroom.
  destruct (move_ctor_spec other w vo Ho) as (w' & Hrun & Hmem & _ & Ho').
  rewrite (bind_done _ _ _ _ _ Hrun).
  apply update_abort with (v := with_data nullptr vo); [exact Ho'|].
  apply push_back_null; simpl; [reflexivity | lia].
Qed.

(** ** The helper functions *)

(** X26. [copy_range(begin, end, dest)] over an array of objects [xs],
    with room for them at [dest] in another block: afterwards the
    destination slots hold copies of [xs] in order, the slots of the
    destination block before and behind them and the source array are as
    before, and no destructor has run. *)
Theorem X26_copy_range (xs : list T) (h : heap) (a d : addr)
    (b bd : list (option T)) (i j : nat) :
  live h a b -> live h d bd -> a <> d ->
  take (length xs) (drop i b) = Some <$> xs ->
  (j + length xs <= length bd)%nat ->
  exists h' bd',
    copy_range (elem a i) (elem a (i + length xs)) (elem d j) h
      = Done tt h' /\
    live h' a b /\ live h' d bd' /\
    take (length xs) (drop j bd') = Some <$> xs /\
    take j bd' = take j bd /\
    drop (j + length xs) bd' = drop (j + length xs) bd /\
    (forall c, c <> d -> blocks h' !! c = blocks h !! c) /\
    destroyed h' = destroyed h.
Proof.
  intros Ha Hd Hne Hs Hj.
  eexists _, _. split; [now apply copy_range_spec with (b := b) (bd := bd)|].
  split; [apply set_block_live_ne; [congruence | exact Ha]|].
  split; [now apply set_block_live_eq with (b0 := bd)|].
  assert (j = length (take j bd)) as Hlen by (rewrite length_take; lia).
  split.
  { rewrite drop_app_length' by exact Hlen.
    rewrite take_app_length' by now rewrite length_fmap.
    reflexivity. }
  split; [now rewrite take_app_length' by exact Hlen|].
  split.
  { rewrite app_assoc. apply drop_app_length'.
    rewrite length_app, length_fmap. lia. }
  split; [|reflexivity].
  intros c Hc. unfold set_block. simpl.
  apply list_lookup_insert_ne. congruence.
Qed.

(** X27. [construct_range] and [destruct_range] over the same [n] slots
    undo each other: the first default-constructs an object in every slot,
    the second runs the destructor of each, in order, and the block is
    left as it was when the slots held no object before. *)
Theorem X27_construct_then_destruct (n : nat) (h : heap) (a : addr)
    (b : list (option T)) (i : nat) :
  live h a b -> (i + n <= length b)%nat ->
  take n (drop i b) = replicate n None ->
  exists h1 b1,
    construct_range (elem a i) (elem a (i + n)) h = Done tt h1 /\
    live h1 a b1 /\
    take n (drop i b1) = Some <$> replicate n default_T /\
    (construct_range (elem a i) (elem a (i + n)) ;;;
     destruct_range (elem a i) (elem a (i + n))) h
    = Done tt (Heap (blocks h) (destroyed h ++ replicate n default_T)).
Proof.
  intros Ha Hn Hempty.
  pose proof (construct_range_spec n h a b i Ha Hn) as Hc.
  set (b1 := take i b ++ replicate n (Some default_T) ++ drop (i + n) b) in *.
  assert (live (set_block a (Some b1) h) a b1) as Ha1
    by now apply set_block_live_eq with (b0 := b).
  assert (i = length (take i b)) as Hlen by (rewrite length_take; lia).
  assert (take n (drop i b1) = Some <$> replicate n default_T) as Hs1.
  { unfold b1. rewrite drop_app_length' by exact Hlen.
    rewrite take_app_length' by now rewrite length_replicate.
    now rewrite fmap_replicate. }
  exists (set_block a (Some b1) h), b1.
  split; [exact Hc|]. split; [exact Ha1|]. split; [exact Hs1|].
  rewrite (bind_done _ _ _ _ _ Hc).
  pose proof (destruct_range_spec (replicate n default_T)
                (set_block a (Some b1) h) a b1 i Ha1) as Hd.
  rewrite length_replicate in Hd. rewrite (Hd Hs1).
  unfold set_block. simpl. do 2 f_equal.
  rewrite list_insert_insert_eq.
  apply list_insert_id. transitivity (Some (Some b)); [exact Ha|].
  do 2 f_equal.
  assert (take i b1 = take i b) as ->
    by (unfold b1; now rewrite take_app_length' by exact Hlen).
  assert (drop (i + n) b1 = drop (i + n) b) as ->.
  { unfold b1. rewrite app_assoc. apply drop_app_length'.
    rewrite length_app, length_replicate. lia. }
  rewrite <- Hempty, <- (drop_drop b n i), take_drop.
  symmetry. apply take_drop.
Qed.

(** ** resize: capacity and destructors *)

(** X28. What [resize(k)] does to [capacity()] and which destructors it
    runs, on a well-formed buffer.  Shrinking keeps [capacity()] and, for a
    non-trivial [T], runs the destructor of exactly the elements removed,
    in order.  Growing keeps the buffer well-formed and asks [reserve] for
    exactly [k] when [k > capacity()], with no geometric growth:
    [capacity()] becomes the larger of its old value and [k]. *)
Theorem X28_resize_capacity (h : heap) (v : fast_vector) (l : list T)
    (k : Z) :
  holds h v l -> 0 <= k ->
  (k < size v ->
   exists v' h',
     resize k v h = Done v' h' /\
     holds h' v' (take (Z.to_nat k) l) /\
     capacity v' = capacity v /\
     destroyed h' =
       destroyed h ++ (if is_trivial then [] else drop (Z.to_nat k) l)) /\
  (size v < k -> k <= capacity v \/ sizeof_T * k <= heap_limit ->
   exists v' h',
     resize k v h = Done v' h' /\
     wf h' v' /\
     capacity v' = Z.max (capacity v) k).
Proof.
  unfold size, capacity. intros Hh Hk. split.
  - intros Hlt.
    destruct (resize_truncate h v l k Hh ltac:(lia))
      as (v' & h' & Hrun & Hh' & _ & Hc & Hlog).
    exists v', h'. split; [exact Hrun|]. split; [exact Hh'|].
    split; [exact Hc | exact Hlog].
  - intros Hgt Hroom.
    destruct (resize_grow h v l k Hh Hgt Hroom)
      as (v' & h' & Hrun & Hwf & _ & Hc & _).
    exists v', h'. split; [exact Hrun|]. split; [exact Hwf | exact Hc].
Qed.

End Element.

(** * Instances

    The theorems above at [T := Z] (an [int]-like trivial type, or a
    non-trivial class wrapping one), [sizeof(T) == 4] and an allocator that
    grants up to [2^40] bytes. *)

Arguments elem (a i)%_nat_scope.

(** A buffer of a concrete heap holds the listed elements. *)
Ltac solve_holds :=
  split;
  [ split; simpl;
    [ lia | lia | reflexivity
    | try (eexists; split; [reflexivity | simpl; lia]); try reflexivity ]
  | reflexivity ].

Ltac solve_limits := first [ reflexivity | unfold PTRDIFF_MAX; lia ].

(** C1 at three values. *)
Lemma C1_push_back_sequence_witness :
  exists v h',
    push_back_all true 4 1099511627776 [10; 20; 30] default_ctor empty_heap
      = Done v h' /\
    size v = 3 /\ capacity v >= 3 /\
    iterate v h' = Done [10; 20; 30] h'.
Proof.
  apply (C1_push_back_sequence true 4 1099511627776); simpl; unfold PTRDIFF_MAX; lia.
Defined.

(** Construction from [{10, 20, 30}] and one more [push_back]. *)
Example range_ctor_then_push_back :
  exists v h,
    (v <- range_ctor true 4 1099511627776 (elem 0 0) (elem 0 3) ;;
     push_back true 4 1099511627776 40 v)
      (Heap [Some [Some 10; Some 20; Some 30]] []) = Done v h /\
    capacity v = 7 /\ iterate v h = Done [10; 20; 30; 40] h.
Proof. eexists _, _. repeat split. Qed.

(** C2, at the failing input: for a non-trivial element type the body of
    [erase] keeps the call [copy_range(position, position + 1, count)],
    which passes a count where a destination pointer is required; [erase]
    cannot be instantiated, no element is shifted and the buffer
    [{20, 30}] the claim describes is not produced. *)
Theorem C2_erase_nontrivial_shift :
  (v <- push_back_all false 4 1099511627776 [10; 20; 30] default_ctor ;;
   erase false 4 10 v) empty_heap
  = Abort IllFormed.
Proof. reflexivity. Qed.

(** The same calls for a trivial element type: two elements follow the
    match, and the shift is a [std::memcpy] over overlapping ranges.  With
    one element behind the match the shift is defined. *)
Example erase_trivial_first :
  (v <- push_back_all true 4 1099511627776 [10; 20; 30] default_ctor ;;
   erase true 4 10 v) empty_heap
  = Abort (Undefined Overlap).
Proof. reflexivity. Qed.

Example erase_trivial_second :
  exists h,
    (v <- push_back_all true 4 1099511627776 [10; 20; 30] default_ctor ;;
     v <- erase true 4 20 v ;; iterate v) empty_heap
    = Done [10; 30] h.
Proof. eexists. reflexivity. Qed.

Example erase_then_pop_back :
  exists h,
    (v <- push_back_all true 4 1099511627776 [1; 2; 3; 4; 5] default_ctor ;;
     v <- erase true 4 4 v ;;
     v <- pop_back true v ;;
     l <- iterate v ;; ret (l, size v)) empty_heap
    = Done ([1; 2; 3], 3) h.
Proof. eexists. reflexivity. Qed.

(** The scenario of the specification: three elements appended to a buffer
    with [size() == 2] and [capacity() == 4]. *)
Lemma C3_append_witness :
  exists v' h',
    append true 4 1099511627776 (elem 1 0) 3 (FV (elem 0 0) 2 4)
      (Heap [Some [Some 1; Some 2; None; None]; Some [Some 7; Some 8; Some 9]] [])
      = Done v' h' /\
    size v' = size (FV (elem 0 0) 2 4) + 3 /\
    capacity v' >= size (FV (elem 0 0) 2 4) + 3 /\
    capacity v' <= Z.of_nat (length (storage v' h')) /\
    iterate v' h' = Done ([1; 2] ++ [7; 8; 9]) h'.
Proof.
  apply (C3_append true 4 1099511627776); try solve_limits.
  - solve_holds.
  - exists 1%nat, [Some 7; Some 8; Some 9], 0%nat.
    repeat split. simpl. congruence.
  - right. simpl. lia.
Defined.

(** C4, at the failing input: after [push_back(1)], [push_back(2)] the
    buffer has [size() == 2] and [capacity() == 3]; [shrink_to_fit()] moves
    the two elements to a region of two slots and returns with
    [capacity()] still 3, not [size()]. *)
Theorem C4_shrink_to_fit_capacity :
  exists v h,
    (v <- push_back_all true 4 1099511627776 [1; 2] default_ctor ;;
     shrink_to_fit true 4 1099511627776 v) empty_heap = Done v h /\
    size v = 2 /\ capacity v = 3 /\
    storage v h = [Some 1; Some 2].
Proof. eexists _, _. repeat split. Qed.

(** With the capacity overstated, the next [push_back] writes outside the
    region. *)
Example shrink_to_fit_then_push_back :
  (v <- push_back_all true 4 1099511627776 [1; 2] default_ctor ;;
   v <- shrink_to_fit true 4 1099511627776 v ;;
   push_back true 4 1099511627776 3 v) empty_heap
  = Abort (Undefined OutOfBounds).
Proof. reflexivity. Qed.

(** C5, counterexample to the claim as stated: after a move construction
    from a buffer of one element the source reports [size() == 1], not 0. *)
Lemma C5_counterexample :
  exists this w' vo',
    move_ctor 0 (World [FV (elem 0 0) 1 1] (Heap [Some [Some 7]] []))
      = Done this w' /\
    objs w' !! 0%nat = Some vo' /\
    size vo' = 1 /\ size vo' <> 0.
Proof.
  eexists _, _, _. split; [reflexivity|]. split; [reflexivity|].
  split; [reflexivity | discriminate].
Qed.

(** C5 at a move construction from a buffer of two non-trivial elements. *)
Lemma C5_move_source_keeps_size_witness :
  exists this w' vo' w'',
    move_ctor 0 (World [FV (elem 0 0) 2 3]
                       (Heap [Some [Some 10; Some 20; None]] [])) = Done this w' /\
    objs w' !! 0%nat = Some vo' /\
    moved_from (FV (elem 0 0) 2 3) vo' /\
    destroy_both false 0 this w' = Done tt w'' /\
    destroyed (mem w'') = [] ++ [10; 20].
Proof.
  refine (proj1 (C5_move_source_keeps_size false 4 1099511627776 _
                   (World [FV (elem 0 0) 2 3]
                          (Heap [Some [Some 10; Some 20; None]] []))
                   0%nat (FV (elem 0 0) 2 3) [10; 20] _ _)).
  - lia.
  - reflexivity.
  - solve_holds.
Defined.

(** C6, at the failing input: move assignment from a source with
    [size() == 2] and [capacity() == 3] gives a destination with the two
    elements and [size() == 2] but [capacity() == 2]. *)
Theorem C6_move_assign_capacity :
  exists w' v',
    move_assign 0 1
      (World [default_ctor; FV (elem 0 0) 2 3]
             (Heap [Some [Some 10; Some 20; None]] [])) = Done tt w' /\
    objs w' !! 0%nat = Some v' /\
    size v' = 2 /\
    iterate v' (mem w') = Done [10; 20] (mem w') /\
    capacity v' = 2 /\ capacity v' <> capacity (FV (elem 0 0) 2 3).
Proof.
  eexists _, _. split; [reflexivity|]. split; [reflexivity|].
  repeat split. discriminate.
Qed.

(** C7, counterexample to the claim as stated: copy assignment of a buffer
    to itself.  The fields are set from the source, which is the same
    object; [m_data] then receives a fresh region, and the copy reads that
    same fresh region: the two elements are not copied from anywhere, the
    slack is gone and the old region is not released. *)
Lemma C7_counterexample :
  exists w' v',
    copy_assign true 4 1099511627776 0 0
      (World [FV (elem 0 0) 2 3] (Heap [Some [Some 10; Some 20; None]] []))
      = Done tt w' /\
    objs w' !! 0%nat = Some v' /\
    v' = FV (elem 1 0) 2 2 /\
    contents v' (mem w') = [None; None] /\
    contents v' (mem w') <> [Some 10; Some 20] /\
    iterate v' (mem w') = Abort (Undefined NoObject).
Proof.
  eexists _, _. split; [reflexivity|]. split; [reflexivity|].
  split; [reflexivity|]. split; [reflexivity|].
  split; [discriminate | reflexivity].
Qed.

(** C7 at the copy construction of a buffer with slack. *)
Lemma C7_copy_witness :
  exists this w',
    copy_ctor true 4 1099511627776 0
      (World [FV (elem 0 0) 2 3] (Heap [Some [Some 10; Some 20; None]] []))
      = Done this w' /\
    copy_of w' this 0 (FV (elem 0 0) 2 3) [10; 20].
Proof.
  refine (proj1 (C7_copy true 4 1099511627776 _ _
                   (World [FV (elem 0 0) 2 3]
                          (Heap [Some [Some 10; Some 20; None]] []))
                   0%nat (FV (elem 0 0) 2 3) [10; 20] _ _)).
  - lia.
  - solve_limits.
  - reflexivity.
  - solve_holds.
Defined.

(** C8, counterexample to the claim as stated: [resize(2^62 + 1)] on a
    buffer of two 4-byte elements.  The byte count [sizeof(T) * count] wraps
    to 4, the region is reallocated to one slot, and the call returns with
    [size() == 2^62 + 1]: the second original element is no longer in the
    region. *)
Lemma C8_counterexample :
  exists v' h',
    resize true 4 0 1099511627776 4611686018427387905 (FV (elem 0 0) 2 3)
      (Heap [Some [Some 10; Some 20; None]] []) = Done v' h' /\
    size v' = 4611686018427387905 /\
    storage v' h' = [Some 10] /\
    load (ptr_add (data v') 1) h' = Abort (Undefined OutOfBounds).
Proof. eexists _, _. repeat split. Qed.

(** C8 at a growth from two to five non-trivial elements. *)
Lemma C8_resize_witness :
  exists v' h',
    resize false 4 0 1099511627776 5 (FV (elem 0 0) 2 3)
      (Heap [Some [Some 10; Some 20; None]] []) = Done v' h' /\
    size v' = 5 /\ capacity v' >= 5 /\
    take 2 (contents v' h') = [Some 10; Some 20] /\
    (false = false -> iterate v' h' = Done [10; 20; 0; 0; 0] h') /\
    (false = true -> 5 <= capacity (FV (elem 0 0) 2 3) ->
     h' = Heap [Some [Some 10; Some 20; None]] []).
Proof.
  refine (proj2 (proj2 (C8_resize false 4 0 1099511627776 _ _
                          (Heap [Some [Some 10; Some 20; None]] [])
                          (FV (elem 0 0) 2 3) [10; 20] 5 _ _)) _ _).
  - lia.
  - solve_limits.
  - solve_holds.
  - lia.
  - simpl. lia.
  - right. lia.
Defined.

(** C9 at index 1 of a buffer of two elements. *)
Lemma C9_at_checked_access_witness :
  (query 0 (at_ 1)
     (World [FV (elem 0 0) 2 3] (Heap [Some [Some 10; Some 20; None]] []))
   = Thrown range_error
       (World [FV (elem 0 0) 2 3] (Heap [Some [Some 10; Some 20; None]] []))
   <-> 1 >= size (FV (elem 0 0) 2 3)) /\
  (1 < size (FV (elem 0 0) 2 3) ->
   exists p x,
     query 0 (at_ 1)
       (World [FV (elem 0 0) 2 3] (Heap [Some [Some 10; Some 20; None]] []))
     = Done p (World [FV (elem 0 0) 2 3] (Heap [Some [Some 10; Some 20; None]] []))
     /\ [10; 20] !! Z.to_nat 1 = Some x /\
     lift (load p)
       (World [FV (elem 0 0) 2 3] (Heap [Some [Some 10; Some 20; None]] []))
     = Done x (World [FV (elem 0 0) 2 3] (Heap [Some [Some 10; Some 20; None]] []))).
Proof.
  apply (C9_at_checked_access 4 1099511627776 0%nat 1
           (World [FV (elem 0 0) 2 3] (Heap [Some [Some 10; Some 20; None]] []))
           (FV (elem 0 0) 2 3) [10; 20]).
  - reflexivity.
  - solve_holds.
  - lia.
Defined.



(** * Instances of the further properties *)

(** X1 at a buffer of two elements of a non-trivial type. *)
Lemma X1_pop_back_witness :
  exists v' h',
    pop_back false (FV (elem 0 0) 2 3)
      (Heap [Some [Some 10; Some 20; None]] []) = Done v' h' /\
    holds 4 1099511627776 h' v' [10] /\
    destroyed h' = [20].
Proof.
  assert (holds 4 1099511627776 (Heap [Some [Some 10; Some 20; None]] [])
            (FV (elem 0 0) 2 3) [10; 20]) as Hh by solve_holds.
  assert (0 <= 1099511627776 <= PTRDIFF_MAX) as Hl by solve_limits.
  destruct (proj2 (X1_pop_back false 4 1099511627776 eq_refl Hl _ _ _ Hh)
              [10] 20 eq_refl)
    as (v' & h' & Hrun & Hh' & _ & _ & _ & Hlog).
  exists v', h'. split; [exact Hrun|]. split; [exact Hh' | exact Hlog].
Defined.

(** X2 at a buffer with spare capacity. *)
Lemma X2_push_back_pop_back_witness :
  exists v' h',
    (v1 <- push_back true 4 1099511627776 30 (FV (elem 0 0) 2 3) ;;
     pop_back true v1) (Heap [Some [Some 10; Some 20; None]] [])
      = Done v' h' /\
    holds 4 1099511627776 h' v' [10; 20].
Proof.
  assert (holds 4 1099511627776 (Heap [Some [Some 10; Some 20; None]] [])
            (FV (elem 0 0) 2 3) [10; 20]) as Hh by solve_holds.
  assert (0 <= 1099511627776 <= PTRDIFF_MAX) as Hl by solve_limits.
  destruct (X2_push_back_pop_back true 4 1099511627776 eq_refl Hl _ _ _ 30 Hh)
    as (v' & h' & Hrun & Hh' & _).
  { left. simpl. lia. }
  exists v', h'. split; [exact Hrun | exact Hh'].
Defined.

(** X3 at a buffer of two elements of a non-trivial type. *)
Lemma X3_clear_witness :
  exists v' h',
    clear false (FV (elem 0 0) 2 3)
      (Heap [Some [Some 10; Some 20; None]] []) = Done v' h' /\
    size v' = 0 /\ capacity v' = 3 /\ destroyed h' = [10; 20].
Proof.
  assert (holds 4 1099511627776 (Heap [Some [Some 10; Some 20; None]] [])
            (FV (elem 0 0) 2 3) [10; 20]) as Hh by solve_holds.
  assert (0 <= 1099511627776 <= PTRDIFF_MAX) as Hl by solve_limits.
  destruct (X3_clear false 4 1099511627776 Hl _ _ _ Hh)
    as (v' & h' & Hrun & _ & Hs & _ & Hc & _ & Hlog & _).
  exists v', h'. split; [exact Hrun|]. split; [exact Hs|].
  split; [exact Hc | exact Hlog].
Defined.

(** X4 at a buffer of two elements. *)
Lemma X4_resize_zero_is_clear_witness :
  resize true 4 0 1099511627776 0 (FV (elem 0 0) 2 3)
    (Heap [Some [Some 10; Some 20; None]] [])
  = clear true (FV (elem 0 0) 2 3) (Heap [Some [Some 10; Some 20; None]] []).
Proof. apply X4_resize_zero_is_clear; simpl; lia. Defined.

(** X5 one past the last element. *)
Lemma X5_subscript_witness :
  subscript 2 (FV (elem 0 0) 2 3) (Heap [Some [Some 10; Some 20; None]] [])
    = Abort (AssertionFailed PositionInRange) /\
  at_ 2 (FV (elem 0 0) 2 3) (Heap [Some [Some 10; Some 20; None]] [])
    = Thrown range_error (Heap [Some [Some 10; Some 20; None]] []).
Proof.
  refine (proj2 (X5_subscript 4 1099511627776 _ _ [10; 20] 2 _ _) _).
  - solve_holds.
  - lia.
  - simpl. lia.
Defined.

(** X6 at a buffer of two elements. *)
Lemma X6_front_back_witness :
  (p <- front (FV (elem 0 0) 2 3) ;; load p)
    (Heap [Some [Some 10; Some 20; None]] [])
    = Done 10 (Heap [Some [Some 10; Some 20; None]] []) /\
  (p <- back (FV (elem 0 0) 2 3) ;; load p)
    (Heap [Some [Some 10; Some 20; None]] [])
    = Done 20 (Heap [Some [Some 10; Some 20; None]] []).
Proof.
  assert (holds 4 1099511627776 (Heap [Some [Some 10; Some 20; None]] [])
            (FV (elem 0 0) 2 3) [10; 20]) as Hh by solve_holds.
  assert (0 <= 1099511627776 <= PTRDIFF_MAX) as Hl by solve_limits.
  destruct (X6_front_back 4 1099511627776 eq_refl Hl _ _ _ Hh)
    as (_ & _ & Hf & Hb).
  split; [exact Hf | exact Hb].
Defined.

(** X7: writing 99 through [v[1]]. *)
Lemma X7_subscript_assign_witness :
  exists h',
    (p <- subscript 1 (FV (elem 0 0) 2 3) ;; assign p 99)
      (Heap [Some [Some 10; Some 20; None]] []) = Done tt h' /\
    holds 4 1099511627776 h' (FV (elem 0 0) 2 3) [10; 99].
Proof.
  assert (holds 4 1099511627776 (Heap [Some [Some 10; Some 20; None]] [])
            (FV (elem 0 0) 2 3) [10; 20]) as Hh by solve_holds.
  destruct (X7_subscript_assign 4 1099511627776 _ _ _ 1%nat 99 Hh)
    as (h' & Hrun & Hh' & _).
  { simpl. lia. }
  exists h'. split; [exact Hrun | exact Hh'].
Defined.

(** X8 at a buffer of two elements. *)
Lemma X8_iterators_witness :
  off (end_ (FV (elem 0 0) 2 3)) - off (begin (FV (elem 0 0) 2 3)) = 2 /\
  iterate (FV (elem 0 0) 2 3) (Heap [Some [Some 10; Some 20; None]] [])
    = Done [10; 20] (Heap [Some [Some 10; Some 20; None]] []).
Proof.
  assert (holds 4 1099511627776 (Heap [Some [Some 10; Some 20; None]] [])
            (FV (elem 0 0) 2 3) [10; 20]) as Hh by solve_holds.
  destruct (X8_iterators 4 1099511627776 _ _ _ Hh) as (Hd & _ & _ & _ & Hit).
  split; [exact Hd | exact Hit].
Defined.

(** X9 over the first two objects of an array. *)
Lemma X9_range_ctor_witness :
  exists v' h',
    range_ctor false 4 1099511627776 (elem 0 0) (elem 0 2)
      (Heap [Some [Some 10; Some 20; None]] []) = Done v' h' /\
    holds 4 1099511627776 h' v' [10; 20] /\
    capacity v' = 2.
Proof.
  assert (0 <= 1099511627776 <= PTRDIFF_MAX) as Hl by solve_limits.
  destruct (X9_range_ctor false 4 1099511627776 eq_refl Hl [10; 20]
              (Heap [Some [Some 10; Some 20; None]] []) 0%nat
              [Some 10; Some 20; None] 0%nat)
    as (v' & h' & Hrun & _ & Hh' & _ & Hc & _).
  - reflexivity.
  - reflexivity.
  - simpl. lia.
  - exists v', h'. split; [exact Hrun|]. split; [exact Hh' | exact Hc].
Defined.

(** X10 with an allocator that grants at most four bytes. *)
Lemma X10_range_ctor_unchecked_malloc_witness :
  range_ctor true 4 4 (elem 0 0) (elem 0 2)
    (Heap [Some [Some 10; Some 20; None]] [])
  = Abort (Undefined NullAccess).
Proof.
  refine (X10_range_ctor_unchecked_malloc true 4 4 _ _ [10; 20]
            (Heap [Some [Some 10; Some 20; None]] []) 0%nat
            [Some 10; Some 20; None] 0%nat _ _ _).
  - lia.
  - unfold PTRDIFF_MAX. lia.
  - reflexivity.
  - reflexivity.
  - simpl. unfold SIZE_MOD. lia.
Defined.

(** X11 at a buffer of two elements of a non-trivial type. *)
Lemma X11_dtor_witness :
  exists h',
    dtor false (FV (elem 0 0) 2 3)
      (Heap [Some [Some 10; Some 20; None]] []) = Done tt h' /\
    blocks h' !! 0%nat = Some None /\
    destroyed h' = [10; 20].
Proof.
  assert (holds 4 1099511627776 (Heap [Some [Some 10; Some 20; None]] [])
            (FV (elem 0 0) 2 3) [10; 20]) as Hh by solve_holds.
  assert (0 <= 1099511627776 <= PTRDIFF_MAX) as Hl by solve_limits.
  pose proof (X11_dtor false 4 1099511627776 Hl _ _ _ Hh) as Hd.
  simpl in Hd. destruct Hd as (h' & Hrun & Hrel & _ & _ & Hlog).
  exists h'. split; [exact Hrun|]. split; [exact Hrel | exact Hlog].
Defined.

(** X12: [reserve(10)] on a buffer of capacity 3. *)
Lemma X12_reserve_witness :
  exists v' h',
    reserve false 4 1099511627776 10 (FV (elem 0 0) 2 3)
      (Heap [Some [Some 10; Some 20; None]] []) = Done v' h' /\
    holds 4 1099511627776 h' v' [10; 20] /\
    capacity v' = 10 /\
    blocks h' !! 0%nat = Some None.
Proof.
  assert (holds 4 1099511627776 (Heap [Some [Some 10; Some 20; None]] [])
            (FV (elem 0 0) 2 3) [10; 20]) as Hh by solve_holds.
  assert (0 <= 1099511627776 <= PTRDIFF_MAX) as Hl by solve_limits.
  destruct (X12_reserve false 4 1099511627776 eq_refl Hl _ _ _ 10 Hh)
    as (v' & h' & Hrun & Hh' & Hc & _ & _ & Hrel & _).
  - simpl. lia.
  - lia.
  - exists v', h'. split; [exact Hrun|]. split; [exact Hh'|].
    split; [exact Hc|]. now apply Hrel.
Defined.

(** X13: [reserve(3)] on a buffer of capacity 3. *)
Lemma X13_reserve_stops_witness :
  reserve true 4 1099511627776 3 (FV (elem 0 0) 2 3)
    (Heap [Some [Some 10; Some 20; None]] [])
  = Abort reserve_violation.
Proof.
  refine (proj1 (X13_reserve_stops true 4 1099511627776 _ _ _ [10; 20] 3 _) _).
  - solve_limits.
  - solve_holds.
  - simpl. lia.
Defined.

(** X14 for a non-trivial type. *)
Lemma X14_emplace_back_witness :
  exists v' h',
    emplace_back false 4 1099511627776 30 (FV (elem 0 0) 2 3)
      (Heap [Some [Some 10; Some 20; None]] []) = Done v' h' /\
    push_back false 4 1099511627776 30 (FV (elem 0 0) 2 3)
      (Heap [Some [Some 10; Some 20; None]] []) = Done v' h' /\
    holds 4 1099511627776 h' v' ([10; 20] ++ [30]).
Proof.
  refine (X14_emplace_back false 4 1099511627776 _ _ _ _ [10; 20] 30 _ _).
  - lia.
  - solve_limits.
  - solve_holds.
  - left. simpl. lia.
Defined.

(** X15 at a buffer of two elements and capacity 3, under an allocator
    that grants the eight bytes and under one that grants at most four. *)
Lemma X15_shrink_to_fit_witness :
  (exists v' h',
     shrink_to_fit true 4 1099511627776 (FV (elem 0 0) 2 3)
       (Heap [Some [Some 10; Some 20; None]] []) = Done v' h' /\
     storage v' h' = [Some 10; Some 20] /\
     iterate v' h' = Done [10; 20] h') /\
  shrink_to_fit true 4 4 (FV (elem 0 0) 2 3)
    (Heap [Some [Some 10; Some 20; None]] [])
  = Abort (AssertionFailed ReallocationDone).
Proof.
  split.
  - assert (holds 4 1099511627776 (Heap [Some [Some 10; Some 20; None]] [])
              (FV (elem 0 0) 2 3) [10; 20]) as Hh by solve_holds.
    assert (0 <= 1099511627776 <= PTRDIFF_MAX) as Hl by solve_limits.
    destruct (proj2 (proj1 (X15_shrink_to_fit true 4 1099511627776 eq_refl Hl
                              _ _ _) Hh))
      as (v' & h' & Hrun & _ & Hit & Hst & _).
    + simpl. lia.
    + simpl. lia.
    + exists v', h'. split; [exact Hrun|]. split; [exact Hst | exact Hit].
  - assert (0 <= 4 <= PTRDIFF_MAX) as Hl by (unfold PTRDIFF_MAX; lia).
    refine (proj2 (X15_shrink_to_fit true 4 4 eq_refl Hl
                     (Heap [Some [Some 10; Some 20; None]] [])
                     (FV (elem 0 0) 2 3) [10; 20])
              0%nat [Some 10; Some 20; None] eq_refl eq_refl _ _).
    + simpl. lia.
    + simpl. unfold SIZE_MOD. lia.
Defined.

(** X16 with a second buffer in a block of its own. *)
Lemma X16_push_back_other_buffer_witness :
  exists v' h',
    push_back true 4 1099511627776 30 (FV (elem 0 0) 2 2)
      (Heap [Some [Some 10; Some 20]; Some [Some 7]] []) = Done v' h' /\
    holds 4 1099511627776 h' v' ([10; 20] ++ [30]) /\
    holds 4 1099511627776 h' (FV (elem 1 0) 1 1) [7].
Proof.
  assert (holds 4 1099511627776
            (Heap [Some [Some 10; Some 20]; Some [Some 7]] [])
            (FV (elem 0 0) 2 2) [10; 20]) as Hh by solve_holds.
  assert (holds 4 1099511627776
            (Heap [Some [Some 10; Some 20]; Some [Some 7]] [])
            (FV (elem 1 0) 1 1) [7]) as Hu by solve_holds.
  assert (0 <= 1099511627776 <= PTRDIFF_MAX) as Hl by solve_limits.
  destruct (X16_push_back_other_buffer true 4 1099511627776 eq_refl Hl
              (Heap [Some [Some 10; Some 20]; Some [Some 7]] [])
              (FV (elem 0 0) 2 2) (FV (elem 1 0) 1 1) [10; 20] [7] 30 Hh)
    as (v' & h' & Hrun & Hh' & Hu' & _).
  - right. simpl. lia.
  - exact Hu.
  - simpl. intros a Ha Hb. congruence.
  - exists v', h'. split; [exact Hrun|]. split; [exact Hh' | exact Hu'].
Defined.

(** X17 at a source of two elements. *)
Lemma X17_copy_then_push_back_witness :
  exists this w' v',
    (this <- copy_ctor true 4 1099511627776 0 ;;
     update this (push_back true 4 1099511627776 30) ;;; ret this)
      (World [FV (elem 0 0) 2 3] (Heap [Some [Some 10; Some 20; None]] []))
      = Done this w' /\
    objs w' !! this = Some v' /\
    holds 4 1099511627776 (mem w') v' ([10; 20] ++ [30]) /\
    holds 4 1099511627776 (mem w') (FV (elem 0 0) 2 3) [10; 20].
Proof.
  assert (0 <= 1099511627776 <= PTRDIFF_MAX) as Hl by solve_limits.
  destruct (X17_copy_then_push_back true 4 1099511627776 eq_refl Hl
              (World [FV (elem 0 0) 2 3]
                     (Heap [Some [Some 10; Some 20; None]] []))
              0%nat (FV (elem 0 0) 2 3) [10; 20] 30)
    as (this & w' & v' & Hrun & Ht & Hh' & _ & _ & Hho).
  - reflexivity.
  - solve_holds.
  - simpl. lia.
  - exists this, w', v'. split; [exact Hrun|]. split; [exact Ht|].
    split; [exact Hh' | exact Hho].
Defined.

(** X18 on a buffer of two elements and an empty one. *)
Lemma X18_swap_witness :
  exists w',
    swap 0 1
      (World [FV (elem 0 0) 2 3; default_ctor]
             (Heap [Some [Some 10; Some 20; None]] [])) = Done tt w' /\
    objs w' !! 0%nat = Some default_ctor /\
    objs w' !! 1%nat = Some (FV (elem 0 0) 2 3) /\
    mem w' = Heap [Some [Some 10; Some 20; None]] [].
Proof.
  destruct (X18_swap
              (World [FV (elem 0 0) 2 3; default_ctor]
                     (Heap [Some [Some 10; Some 20; None]] []))
              0%nat 1%nat (FV (elem 0 0) 2 3) default_ctor eq_refl eq_refl)
    as (w' & _ & Hrun & Hm & Ha & Hb & _).
  exists w'. split; [exact Hrun|]. split; [exact Ha|].
  split; [exact Hb | exact Hm].
Defined.

(** X19: move construction from a buffer of two elements. *)
Lemma X19_move_hands_over_region_witness :
  exists this w' v',
    move_ctor 0
      (World [FV (elem 0 0) 2 3] (Heap [Some [Some 10; Some 20; None]] []))
      = Done this w' /\
    objs w' !! this = Some v' /\
    data v' = elem 0 0 /\
    mem w' = Heap [Some [Some 10; Some 20; None]] [].
Proof.
  destruct (proj1 (X19_move_hands_over_region 4 1099511627776 eq_refl
              (World [FV (elem 0 0) 2 3]
                     (Heap [Some [Some 10; Some 20; None]] []))
              0%nat (FV (elem 0 0) 2 3) [10; 20] eq_refl
              ltac:(solve_holds)))
    as (this & w' & v' & Hrun & _ & Hm & Ht & Hd & _).
  exists this, w', v'. split; [exact Hrun|]. split; [exact Ht|].
  split; [exact Hd | exact Hm].
Defined.

(** X20: a buffer holding [7] is assigned from one holding [10; 20]. *)
Lemma X20_move_assign_leaks_witness :
  exists w' w'',
    move_assign 0 1
      (World [FV (elem 1 0) 1 1; FV (elem 0 0) 2 3]
             (Heap [Some [Some 10; Some 20; None]; Some [Some 7]] []))
      = Done tt w' /\
    destroy_both false 0 1 w' = Done tt w'' /\
    holds 4 1099511627776 (mem w'') (FV (elem 1 0) 1 1) [7] /\
    destroyed (mem w'') = [10; 20].
Proof.
  assert (0 <= 1099511627776 <= PTRDIFF_MAX) as Hl by solve_limits.
  destruct (X20_move_assign_leaks false 4 1099511627776 eq_refl Hl
              (World [FV (elem 1 0) 1 1; FV (elem 0 0) 2 3]
                     (Heap [Some [Some 10; Some 20; None]; Some [Some 7]] []))
              0%nat 1%nat (FV (elem 1 0) 1 1) (FV (elem 0 0) 2 3)
              [7] [10; 20] 1%nat)
    as (w' & w'' & Hrun & Hd & Hh & Hlog).
  - lia.
  - reflexivity.
  - reflexivity.
  - solve_holds.
  - solve_holds.
  - reflexivity.
  - simpl. congruence.
  - exists w', w''. split; [exact Hrun|]. split; [exact Hd|].
    split; [exact Hh | exact Hlog].
Defined.

(** X21: the same two buffers under copy assignment. *)
Lemma X21_copy_assign_leaks_witness :
  exists w' w'',
    copy_assign false 4 1099511627776 0 1
      (World [FV (elem 1 0) 1 1; FV (elem 0 0) 2 3]
             (Heap [Some [Some 10; Some 20; None]; Some [Some 7]] []))
      = Done tt w' /\
    destroy_both false 0 1 w' = Done tt w'' /\
    holds 4 1099511627776 (mem w'') (FV (elem 1 0) 1 1) [7] /\
    destroyed (mem w'') = [10; 20; 10; 20].
Proof.
  assert (0 <= 1099511627776 <= PTRDIFF_MAX) as Hl by solve_limits.
  destruct (X21_copy_assign_leaks false 4 1099511627776 eq_refl Hl
              (World [FV (elem 1 0) 1 1; FV (elem 0 0) 2 3]
                     (Heap [Some [Some 10; Some 20; None]; Some [Some 7]] []))
              0%nat 1%nat (FV (elem 1 0) 1 1) (FV (elem 0 0) 2 3)
              [7] [10; 20] 1%nat)
    as (w' & w'' & Hrun & _ & Hd & Hh & Hlog).
  - lia.
  - reflexivity.
  - reflexivity.
  - solve_holds.
  - solve_holds.
  - reflexivity.
  - simpl. congruence.
  - exists w', w''. split; [exact Hrun|]. split; [exact Hd|].
    split; [exact Hh | exact Hlog].
Defined.

(** X22 at three values. *)
Lemma X22_growth_closed_form_witness :
  exists v h',
    push_back_all true 4 1099511627776 [10; 20; 30] default_ctor empty_heap
      = Done v h' /\
    size v = 3 /\
    capacity v = 2 ^ Z.log2_up (size v + 1) - 1.
Proof.
  assert (0 <= 1099511627776 <= PTRDIFF_MAX) as Hl by solve_limits.
  destruct (X22_growth_closed_form true 4 1099511627776 eq_refl Hl
              [10; 20; 30] empty_heap)
    as (v & h' & Hrun & Hs & Hc & _).
  - simpl. lia.
  - exists v, h'. split; [exact Hrun|]. split; [exact Hs | exact Hc].
Defined.

(** X23: the position of 20 in a buffer holding [10; 20]. *)
Lemma X23_find_item_witness :
  find_item (begin (FV (elem 0 0) 2 3)) (end_ (FV (elem 0 0) 2 3)) 20
    (Heap [Some [Some 10; Some 20; None]] [])
  = Done (elem 0 1) (Heap [Some [Some 10; Some 20; None]] []).
Proof.
  refine (proj2 (X23_find_item 4 1099511627776 _ _ [10; 20] 20 _)
            [10] [] eq_refl _).
  - solve_holds.
  - apply not_elem_of_cons. split; [discriminate | apply not_elem_of_nil].
Defined.

(** X24: erasing 10 from a buffer holding [10; 20], and from one holding
    [10; 20; 30]. *)
Lemma X24_erase_trivial_witness :
  (exists v' h',
     erase true 4 10 (FV (elem 0 0) 2 3)
       (Heap [Some [Some 10; Some 20; None]] []) = Done v' h' /\
     holds 4 1099511627776 h' v' [20]) /\
  erase true 4 10 (FV (elem 0 0) 3 3)
    (Heap [Some [Some 10; Some 20; Some 30]] [])
  = Abort (Undefined Overlap).
Proof.
  assert (0 <= 1099511627776 <= PTRDIFF_MAX) as Hl by solve_limits.
  split.
  - assert (holds 4 1099511627776 (Heap [Some [Some 10; Some 20; None]] [])
              (FV (elem 0 0) 2 3) [10; 20]) as Hh by solve_holds.
    destruct (proj1 (proj2 (X24_erase_trivial true 4 1099511627776 eq_refl Hl
                              _ _ _ 10 eq_refl Hh)) [] [20] eq_refl)
      as (v' & h' & Hrun & Hh' & _).
    + apply not_elem_of_nil.
    + simpl. lia.
    + exists v', h'. split; [exact Hrun | exact Hh'].
  - assert (holds 4 1099511627776
              (Heap [Some [Some 10; Some 20; Some 30]] [])
              (FV (elem 0 0) 3 3) [10; 20; 30]) as Hh by solve_holds.
    refine (proj2 (proj2 (X24_erase_trivial true 4 1099511627776 eq_refl Hl
                            _ _ _ 10 eq_refl Hh)) [] [20; 30] eq_refl _ _).
    + apply not_elem_of_nil.
    + simpl. lia.
Defined.

(** X25 at a source with two elements and capacity 3. *)
Lemma X25_push_back_after_move_witness :
  (this <- move_ctor 0 ;; update 0 (push_back true 4 1099511627776 30))
    (World [FV (elem 0 0) 2 3] (Heap [Some [Some 10; Some 20; None]] []))
  = Abort (Undefined NullAccess).
Proof.
  apply X25_push_back_after_move with (vo := FV (elem 0 0) 2 3).
  - reflexivity.
  - simpl. lia.
Defined.

(** X26: two objects copied into the middle of another block. *)
Lemma X26_copy_range_witness :
  exists h' (bd' : list (option Z)),
    copy_range (elem 0 0) (elem 0 2) (elem 1 1)
      (Heap [Some [Some 10; Some 20; None]; Some [None; None; None; None]] [])
      = Done tt h' /\
    live h' 1%nat bd' /\
    take 2 (drop 1 bd') = [Some 10; Some 20] /\
    destroyed h' = [].
Proof.
  destruct (X26_copy_range [10; 20]
              (Heap [Some [Some 10; Some 20; None];
                     Some [None; None; None; None]] [])
              0%nat 1%nat [Some 10; Some 20; None] [None; None; None; None]
              0%nat 1%nat)
    as (h' & bd' & Hrun & _ & Hd & Hs & _ & _ & _ & Hlog).
  - reflexivity.
  - reflexivity.
  - lia.
  - reflexivity.
  - simpl. lia.
  - exists h', bd'. split; [exact Hrun|]. split; [exact Hd|].
    split; [exact Hs | exact Hlog].
Defined.

(** X27 over the one free slot of a block. *)
Lemma X27_construct_then_destruct_witness :
  (construct_range 0 (elem 0 2) (elem 0 3) ;;;
   destruct_range (elem 0 2) (elem 0 3))
    (Heap [Some [Some 10; Some 20; None]] [])
  = Done tt (Heap [Some [Some 10; Some 20; None]] [0]).
Proof.
  destruct (X27_construct_then_destruct 0 1%nat
              (Heap [Some [Some 10; Some 20; None]] []) 0%nat
              [Some 10; Some 20; None] 2%nat)
    as (h1 & b1 & _ & _ & _ & Hrun).
  - reflexivity.
  - simpl. lia.
  - reflexivity.
  - exact Hrun.
Defined.

(** X28: [resize(9)] on a buffer of capacity 3. *)
Lemma X28_resize_capacity_witness :
  exists v' h',
    resize false 4 0 1099511627776 9 (FV (elem 0 0) 2 3)
      (Heap [Some [Some 10; Some 20; None]] []) = Done v' h' /\
    wf 4 1099511627776 h' v' /\
    capacity v' = 9.
Proof.
  assert (holds 4 1099511627776 (Heap [Some [Some 10; Some 20; None]] [])
            (FV (elem 0 0) 2 3) [10; 20]) as Hh by solve_holds.
  assert (0 <= 1099511627776 <= PTRDIFF_MAX) as Hl by solve_limits.
  destruct (proj2 (X28_resize_capacity false 4 0 1099511627776 eq_refl Hl
                     _ _ _ 9 Hh ltac:(lia)))
    as (v' & h' & Hrun & Hwf & Hc).
  - simpl. lia.
  - right. lia.
  - exists v', h'. split; [exact Hrun|]. split; [exact Hwf | exact Hc].
Defined.

End FastVector.
